(** * The car catalog and its search index (content_cars.go)

    A shallow embedding of the car catalog of the server manager: the
    metadata codec ([CarDetails.Load], [CarDetails.Save], [toNumber]), the
    catalog store over the directory tree below [ServerInstallPath]
    ([ListCars], [LoadCar], [DeleteCar]), the search index kept next to it
    ([IndexCar], [DeIndexCar], [Search]) and the page arithmetic of the
    list handler.

    Go strings are byte sequences and are modelled by [string]; file
    contents are [list byte]; Go's [int] and [int64] are 64-bit integers,
    modelled by [Z] with the wrap-around written out where the code does
    arithmetic; maps are [gmap]s. A Go function returning [(T, error)]
    returns an [outcome T]; a function that also changes the disk or the
    index returns the new state next to its outcome. *)

From Stdlib Require Import ZArith Lia Bool.
From Stdlib Require Import Strings.String Strings.Ascii Strings.Byte.
From Stdlib Require Import Sorting.Sorted Sorting.Permutation.
From Stdlib Require Import Floats.SpecFloat.
From stdpp Require Import base option list gmap strings fin_maps.

Local Open Scope string_scope.
Local Open Scope Z_scope.

(** ** Errors and outcomes *)

(** The errors the modelled calls can return. [os.IsNotExist] holds of
    [ENOENT] only. *)
Inductive error : Type :=
| ENOENT              (* no such file or directory *)
| ENOTDIR             (* a path component is not a directory *)
| EISDIR              (* the path names a directory, a file was expected *)
| EROFS               (* the file system refuses writes *)
| EJSON               (* encoding/json could not decode or encode *)
| ErrorIndexClosed    (* bleve: the index is not open *)
| ErrorEmptyID        (* bleve: the document id is the empty string *)
| ErrExternal (msg : string). (* an error of a collaborator *)

Definition os_IsNotExist (err : error) : bool :=
  match err with
  | ENOENT => true
  | _ => false
  end.

(** What a call comes back with: a value, an error value, or a run-time
    panic (a nil dereference). *)
Inductive outcome (A : Type) : Type :=
| Ok (a : A)
| Err (err : error)
| Panic.

Arguments Ok {A} a.
Arguments Err {A} err.
Arguments Panic {A}.

(** Sequencing: an error or a panic ends the call; [x ← m; k] is stdpp's
    notation for it. *)
#[global] Instance outcome_bind : MBind outcome := fun A B k m =>
  match m with
  | Ok a => k a
  | Err e => Err e
  | Panic => Panic
  end.

#[global] Instance outcome_ret : MRet outcome := fun A a => Ok a.

Definition is_Ok {A : Type} (m : outcome A) : bool :=
  match m with
  | Ok _ => true
  | _ => false
  end.

(** ** The data model *)

(** [CarSpecs]: the specs block as authored, all strings. *)
Record CarSpecs : Type := mkCarSpecs {
  cs_Acceleration : string;
  cs_BHP : string;
  cs_PWRatio : string;
  cs_TopSpeed : string;
  cs_Torque : string;
  cs_Weight : string
}.

(** [CarSpecsNumeric]: the same block as integers. *)
Record CarSpecsNumeric : Type := mkCarSpecsNumeric {
  csn_Acceleration : Z;
  csn_BHP : Z;
  csn_PWRatio : Z;
  csn_TopSpeed : Z;
  csn_Torque : Z;
  csn_Weight : Z
}.

(** [CarDetails]; a [json.Number] is the text of a number. [Tags] is the
    one slice the code assigns to, and [encoding/json] tells a nil slice
    ([null]) from an empty one ([[]]): [Tags_slice] is the slice, [None]
    when it is nil, and [Tags] below gives its elements. The curves are
    only carried from the decoder to the encoder. *)
Record CarDetails : Type := mkCarDetails {
  Author : string;
  Brand : string;
  Class : string;
  Country : string;
  Description : string;
  Name : string;
  PowerCurve : list (list string);
  SpecsFull : CarSpecs;
  Specs : CarSpecsNumeric;
  Tags_slice : option (list string);
  TorqueCurve : list (list string);
  URL : string;
  Version : string;
  Year : Z;
  DownloadURL : string;
  Notes : string
}.

(** The elements of [cd.Tags]; a nil slice has none. *)
Definition Tags (cd : CarDetails) : list string := default [] (Tags_slice cd).

Definition zeroCarSpecs : CarSpecs :=
  mkCarSpecs EmptyString EmptyString EmptyString EmptyString EmptyString EmptyString.

Definition zeroCarSpecsNumeric : CarSpecsNumeric :=
  mkCarSpecsNumeric 0 0 0 0 0 0.

(** [CarDetails{}], the zero value. *)
Definition zeroCarDetails : CarDetails :=
  mkCarDetails EmptyString EmptyString EmptyString EmptyString EmptyString EmptyString
    [] zeroCarSpecs zeroCarSpecsNumeric None [] EmptyString EmptyString 0
    EmptyString EmptyString.

(** [cd.Tags = tags] for a slice that is not nil: what [append] returns in
    [AddTag] and in [DelTag] holds an element or is cut from a slice that
    does, and such a slice is never nil, also when it is empty. *)
Definition set_Tags (cd : CarDetails) (tags : list string) : CarDetails :=
  mkCarDetails (Author cd) (Brand cd) (Class cd) (Country cd) (Description cd)
    (Name cd) (PowerCurve cd) (SpecsFull cd) (Specs cd) (Some tags) (TorqueCurve cd)
    (URL cd) (Version cd) (Year cd) (DownloadURL cd) (Notes cd).

Definition set_Specs (cd : CarDetails) (specs : CarSpecsNumeric) : CarDetails :=
  mkCarDetails (Author cd) (Brand cd) (Class cd) (Country cd) (Description cd)
    (Name cd) (PowerCurve cd) (SpecsFull cd) specs (Tags_slice cd) (TorqueCurve cd)
    (URL cd) (Version cd) (Year cd) (DownloadURL cd) (Notes cd).

Definition set_Name (cd : CarDetails) (name : string) : CarDetails :=
  mkCarDetails (Author cd) (Brand cd) (Class cd) (Country cd) (Description cd)
    name (PowerCurve cd) (SpecsFull cd) (Specs cd) (Tags_slice cd) (TorqueCurve cd)
    (URL cd) (Version cd) (Year cd) (DownloadURL cd) (Notes cd).

Definition set_Notes (cd : CarDetails) (notes : string) : CarDetails :=
  mkCarDetails (Author cd) (Brand cd) (Class cd) (Country cd) (Description cd)
    (Name cd) (PowerCurve cd) (SpecsFull cd) (Specs cd) (Tags_slice cd) (TorqueCurve cd)
    (URL cd) (Version cd) (Year cd) (DownloadURL cd) notes.

Definition set_DownloadURL (cd : CarDetails) (url : string) : CarDetails :=
  mkCarDetails (Author cd) (Brand cd) (Class cd) (Country cd) (Description cd)
    (Name cd) (PowerCurve cd) (SpecsFull cd) (Specs cd) (Tags_slice cd) (TorqueCurve cd)
    (URL cd) (Version cd) (Year cd) url (Notes cd).

(** [Car]: the record of one catalog item. A nil slice or map is the empty
    one. *)
Record Car : Type := mkCar {
  car_Name : string;
  car_Skins : list string;
  car_Tyres : gmap string string;
  car_Details : CarDetails
}.

(** [Tyres], the registry handed to [LoadCar]: car name to tyre map. *)
Abbreviation Tyres := (gmap string (gmap string string)).

(** ** Tags *)

(** [CarDetails.AddTag]: the loop returns at the first equal tag, otherwise
    the name is appended. *)
Fixpoint hasTag (tags : list string) (name : string) : bool :=
  match tags with
  | [] => false
  | tag :: rest => if String.eqb tag name then true else hasTag rest name
  end.

Definition CarDetails_AddTag (cd : CarDetails) (name : string) : CarDetails :=
  if hasTag (Tags cd) name then cd
  else set_Tags cd (Tags cd ++ [name]).

(** [CarDetails.DelTag]: [deleteIndex] ends as the index of the last equal
    tag, -1 when there is none. *)
Fixpoint deleteIndex_from (index : Z) (deleteIndex : Z) (tags : list string)
    (name : string) : Z :=
  match tags with
  | [] => deleteIndex
  | tag :: rest =>
      deleteIndex_from (index + 1)
        (if String.eqb tag name then index else deleteIndex) rest name
  end.

Definition CarDetails_DelTag (cd : CarDetails) (name : string) : CarDetails :=
  let deleteIndex := deleteIndex_from 0 (-1) (Tags cd) name in
  if Z.eqb deleteIndex (-1) then cd
  else set_Tags cd (firstn (Z.to_nat deleteIndex) (Tags cd)
                      ++ skipn (Z.to_nat (deleteIndex + 1)) (Tags cd)).

(** ** Numeric normalisation of the specs *)

Definition is_digit (c : ascii) : bool :=
  let n := N_of_ascii c in ((48 <=? n) && (n <=? 57))%N.

Definition digit_value (c : ascii) : Z := Z.of_N (N_of_ascii c) - 48.

(** The digits of [s] from its start as far as they go. *)
Fixpoint leading_digits (s : string) : string :=
  match s with
  | EmptyString => EmptyString
  | String c rest => if is_digit c then String c (leading_digits rest) else EmptyString
  end.

(** [keepNumericRegex.FindString] for the pattern [[0-9]+]: the leftmost
    match, as long as it can be; the empty string when nothing matches. *)
Fixpoint keepNumericRegex_FindString (s : string) : string :=
  match s with
  | EmptyString => EmptyString
  | String c rest =>
      if is_digit c then String c (leading_digits rest)
      else keepNumericRegex_FindString rest
  end.

(** The number a string of decimal digits denotes. *)
Fixpoint decimal_from (acc : Z) (s : string) : Z :=
  match s with
  | EmptyString => acc
  | String c rest => decimal_from (10 * acc + digit_value c) rest
  end.

Definition decimal (s : string) : Z := decimal_from 0 s.

Fixpoint all_digits (s : string) : bool :=
  match s with
  | EmptyString => true
  | String c rest => is_digit c && all_digits rest
  end.

Definition maxInt : Z := 2 ^ 63 - 1.
Definition minInt : Z := - 2 ^ 63.

(** Modelled from the spec: [formValueAsInt] is a helper of the package
    that this file calls and does not define. The spec gives the text of a
    number parsed as a base-10 integer, and 0 for text that is no number
    (malformed numeric text normalises to zero). Its result is a Go [int]:
    digits that denote a number above [maxInt] have no [int] and count as
    malformed. *)
Definition formValueAsInt (val : string) : Z :=
  match val with
  | EmptyString => 0
  | _ =>
      if all_digits val then
        (if decimal val <=? maxInt then decimal val else 0)
      else 0
  end.

(** [toNumber] *)
Definition toNumber (str : string) : Z :=
  let str := keepNumericRegex_FindString str in
  formValueAsInt str.

(** [CarSpecs.Numeric] *)
Definition Numeric (cs : CarSpecs) : CarSpecsNumeric :=
  {| csn_Acceleration := toNumber (cs_Acceleration cs);
     csn_BHP := toNumber (cs_BHP cs);
     csn_PWRatio := toNumber (cs_PWRatio cs);
     csn_TopSpeed := toNumber (cs_TopSpeed cs);
     csn_Torque := toNumber (cs_Torque cs);
     csn_Weight := toNumber (cs_Weight cs) |}.

(** ** Sorting *)

(** [sort.Slice] with the comparison [less]. The library promises a
    permutation in which no element is [less] than one before it, and no
    more (it is not stable); this insertion sort is one such sort, and
    nothing below relies on more than that promise. *)
Fixpoint sort_insert {A : Type} (less : A -> A -> bool) (x : A) (l : list A) : list A :=
  match l with
  | [] => [x]
  | y :: rest => if less x y then x :: y :: rest else y :: sort_insert less x rest
  end.

Fixpoint sort_Slice {A : Type} (less : A -> A -> bool) (l : list A) : list A :=
  match l with
  | [] => []
  | x :: rest => sort_insert less x (sort_Slice less rest)
  end.

(** ** The directory tree below [ServerInstallPath] *)

#[local] Set Warnings "-register-all".

(** A file with its bytes, or a directory with its named entries. *)
Inductive node : Type :=
| File (data : list byte)
| Dir (entries : gmap string node).

#[local] Set Warnings "register-all".

(** The disk: the tree at [ServerInstallPath], and whether it refuses
    writes (a read-only mount), the one way a write fails here. *)
Record Disk : Type := mkDisk {
  root : node;
  readonly : bool
}.

(** [os.FileInfo], as far as the code looks at it. *)
Record FileInfo : Type := mkFileInfo {
  fi_Name : string;
  fi_IsDir : bool
}.

(** [filepath.Join] below [ServerInstallPath]: a path is the list of its
    components, and empty elements are dropped. Car names are single path
    components: no separator inside, and neither [.] nor [..]. For such
    elements [filepath.Join], which also cleans the path it joins, has
    nothing to clean. *)
Definition filepath_Join (elem : list string) : list string :=
  List.filter (fun e => negb (String.eqb e EmptyString)) elem.



Definition is_dir (n : node) : bool :=
  match n with
  | Dir _ => true
  | File _ => false
  end.

(** Path resolution. *)
Fixpoint walk (path : list string) (n : node) : outcome node :=
  match path with
  | [] => Ok n
  | x :: rest =>
      match n with
      | File _ => Err ENOTDIR
      | Dir entries =>
          match entries !! x with
          | Some child => walk rest child
          | None => Err ENOENT
          end
      end
  end.

(** [ioutil.ReadDir]: the entries of a directory, sorted by file name. *)
Definition ioutil_ReadDir (fs : node) (dirname : list string) : outcome (list FileInfo) :=
  n ← walk dirname fs;
  match n with
  | File _ => Err ENOTDIR
  | Dir entries =>
      Ok (sort_Slice (fun a b => String.ltb (fi_Name a) (fi_Name b))
            (List.map (fun kv => mkFileInfo (fst kv) (is_dir (snd kv)))
               (map_to_list entries)))
  end.

(** [ioutil.ReadFile] *)
Definition ioutil_ReadFile (fs : node) (filename : list string) : outcome (list byte) :=
  n ← walk filename fs;
  match n with
  | File data => Ok data
  | Dir _ => Err EISDIR
  end.

(** The tree without what [path] names. *)
Fixpoint remove_at (path : list string) (n : node) : node :=
  match path with
  | [] => n
  | x :: rest =>
      match n with
      | File _ => n
      | Dir entries =>
          match rest with
          | [] => Dir (delete x entries)
          | _ :: _ =>
              match entries !! x with
              | Some child => Dir (<[x := remove_at rest child]> entries)
              | None => n
              end
          end
      end
  end.

(** [os.RemoveAll]: removes the path and all below it; a path that does
    not exist is no error. *)
Definition os_RemoveAll (d : Disk) (path : list string) : Disk * outcome unit :=
  match walk path (root d) with
  | Ok _ =>
      if readonly d then (d, Err EROFS)
      else (mkDisk (remove_at path (root d)) (readonly d), Ok tt)
  | Err ENOENT => (d, Ok tt)
  | Err e => (d, Err e)
  | Panic => (d, Panic)
  end.

(** The tree with every directory of [path] made. *)
Fixpoint mkdir_all (path : list string) (n : node) : outcome node :=
  match path with
  | [] =>
      match n with
      | File _ => Err ENOTDIR
      | Dir _ => Ok n
      end
  | x :: rest =>
      match n with
      | File _ => Err ENOTDIR
      | Dir entries =>
          child ← mkdir_all rest (default (Dir ∅) (entries !! x));
          Ok (Dir (<[x := child]> entries))
      end
  end.

(** [os.MkdirAll]: nothing to do when the directory is there. *)
Definition os_MkdirAll (d : Disk) (path : list string) : Disk * outcome unit :=
  match walk path (root d) with
  | Ok (Dir _) => (d, Ok tt)
  | Ok (File _) => (d, Err ENOTDIR)
  | _ =>
      if readonly d then (d, Err EROFS)
      else match mkdir_all path (root d) with
           | Ok r => (mkDisk r (readonly d), Ok tt)
           | Err e => (d, Err e)
           | Panic => (d, Panic)
           end
  end.

(** The tree with the file [path] holding [data]; the directory it is in
    must exist. *)
Fixpoint write_at (path : list string) (data : list byte) (n : node) : outcome node :=
  match path with
  | [] => Err EISDIR
  | x :: rest =>
      match n with
      | File _ => Err ENOTDIR
      | Dir entries =>
          match rest with
          | [] =>
              match entries !! x with
              | Some (Dir _) => Err EISDIR
              | _ => Ok (Dir (<[x := File data]> entries))
              end
          | _ :: _ =>
              match entries !! x with
              | Some child =>
                  child' ← write_at rest data child;
                  Ok (Dir (<[x := child']> entries))
              | None => Err ENOENT
              end
          end
      end
  end.

Definition write_file (d : Disk) (path : list string) (data : list byte) : Disk * outcome unit :=
  if readonly d then (d, Err EROFS)
  else match write_at path data (root d) with
       | Ok r => (mkDisk r (readonly d), Ok tt)
       | Err e => (d, Err e)
       | Panic => (d, Panic)
       end.

(** [os.Create]: the file is made, or emptied when it is there. *)
Definition os_Create (d : Disk) (path : list string) : Disk * outcome unit :=
  write_file d path [].

(** ** The search index *)

(** The bleve index: its documents by id, and whether it is open. [Index]
    and [Delete] refuse the empty id with [ErrorEmptyID] before anything
    else; on a closed index they fail with [ErrorIndexClosed]. *)
Record Index : Type := mkIndex {
  docs : gmap string CarDetails;
  opened : bool
}.

(** [Index.Index]: put, replacing any document of that id. *)
Definition bleve_Index (i : Index) (id : string) (data : CarDetails) : Index * outcome unit :=
  if String.eqb id EmptyString then (i, Err ErrorEmptyID)
  else if opened i then (mkIndex (<[id := data]> (docs i)) (opened i), Ok tt)
  else (i, Err ErrorIndexClosed).

(** [Index.Delete]: deleting an id that is not there is no error. *)
Definition bleve_Delete (i : Index) (id : string) : Index * outcome unit :=
  if String.eqb id EmptyString then (i, Err ErrorEmptyID)
  else if opened i then (mkIndex (delete id (docs i)) (opened i), Ok tt)
  else (i, Err ErrorIndexClosed).

Inductive Query : Type :=
| MatchAllQuery
| QueryStringQuery (term : string).

(** [bleve.SearchResult]: the ids of the hits of the page, in order, and the
    number of all matches (a [uint64]). *)
Record SearchResult : Type := mkSearchResult {
  Hits : list string;
  Total : Z
}.

(** [CarManager] and the world it works in. [carIndex] is an interface
    value: [None] is nil, as [NewCarManager] leaves it. *)
Record World : Type := mkWorld {
  disk : Disk;
  carIndex : option Index
}.

Definition searchPageSize : Z := 50.

(** ** Page arithmetic of the list handler *)

(** Arithmetic on [int] wraps around at 64 bits. *)
Definition wrap_int (x : Z) : Z := (x - minInt) mod 2 ^ 64 + minInt.

(** [float64]: IEEE 754 binary64, 53 bits of precision. *)
Definition float64_of_Z (n : Z) : spec_float := binary_normalize 53 1024 n 0 false.

Definition float64_div (x y : spec_float) : spec_float := SFdiv 53 1024 x y.

(** The least integer not below a finite float. *)
Definition ceil_finite (s : bool) (m : positive) (e : Z) : Z :=
  let v := if s then Z.neg m else Z.pos m in
  if 0 <=? e then v * 2 ^ e else - ((- v) / 2 ^ (- e)).

(** [math.Ceil]: zeros, infinities and NaN are returned as they are. *)
Definition math_Ceil (x : spec_float) : spec_float :=
  match x with
  | S754_finite s m e => binary_normalize 53 1024 (ceil_finite s m e) 0 s
  | _ => x
  end.

(** [int(f)] for a float: the fraction is dropped. What a float outside
    of [int] (or NaN) converts to is left to the platform by the language;
    amd64 gives [minInt]. *)
Definition int_of_float64 (x : spec_float) : Z :=
  match x with
  | S754_zero _ => 0
  | S754_finite s m e =>
      let v := if 0 <=? e then Z.pos m * 2 ^ e else Z.pos m / 2 ^ (- e) in
      let v := if s then - v else v in
      if (minInt <=? v) && (v <=? maxInt) then v else minInt
  | _ => minInt
  end.

(** [page*searchPageSize], the offset the list handler asks for. *)
Definition list_offset (page : Z) : Z := wrap_int (page * searchPageSize).

(** [int(math.Ceil(float64(float64(results.Total)) / float64(searchPageSize)))] *)
Definition numPages_of (total : Z) : Z :=
  int_of_float64 (math_Ceil (float64_div (float64_of_Z total) (float64_of_Z searchPageSize))).

(** What the list handler hands to its template. *)
Record listPage : Type := mkListPage {
  lp_Results : SearchResult;
  lp_Cars : gmap string Car;
  lp_Query : string;
  lp_CurrentPage : Z;
  lp_NumPages : Z;
  lp_PageSize : Z
}.

(** ** The metadata codec *)

(** The regexp [\t*\r*\n*] replaced by nothing: every tab, carriage return
    and line feed goes, every other byte stays. *)
Definition is_tab_cr_lf (b : byte) : bool :=
  match b with
  | x09 | x0d | x0a => true
  | _ => false
  end.

Definition strip_tab_cr_lf (bs : list byte) : list byte :=
  List.filter (fun b => negb (is_tab_cr_lf b)) bs.

(** [bom.Clean]: without the byte-order mark EF BB BF at the front. *)
Definition bom_Clean (bs : list byte) : list byte :=
  match bs with
  | xef :: xbb :: xbf :: rest => rest
  | _ => bs
  end.

(** What [json.Unmarshal(data, &cd)] leaves behind. [cd] is the receiver, a
    pointer, and its address is handed over: a document decodes into the
    struct [cd] points to, the JSON literal [null] sets [cd] itself to nil,
    and an error may leave the struct half filled. *)
Inductive unmarshalled : Type :=
| Decoded (cd : CarDetails)
| DecodedNil
| DecodeError (err : error) (cd : CarDetails).

(** The places of a car below [ServerInstallPath]. *)
Definition carDirectory (name : string) : list string :=
  filepath_Join ["content"; "cars"; name].

Definition skinsDirectory (name : string) : list string :=
  filepath_Join (carDirectory name ++ ["skins"]).

Definition uiDirectory (carName : string) : list string :=
  filepath_Join ["content"; "cars"; carName; "ui"].

Definition detailsFile (carName : string) : list string :=
  filepath_Join ["content"; "cars"; carName; "ui"; "ui_car.json"].

Section Catalog.

(** The collaborators: the JSON library, the helpers of the package that
    this file calls and does not define, and the query side of bleve. *)
Variable prettifyName : string -> bool -> string.
Variable json_Unmarshal : list byte -> CarDetails -> unmarshalled.
Variable json_Encode : CarDetails -> outcome (list byte).
Variable ListTyres : node -> outcome Tyres.
Variable context_Context : Type.
Variable bleve_SearchInContext :
  gmap string CarDetails -> context_Context -> Query -> Z -> Z -> outcome SearchResult.

#[local] Set Default Proof Using "Type".

(** [Car.PrettyName] *)
Definition PrettyName (c : Car) : string := prettifyName (car_Name c) true.

(** [CarDetails.Save]: the new disk and the error. [enc.Encode] writes
    nothing when it cannot encode; the file made by [os.Create] stays
    empty then. *)
Definition CarDetails_Save (cd : CarDetails) (d : Disk) (carName : string)
    : Disk * outcome unit :=
  let uiDirectory := uiDirectory carName in
  match os_MkdirAll d uiDirectory with
  | (d, Ok _) =>
      let f := filepath_Join (uiDirectory ++ ["ui_car.json"]) in
      match os_Create d f with
      | (d, Ok _) =>
          match json_Encode cd with
          | Ok bytes => write_file d f bytes
          | Err err => (d, Err err)
          | Panic => (d, Panic)
          end
      | (d, err) => (d, err)
      end
  | (d, err) => (d, err)
  end.

(** [CarDetails.Load]: the struct the receiver points to afterwards, and
    the error. After [null] the receiver is nil and the assignment to
    [cd.Specs] dereferences it. *)
Definition CarDetails_Load (cd : CarDetails) (fs : node) (carName : string)
    : CarDetails * outcome unit :=
  match ioutil_ReadFile fs (detailsFile carName) with
  | Err err => (cd, Err err)
  | Panic => (cd, Panic)
  | Ok carDetailsBytes =>
      let carDetailsBytes := bom_Clean (strip_tab_cr_lf carDetailsBytes) in
      match json_Unmarshal carDetailsBytes cd with
      | DecodeError err cd => (cd, Err err)
      | DecodedNil => (cd, Panic)
      | Decoded cd => (set_Specs cd (Numeric (SpecsFull cd)), Ok tt)
      end
  end.

(** ** The catalog store *)

(** [CarManager.LoadCar] *)
Definition LoadCar (fs : node) (name : string) (tyres : Tyres) : outcome Car :=
  skinFiles ← ioutil_ReadDir fs (skinsDirectory name);
  let skins := List.map fi_Name (List.filter fi_IsDir skinFiles) in
  let carDetails := zeroCarDetails in
  match CarDetails_Load carDetails fs name with
  | (carDetails, Err err) =>
      if os_IsNotExist err then
        (* the car details don't exist, just create some fake ones. *)
        let carDetails := set_Name carDetails (prettifyName name true) in
        Ok (mkCar name skins (default ∅ (tyres !! name)) carDetails)
      else Err err
  | (_, Panic) => Panic
  | (carDetails, Ok _) =>
      Ok (mkCar name skins (default ∅ (tyres !! name)) carDetails)
  end.

(** The loop of [ListCars] over the directory entries; [cars] is the
    slice built so far. *)
Fixpoint ListCars_loop (fs : node) (tyres : Tyres) (carFiles : list FileInfo)
    (cars : list Car) : outcome (list Car) :=
  match carFiles with
  | [] => Ok cars
  | carFile :: rest =>
      if negb (fi_IsDir carFile) then ListCars_loop fs tyres rest cars
      else
        match LoadCar fs (fi_Name carFile) tyres with
        | Err err =>
            if os_IsNotExist err then ListCars_loop fs tyres rest cars
            else Err err
        | Panic => Panic
        | Ok car => ListCars_loop fs tyres rest (cars ++ [car])
        end
  end.

(** [CarManager.ListCars] *)
Definition ListCars (fs : node) : outcome (list Car) :=
  carFiles ← ioutil_ReadDir fs (filepath_Join ["content"; "cars"]);
  tyres ← ListTyres fs;
  cars ← ListCars_loop fs tyres carFiles [];
  Ok (sort_Slice (fun a b => String.ltb (PrettyName a) (PrettyName b)) cars).

(** [CarManager.IndexCar] and [CarManager.DeIndexCar] *)
Definition IndexCar (w : World) (car : Car) : World * outcome unit :=
  match carIndex w with
  | None => (w, Panic)
  | Some i =>
      let '(i, err) := bleve_Index i (car_Name car) (car_Details car) in
      (mkWorld (disk w) (Some i), err)
  end.

Definition DeIndexCar (w : World) (name : string) : World * outcome unit :=
  match carIndex w with
  | None => (w, Panic)
  | Some i =>
      let '(i, err) := bleve_Delete i name in
      (mkWorld (disk w) (Some i), err)
  end.

(** The loop of [DeleteCar]: at the first car of that name the tree is
    removed and the loop left. *)
Fixpoint DeleteCar_loop (d : Disk) (carName : string) (existingCars : list Car)
    : Disk * outcome unit :=
  match existingCars with
  | [] => (d, Ok tt)
  | car :: rest =>
      if negb (String.eqb (car_Name car) carName) then DeleteCar_loop d carName rest
      else os_RemoveAll d (carDirectory carName)
  end.

(** [CarManager.DeleteCar] *)
Definition DeleteCar (w : World) (carName : string) : World * outcome unit :=
  match ListCars (root (disk w)) with
  | Err err => (w, Err err)
  | Panic => (w, Panic)
  | Ok existingCars =>
      match DeleteCar_loop (disk w) carName existingCars with
      | (d, Ok _) => DeIndexCar (mkWorld d (carIndex w)) carName
      | (d, err) => (mkWorld d (carIndex w), err)
      end
  end.

(** [CarManager.IndexAllCars] *)
Fixpoint IndexAllCars_loop (w : World) (cars : list Car) : World * outcome unit :=
  match cars with
  | [] => (w, Ok tt)
  | car :: rest =>
      match IndexCar w car with
      | (w, Ok _) => IndexAllCars_loop w rest
      | (w, err) => (w, err)
      end
  end.

Definition IndexAllCars (w : World) : World * outcome unit :=
  match ListCars (root (disk w)) with
  | Err err => (w, Err err)
  | Panic => (w, Panic)
  | Ok cars => IndexAllCars_loop w cars
  end.

(** The loop of [Search] over the hits; [cars] is the map built so far. *)
Fixpoint Search_loop (fs : node) (hits : list string) (cars : gmap string Car)
    : outcome (gmap string Car) :=
  match hits with
  | [] => Ok cars
  | hit :: rest =>
      car ← LoadCar fs hit ∅;
      Search_loop fs rest (<[hit := car]> cars)
  end.

(** [CarManager.Search]: on an error neither results nor cars come back. *)
Definition Search (w : World) (ctx : context_Context) (term : string) (from : Z)
    : outcome (SearchResult * gmap string Car) :=
  let q := if String.eqb term EmptyString then MatchAllQuery
           else QueryStringQuery term in
  match carIndex w with
  | None => Panic
  | Some i =>
      results ←
        (if opened i then bleve_SearchInContext (docs i) ctx q searchPageSize from
         else Err ErrorIndexClosed);
      cars ← Search_loop (root (disk w)) (Hits results) ∅;
      Ok (results, cars)
  end.

(** [CarManager.SaveCarDetails]: saves a car's details, and indexes that
    car. *)
Definition SaveCarDetails (w : World) (carName : string) (car : Car)
    : World * outcome unit :=
  match CarDetails_Save (car_Details car) (disk w) carName with
  | (d, Ok _) => IndexCar (mkWorld d (carIndex w)) car
  | (d, err) => (mkWorld d (carIndex w), err)
  end.

Definition with_Details (car : Car) (cd : CarDetails) : Car :=
  mkCar (car_Name car) (car_Skins car) (car_Tyres car) cd.

(** [CarManager.AddTag] and [CarManager.DelTag] *)
Definition AddTag (w : World) (carName tag : string) : World * outcome unit :=
  match LoadCar (root (disk w)) carName ∅ with
  | Err err => (w, Err err)
  | Panic => (w, Panic)
  | Ok car =>
      let car := with_Details car (CarDetails_AddTag (car_Details car) tag) in
      SaveCarDetails w carName car
  end.

Definition DelTag (w : World) (carName tag : string) : World * outcome unit :=
  match LoadCar (root (disk w)) carName ∅ with
  | Err err => (w, Err err)
  | Panic => (w, Panic)
  | Ok car =>
      let car := with_Details car (CarDetails_DelTag (car_Details car) tag) in
      SaveCarDetails w carName car
  end.

(** [CarManager.UpdateCarMetadata]; the request is its two form values. *)
Definition UpdateCarMetadata (w : World) (carName : string)
    (form_Notes form_DownloadURL : string) : World * outcome unit :=
  match LoadCar (root (disk w)) carName ∅ with
  | Err err => (w, Err err)
  | Panic => (w, Panic)
  | Ok car =>
      let car := with_Details car (set_Notes (car_Details car) form_Notes) in
      let car := with_Details car (set_DownloadURL (car_Details car) form_DownloadURL) in
      match CarDetails_Save (car_Details car) (disk w) carName with
      | (d, err) => (mkWorld d (carIndex w), err)
      end
  end.


(** [CarsHandler.list]; the request is its two query values. An error of
    the search is answered with status 500. *)
Definition CarsHandler_list (w : World) (ctx : context_Context) (query_q query_page : string)
    : outcome listPage :=
  let searchTerm := query_q in
  let page := formValueAsInt query_page in
  '(results, cars) ← Search w ctx searchTerm (list_offset page);
  let numPages := numPages_of (Total results) in
  Ok (mkListPage results cars searchTerm page numPages searchPageSize).


(** ** The rest of the file *)

(** [Cars.AsMap]: car name to skins; a later car of the same name
    replaces an earlier one. *)
Fixpoint AsMap_loop (cs : list Car) (out : gmap string (list string))
    : gmap string (list string) :=
  match cs with
  | [] => out
  | car :: rest => AsMap_loop rest (<[car_Name car := car_Skins car]> out)
  end.

Definition AsMap (cs : list Car) : gmap string (list string) := AsMap_loop cs ∅.

(** [NewCarManager]: a manager whose index is still nil. *)
Definition NewCarManager (d : Disk) : World := mkWorld d None.

(** The session results are declared elsewhere in the package: their type,
    the drivers of a result, the car model of a driver, and
    [ListAllResults]. *)
Variable SessionResults : Type.
Variable SessionResult : Type.
Variable sr_Result : SessionResults -> list SessionResult.
Variable sr_CarModel : SessionResult -> string.
Variable ListAllResults : node -> outcome (list SessionResults).

(** The inner loop of [ResultsForCar]: [hasCar] is set at the first driver
    of that car and the loop left. *)
Fixpoint hasCar_loop (drivers : list SessionResult) (car : string) : bool :=
  match drivers with
  | [] => false
  | driver :: rest =>
      if String.eqb (sr_CarModel driver) car then true else hasCar_loop rest car
  end.

Fixpoint ResultsForCar_loop (results : list SessionResults) (car : string)
    (out : list SessionResults) : list SessionResults :=
  match results with
  | [] => out
  | result :: rest =>
      let hasCar := hasCar_loop (sr_Result result) car in
      ResultsForCar_loop rest car (if hasCar then (out ++ [result])%list else out)
  end.

(** [CarManager.ResultsForCar] *)
Definition ResultsForCar (fs : node) (car : string) : outcome (list SessionResults) :=
  results ← ListAllResults fs;
  Ok (ResultsForCar_loop results car []).

(** What [bleve.Open] answers at the index path. *)
Inductive opening : Type :=
| Opens (i : Index)
| ErrorIndexPathDoesNotExist
| OpenFails (err : error).

(** [CarManager.CreateOrOpenSearchIndex], given what [bleve.Open] and, if
    it comes to that, [bleve.New] answer. Both return a nil index next to
    an error, and the manager's field is assigned either way. *)
Definition CreateOrOpenSearchIndex (bleve_Open : opening) (bleve_New : outcome Index)
    (w : World) : World * outcome unit :=
  match bleve_Open with
  | ErrorIndexPathDoesNotExist =>
      match bleve_New with
      | Ok i => IndexAllCars (mkWorld (disk w) (Some i))
      | Err err => (mkWorld (disk w) None, Err err)
      | Panic => (mkWorld (disk w) None, Panic)
      end
  | OpenFails err => (mkWorld (disk w) None, Err err)
  | Opens i => (mkWorld (disk w) (Some i), Ok tt)
  end.

(** ** A small catalog to run the code on *)

(** Stand-ins for the collaborators. The decoder takes the text of the
    file for the name and for the power figure and sets a numeric power
    figure of its own; [null] and the empty document are as in
    encoding/json. *)
Definition ex_prettifyName (name : string) (acronyms : bool) : string := name.

Definition ex_Unmarshal (data : list byte) (cd : CarDetails) : unmarshalled :=
  match data with
  | [] => DecodeError EJSON cd
  | [x6e; x75; x6c; x6c] => DecodedNil
  | _ =>
      let text := string_of_list_byte data in
      Decoded (mkCarDetails (Author cd) (Brand cd) (Class cd) (Country cd)
                 (Description cd) text (PowerCurve cd)
                 (mkCarSpecs EmptyString text EmptyString EmptyString EmptyString EmptyString)
                 (mkCarSpecsNumeric 0 1 0 0 0 0)
                 (Tags_slice cd) (TorqueCurve cd) (URL cd) (Version cd) (Year cd)
                 (DownloadURL cd) (Notes cd))
  end.

Definition ex_Encode (cd : CarDetails) : outcome (list byte) :=
  Ok (list_byte_of_string (Name cd ++ String.concat "," (Tags cd) ++ Notes cd)).

Definition ex_ListTyres (fs : node) : outcome Tyres := Ok ∅.

Definition ex_SearchInContext (ds : gmap string CarDetails) (ctx : unit) (q : Query)
    (size from : Z) : outcome SearchResult :=
  let ids := sort_Slice String.ltb (List.map fst (map_to_list ds)) in
  Ok (mkSearchResult (firstn (Z.to_nat size) (skipn (Z.to_nat from) ids))
        (Z.of_nat (length ids))).

(** Three car directories and a stray file: [abarth500] with a skin and a
    metadata file, [bmw_m3] with a skin and no metadata, [ghost] without a
    skins directory. *)
Definition ex_abarth500 : node :=
  Dir (<["skins" := Dir (<["red" := Dir ∅]> (<["readme.txt" := File []]> ∅))]>
      (<["ui" := Dir (<["ui_car.json" := File (list_byte_of_string "450 bhp")]> ∅)]> ∅)).

Definition ex_bmw_m3 : node :=
  Dir (<["skins" := Dir (<["white" := Dir ∅]> ∅)]> ∅).

Definition ex_ghost : node :=
  Dir (<["ui" := Dir ∅]> ∅).

Definition ex_root : node :=
  Dir (<["content" :=
         Dir (<["cars" :=
                Dir (<["abarth500" := ex_abarth500]>
                    (<["bmw_m3" := ex_bmw_m3]>
                    (<["ghost" := ex_ghost]>
                    (<["notes.txt" := File []]> ∅))))]> ∅)]> ∅).

Definition ex_index : Index :=
  mkIndex (<["abarth500" := set_Name zeroCarDetails "450 bhp"]>
          (<["ghost" := set_Name zeroCarDetails "ghost"]> ∅)) true.

Definition ex_world : World := mkWorld (mkDisk ex_root false) (Some ex_index).

(** The same catalog without [ghost], and with a healthy index. *)
Definition ex_root_clean : node :=
  Dir (<["content" :=
         Dir (<["cars" :=
                Dir (<["abarth500" := ex_abarth500]>
                    (<["bmw_m3" := ex_bmw_m3]> ∅))]> ∅)]> ∅).

Definition ex_index_clean : Index :=
  mkIndex (<["abarth500" := set_Name zeroCarDetails "450 bhp"]>
          (<["bmw_m3" := set_Name zeroCarDetails "bmw_m3"]> ∅)) true.

Definition ex_world_clean : World :=
  mkWorld (mkDisk ex_root_clean false) (Some ex_index_clean).

(** Two details that agree on every field other than [Tags]. *)
Definition same_except_Tags (a b : CarDetails) : Prop :=
  Author a = Author b /\ Brand a = Brand b /\ Class a = Class b /\
  Country a = Country b /\ Description a = Description b /\ Name a = Name b /\
  PowerCurve a = PowerCurve b /\ SpecsFull a = SpecsFull b /\ Specs a = Specs b /\
  TorqueCurve a = TorqueCurve b /\ URL a = URL b /\ Version a = Version b /\
  Year a = Year b /\ DownloadURL a = DownloadURL b /\ Notes a = Notes b.

(** Strings without a digit, and strings that do not start with one. *)
Fixpoint no_digits (s : string) : bool :=
  match s with
  | EmptyString => true
  | String c rest => negb (is_digit c) && no_digits rest
  end.

Definition no_leading_digit (s : string) : bool :=
  match s with
  | EmptyString => true
  | String c _ => negb (is_digit c)
  end.

(** ** More of the catalog *)

(** A second pair of stand-ins for the codec, one that reads back what it
    wrote: the fields of the details are numbered together, and the number
    is written in binary digits after an opening brace. The encoder
    refuses a curve entry that is not a number, as [json.Number] does. *)
Definition ex_fields (cd : CarDetails)
    : list string * list Z *
      (list (list string) * option (list string) * list (list string)) :=
  ([Author cd; Brand cd; Class cd; Country cd; Description cd; Name cd;
    cs_Acceleration (SpecsFull cd); cs_BHP (SpecsFull cd); cs_PWRatio (SpecsFull cd);
    cs_TopSpeed (SpecsFull cd); cs_Torque (SpecsFull cd); cs_Weight (SpecsFull cd);
    URL cd; Version cd; DownloadURL cd; Notes cd],
   [csn_Acceleration (Specs cd); csn_BHP (Specs cd); csn_PWRatio (Specs cd);
    csn_TopSpeed (Specs cd); csn_Torque (Specs cd); csn_Weight (Specs cd); Year cd],
   (PowerCurve cd, Tags_slice cd, TorqueCurve cd)).

Definition ex_of_fields
    (t : list string * list Z *
         (list (list string) * option (list string) * list (list string)))
    : option CarDetails :=
  match t with
  | ([author; brand; class; country; description; name;
      acceleration; bhp; pwratio; topspeed; torque; weight;
      url; version; downloadURL; notes],
     [nacceleration; nbhp; npwratio; ntopspeed; ntorque; nweight; year],
     (powerCurve, tags, torqueCurve)) =>
      Some (mkCarDetails author brand class country description name powerCurve
              (mkCarSpecs acceleration bhp pwratio topspeed torque weight)
              (mkCarSpecsNumeric nacceleration nbhp npwratio ntopspeed ntorque nweight)
              tags torqueCurve url version year downloadURL notes)
  | _ => None
  end.

Fixpoint ex_digits (p : positive) : list byte :=
  match p with
  | xH => []
  | xO q => x30 :: ex_digits q
  | xI q => x31 :: ex_digits q
  end.

Fixpoint ex_of_digits (bs : list byte) : option positive :=
  match bs with
  | [] => Some xH
  | b :: rest =>
      if Byte.eqb b x30 then xO <$> ex_of_digits rest
      else if Byte.eqb b x31 then xI <$> ex_of_digits rest
      else None
  end.

Definition ex_is_number (s : string) : bool :=
  negb (String.eqb s EmptyString) && all_digits s.

Definition ex_Encode_digits (cd : CarDetails) : outcome (list byte) :=
  if List.forallb (List.forallb ex_is_number) (PowerCurve cd ++ TorqueCurve cd)
  then Ok (x7b :: ex_digits (encode (ex_fields cd)))
  else Err EJSON.

Definition ex_parse (bs : list byte) : option CarDetails :=
  match ex_of_digits bs with
  | Some p =>
      match decode p with
      | Some t => ex_of_fields t
      | None => None
      end
  | None => None
  end.

Definition ex_Unmarshal_digits (data : list byte) (cd : CarDetails) : unmarshalled :=
  match data with
  | b :: bs =>
      if Byte.eqb b x7b then
        match ex_parse bs with
        | Some cd' => Decoded cd'
        | None => DecodeError EJSON cd
        end
      else DecodeError EJSON cd
  | [] => DecodeError EJSON cd
  end.

(** The clean catalog with a car whose metadata file is empty, which no
    decoder takes; the clean catalog on a disk that refuses writes; and
    the clean catalog with tabs and line ends in the metadata file. *)
Definition ex_broken : node :=
  Dir (<["skins" := Dir ∅]>
      (<["ui" := Dir (<["ui_car.json" := File []]> ∅)]> ∅)).

Definition ex_root_broken : node :=
  Dir (<["content" :=
         Dir (<["cars" :=
                Dir (<["abarth500" := ex_abarth500]>
                    (<["broken" := ex_broken]> ∅))]> ∅)]> ∅).

Definition ex_world_broken : World :=
  mkWorld (mkDisk ex_root_broken false) (Some ex_index_clean).

Definition ex_world_readonly : World :=
  mkWorld (mkDisk ex_root_clean true) (Some ex_index_clean).

Definition ex_abarth500_spaced : node :=
  Dir (<["skins" := Dir (<["red" := Dir ∅]> ∅)]>
      (<["ui" :=
         Dir (<["ui_car.json" :=
                File (list_byte_of_string "450 " ++ [x09; x0d; x0a] ++
                      list_byte_of_string "bhp")%list]> ∅)]> ∅)).

Definition ex_root_spaced : node :=
  Dir (<["content" :=
         Dir (<["cars" := Dir (<["abarth500" := ex_abarth500_spaced]> ∅)]> ∅)]> ∅).

(** Details with a power curve that has an entry which is no number. *)
Definition ex_details_bad_curve : CarDetails :=
  mkCarDetails EmptyString EmptyString EmptyString EmptyString EmptyString "abarth"
    [["1000"; "n/a"]] zeroCarSpecs zeroCarSpecsNumeric None [] EmptyString EmptyString 0
    EmptyString EmptyString.

(** The six numbers of a numeric specs block. *)
Definition csn_fields (n : CarSpecsNumeric) : list Z :=
  [csn_Acceleration n; csn_BHP n; csn_PWRatio n; csn_TopSpeed n; csn_Torque n;
   csn_Weight n].

(** * Properties *)

(** ** The order on strings *)

Lemma ascii_compare_Lt_trans (a b c : ascii) :
  Ascii.compare a b = Lt -> Ascii.compare b c = Lt -> Ascii.compare a c = Lt.
Proof.
  unfold Ascii.compare. rewrite !N.compare_lt_iff. lia.
Qed.

Lemma string_compare_Lt_trans (s1 : string) :
  forall s2 s3,
    String.compare s1 s2 = Lt -> String.compare s2 s3 = Lt ->
    String.compare s1 s3 = Lt.
Proof.
  induction s1 as [|c1 s1 IH]; intros [|c2 s2] [|c3 s3]; simpl; try congruence.
  destruct (Ascii.compare c1 c2) eqn:E12; try discriminate;
    destruct (Ascii.compare c2 c3) eqn:E23; try discriminate; intros H12 H23.
  - apply Ascii.compare_eq_iff in E12, E23. subst.
    replace (Ascii.compare c3 c3) with Eq
      by (symmetry; unfold Ascii.compare; apply N.compare_refl).
    eauto.
  - apply Ascii.compare_eq_iff in E12. subst. now rewrite E23.
  - apply Ascii.compare_eq_iff in E23. subst. now rewrite E12.
  - now rewrite (ascii_compare_Lt_trans _ _ _ E12 E23).
Qed.

Lemma string_ltb_leb (s1 s2 : string) :
  String.ltb s1 s2 = true -> String.leb s1 s2 = true.
Proof.
  unfold String.ltb, String.leb. now destruct (String.compare s1 s2).
Qed.

Lemma string_not_ltb_leb (s1 s2 : string) :
  String.ltb s1 s2 = false -> String.leb s2 s1 = true.
Proof.
  unfold String.ltb, String.leb. rewrite (String.compare_antisym s1 s2).
  now destruct (String.compare s2 s1).
Qed.

Lemma string_leb_trans (s1 s2 s3 : string) :
  String.leb s1 s2 = true -> String.leb s2 s3 = true -> String.leb s1 s3 = true.
Proof.
  unfold String.leb.
  destruct (String.compare s1 s2) eqn:E12; try discriminate;
    destruct (String.compare s2 s3) eqn:E23; try discriminate; intros _ _.
  - apply String.compare_eq_iff in E12. subst. now rewrite E23.
  - apply String.compare_eq_iff in E12. subst. now rewrite E23.
  - apply String.compare_eq_iff in E23. subst. now rewrite E12.
  - now rewrite (string_compare_Lt_trans _ _ _ E12 E23).
Qed.

(** ** [sort.Slice] gives a sorted permutation *)

Section Sorting.

Context {A : Type} (key : A -> string).

Let less (a b : A) : bool := String.ltb (key a) (key b).
Let ascending (a b : A) : Prop := String.leb (key a) (key b) = true.

Lemma sort_insert_Permutation (less' : A -> A -> bool) (x : A) (l : list A) :
  Permutation (x :: l) (sort_insert less' x l).
Proof.
  induction l as [|y l IH]; simpl; [reflexivity|].
  destruct (less' x y); [reflexivity|].
  rewrite perm_swap. now constructor.
Qed.

Lemma sort_Slice_Permutation (less' : A -> A -> bool) (l : list A) :
  Permutation l (sort_Slice less' l).
Proof.
  induction l as [|x l IH]; simpl; [reflexivity|].
  rewrite <- sort_insert_Permutation. now constructor.
Qed.

Lemma sort_insert_sorted (x : A) (l : list A) :
  StronglySorted ascending l -> StronglySorted ascending (sort_insert less x l).
Proof.
  induction 1 as [|y l Hl IH Hy]; simpl.
  - repeat constructor.
  - unfold less at 1. destruct (String.ltb (key x) (key y)) eqn:E.
    + constructor; [now constructor|].
      constructor; [apply string_ltb_leb; exact E|].
      eapply List.Forall_impl; [|exact Hy].
      intros z Hz. unfold ascending in *.
      eapply string_leb_trans; [apply string_ltb_leb; exact E|exact Hz].
    + constructor; [exact IH|].
      rewrite <- (sort_insert_Permutation less x l).
      constructor; [apply string_not_ltb_leb; exact E|exact Hy].
Qed.

Lemma sort_Slice_sorted (l : list A) :
  StronglySorted ascending (sort_Slice less l).
Proof.
  induction l as [|x l IH]; simpl; [constructor|].
  now apply sort_insert_sorted.
Qed.

End Sorting.

(** ** Paths and the tree *)

Lemma filepath_Join_app (l1 l2 : list string) :
  filepath_Join (filepath_Join l1 ++ l2) = filepath_Join (l1 ++ l2).
Proof.
  unfold filepath_Join. rewrite !List.filter_app. f_equal.
  induction l1 as [|x l1 IH]; simpl; [reflexivity|].
  destruct (negb (String.eqb x EmptyString)) eqn:E; simpl; rewrite ?E, IH; reflexivity.
Qed.

Lemma skinsDirectory_eq (name : string) :
  skinsDirectory name = (carDirectory name ++ ["skins"])%list.
Proof.
  unfold skinsDirectory, carDirectory. rewrite filepath_Join_app.
  unfold filepath_Join. now rewrite List.filter_app.
Qed.

Lemma detailsFile_eq (carName : string) :
  filepath_Join (uiDirectory carName ++ ["ui_car.json"]) = detailsFile carName.
Proof. unfold uiDirectory, detailsFile. now rewrite filepath_Join_app. Qed.

Lemma walk_app (p q : list string) :
  forall n, walk (p ++ q) n = (m ← walk p n; walk q m).
Proof.
  induction p as [|x p IH]; intros n; simpl; [reflexivity|].
  destruct n as [data|entries]; [reflexivity|].
  destruct (entries !! x); [apply IH|reflexivity].
Qed.

Lemma write_at_walk (path : list string) (data : list byte) :
  forall n n', write_at path data n = Ok n' -> walk path n' = Ok (File data).
Proof.
  induction path as [|x rest IH]; intros n n'; simpl; [discriminate|].
  destruct n as [d|entries]; [discriminate|].
  destruct rest as [|y rest].
  - destruct (entries !! x) as [[d|es]|]; try discriminate;
      intros [= <-]; simpl; now rewrite lookup_insert_eq.
  - destruct (entries !! x) as [child|]; [|discriminate].
    destruct (write_at (y :: rest) data child) as [child'| |] eqn:E; try discriminate.
    intros [= <-]. cbn [walk]. rewrite lookup_insert_eq. now apply (IH child).
Qed.

Lemma write_file_read (d d' : Disk) (path : list string) (data : list byte) :
  write_file d path data = (d', Ok tt) ->
  ioutil_ReadFile (root d') path = Ok data /\ readonly d' = false.
Proof.
  unfold write_file. destruct (readonly d) eqn:Hro; [discriminate|].
  destruct (write_at path data (root d)) as [r| |] eqn:E; try discriminate.
  intros [= <-]. simpl. split; [|reflexivity].
  unfold ioutil_ReadFile. now rewrite (write_at_walk _ _ _ _ E).
Qed.

(** ** Loading *)

Lemma LoadCar_Name (fs : node) (name : string) (tyres : Tyres) (car : Car) :
  LoadCar fs name tyres = Ok car -> car_Name car = name.
Proof.
  unfold LoadCar.
  destruct (ioutil_ReadDir fs (skinsDirectory name)) as [skinFiles| |]; simpl;
    try discriminate.
  destruct (CarDetails_Load zeroCarDetails fs name) as [cd [[]|err|]];
    try discriminate.
  - now intros [= <-].
  - destruct (os_IsNotExist err); [now intros [= <-]|discriminate].
Qed.

Lemma LoadCar_reads_skins (fs : node) (name : string) (tyres : Tyres) (car : Car) :
  LoadCar fs name tyres = Ok car ->
  exists skinFiles, ioutil_ReadDir fs (skinsDirectory name) = Ok skinFiles.
Proof.
  unfold LoadCar.
  destruct (ioutil_ReadDir fs (skinsDirectory name)) as [skinFiles| |]; simpl;
    try discriminate.
  eauto.
Qed.

Lemma LoadCar_skins_absent (fs : node) (name : string) (tyres : Tyres) :
  walk (skinsDirectory name) fs = Err ENOENT ->
  LoadCar fs name tyres = Err ENOENT.
Proof.
  intros H. unfold LoadCar, ioutil_ReadDir. now rewrite H.
Qed.

(** C3. Whenever [CarDetails.Load] succeeds, the numeric specs of the
    loaded details are [Numeric] of their string specs: the details are
    the decoded document with its numeric block replaced by the recomputed
    one, so whatever numeric block the file held is never kept. *)
Theorem Load_recomputes_Specs (cd cd' : CarDetails) (fs : node) (carName : string) :
  CarDetails_Load cd fs carName = (cd', Ok tt) ->
  Specs cd' = Numeric (SpecsFull cd') /\
  exists bytes decoded,
    ioutil_ReadFile fs (detailsFile carName) = Ok bytes /\
    json_Unmarshal (bom_Clean (strip_tab_cr_lf bytes)) cd = Decoded decoded /\
    cd' = set_Specs decoded (Numeric (SpecsFull decoded)).
Proof.
  unfold CarDetails_Load.
  destruct (ioutil_ReadFile fs (detailsFile carName)) as [bytes|err|];
    try discriminate.
  destruct (json_Unmarshal (bom_Clean (strip_tab_cr_lf bytes)) cd)
    as [decoded| |err partial] eqn:Hdec; try discriminate.
  intros [= <-]. split; [reflexivity|].
  exists bytes, decoded. auto.
Qed.

(** The details [LoadCar] makes up when there is no metadata file obey the
    same rule: all their specs are empty and all their numbers 0. *)
Lemma Numeric_zero : Numeric zeroCarSpecs = zeroCarSpecsNumeric.
Proof. reflexivity. Qed.

(** C6. A car whose skins directory is there and whose [ui_car.json] is
    not loads without error; its details hold the prettified name and
    nothing else. *)
Theorem LoadCar_without_details (fs : node) (name : string) (tyres : Tyres)
    (skinEntries : gmap string node) :
  walk (skinsDirectory name) fs = Ok (Dir skinEntries) ->
  walk (detailsFile name) fs = Err ENOENT ->
  exists car,
    LoadCar fs name tyres = Ok car /\
    car_Name car = name /\
    car_Details car =
      mkCarDetails EmptyString EmptyString EmptyString EmptyString EmptyString
        (prettifyName name true) [] zeroCarSpecs zeroCarSpecsNumeric None []
        EmptyString EmptyString 0 EmptyString EmptyString.
Proof.
  intros Hskins Hfile.
  unfold LoadCar, ioutil_ReadDir, CarDetails_Load, ioutil_ReadFile.
  rewrite Hskins, Hfile. simpl. eexists. split; [reflexivity|]. split; reflexivity.
Qed.

(** ** Listing *)

Lemma ListCars_loop_loaded (fs : node) (tyres : Tyres) (carFiles : list FileInfo) :
  forall acc cars,
    ListCars_loop fs tyres carFiles acc = Ok cars ->
    exists loaded,
      cars = (acc ++ loaded)%list /\
      List.Forall (fun car => LoadCar fs (car_Name car) tyres = Ok car) loaded.
Proof.
  induction carFiles as [|carFile rest IH]; intros acc cars; simpl.
  - intros [= <-]. exists []. split; [now rewrite List.app_nil_r|constructor].
  - destruct (fi_IsDir carFile); simpl; [|apply IH].
    destruct (LoadCar fs (fi_Name carFile) tyres) as [car|err|] eqn:Hload;
      try discriminate.
    + intros H. destruct (IH _ _ H) as (loaded & -> & Hall).
      exists (car :: loaded). split; [now rewrite <- List.app_assoc|].
      constructor; [|exact Hall].
      now rewrite (LoadCar_Name _ _ _ _ Hload).
    + destruct (os_IsNotExist err); [apply IH|discriminate].
Qed.


Lemma ListCars_listed_loads (fs : node) (cars : list Car) (car : Car) :
  ListCars fs = Ok cars -> In car cars ->
  exists tyres, LoadCar fs (car_Name car) tyres = Ok car.
Proof.
  unfold ListCars.
  destruct (ioutil_ReadDir fs (filepath_Join ["content"; "cars"])) as [carFiles| |];
    simpl; try discriminate.
  destruct (ListTyres fs) as [tyres| |]; simpl; try discriminate.
  destruct (ListCars_loop fs tyres carFiles []) as [loaded| |] eqn:Hloop;
    simpl; try discriminate.
  intros [= <-] Hin. exists tyres.
  destruct (ListCars_loop_loaded _ _ _ _ _ Hloop) as (l & -> & Hall).
  simpl in Hin. rewrite List.Forall_forall in Hall. apply Hall.
  eapply Permutation_in; [|exact Hin].
  symmetry. apply sort_Slice_Permutation.
Qed.

Lemma ListCars_skips_without_skins (fs : node) (cars : list Car) (name : string) :
  ListCars fs = Ok cars ->
  walk (skinsDirectory name) fs = Err ENOENT ->
  ~ In name (List.map car_Name cars).
Proof.
  intros Hlist Habsent Hin. apply List.in_map_iff in Hin as (car & <- & Hin).
  destruct (ListCars_listed_loads _ _ _ Hlist Hin) as (tyres & Hload).
  rewrite (LoadCar_skins_absent _ _ tyres Habsent) in Hload. discriminate.
Qed.


(** ** Deleting *)

Lemma DeleteCar_loop_absent (d : Disk) (carName : string) (existingCars : list Car) :
  ~ In carName (List.map car_Name existingCars) ->
  DeleteCar_loop d carName existingCars = (d, Ok tt).
Proof.
  induction existingCars as [|car rest IH]; simpl; [reflexivity|].
  intros Hnot. destruct (String.eqb (car_Name car) carName) eqn:E; simpl.
  - apply String.eqb_eq in E. exfalso. apply Hnot. now left.
  - apply IH. intros Hin. apply Hnot. now right.
Qed.

Lemma DeleteCar_loop_present (d : Disk) (carName : string) (existingCars : list Car) :
  In carName (List.map car_Name existingCars) ->
  DeleteCar_loop d carName existingCars = os_RemoveAll d (carDirectory carName).
Proof.
  induction existingCars as [|car rest IH]; simpl; [intros []|].
  intros Hin. destruct (String.eqb (car_Name car) carName) eqn:E; simpl.
  - reflexivity.
  - apply String.eqb_neq in E. apply IH. destruct Hin as [Heq|Hin]; [congruence|exact Hin].
Qed.

Lemma eqb_EmptyString_false (name : string) :
  name <> EmptyString -> String.eqb name EmptyString = false.
Proof. intros Hne. now apply String.eqb_neq. Qed.

Lemma DeIndexCar_open (w : World) (i : Index) (name : string) :
  name <> EmptyString ->
  carIndex w = Some i -> opened i = true ->
  DeIndexCar w name =
    (mkWorld (disk w) (Some (mkIndex (delete name (docs i)) true)), Ok tt).
Proof.
  intros Hne Hi Hopen. unfold DeIndexCar, bleve_Delete.
  now rewrite Hi, (eqb_EmptyString_false _ Hne), Hopen.
Qed.

(** The empty id is refused, whether the index is open or not, and nothing
    is changed. *)
Lemma DeIndexCar_EmptyString (w : World) (i : Index) :
  carIndex w = Some i ->
  DeIndexCar w EmptyString = (w, Err ErrorEmptyID).
Proof.
  intros Hi. unfold DeIndexCar, bleve_Delete. rewrite Hi.
  destruct w as [d ci]. simpl in *. now subst ci.
Qed.

Lemma DeleteCar_unlisted (w : World) (carName : string) (existingCars : list Car) :
  ListCars (root (disk w)) = Ok existingCars ->
  ~ In carName (List.map car_Name existingCars) ->
  DeleteCar w carName = DeIndexCar w carName.
Proof.
  intros Hlist Habsent. unfold DeleteCar.
  rewrite Hlist, (DeleteCar_loop_absent _ _ _ Habsent). now destruct w.
Qed.

Lemma DeleteCar_listed (w : World) (carName : string) (existingCars : list Car)
    (d' : Disk) :
  ListCars (root (disk w)) = Ok existingCars ->
  In carName (List.map car_Name existingCars) ->
  os_RemoveAll (disk w) (carDirectory carName) = (d', Ok tt) ->
  DeleteCar w carName = DeIndexCar (mkWorld d' (carIndex w)) carName.
Proof.
  intros Hlist Hpresent Hrm. unfold DeleteCar.
  now rewrite Hlist, (DeleteCar_loop_present _ _ _ Hpresent), Hrm.
Qed.

(** C2. Once the listing is made and with the index open, [DeleteCar] of
    a name that is not empty (the empty string names no car, and the index
    refuses it as an id) always removes the index entry: when the name is
    not in the listing the disk stays as it is and the call succeeds with
    the entry deleted; when it is in the listing and its tree is removed,
    the entry is deleted all the same. *)
Theorem DeleteCar_always_deindexes (w : World) (carName : string)
    (existingCars : list Car) (i : Index) :
  carName <> EmptyString ->
  ListCars (root (disk w)) = Ok existingCars ->
  carIndex w = Some i ->
  opened i = true ->
  (~ In carName (List.map car_Name existingCars) ->
   DeleteCar w carName =
     (mkWorld (disk w) (Some (mkIndex (delete carName (docs i)) true)), Ok tt)) /\
  (forall d',
     In carName (List.map car_Name existingCars) ->
     os_RemoveAll (disk w) (carDirectory carName) = (d', Ok tt) ->
     DeleteCar w carName =
       (mkWorld d' (Some (mkIndex (delete carName (docs i)) true)), Ok tt)).
Proof.
  intros Hne Hlist Hi Hopen. split.
  - intros Habsent. rewrite (DeleteCar_unlisted _ _ _ Hlist Habsent).
    now apply DeIndexCar_open.
  - intros d' Hpresent Hrm. rewrite (DeleteCar_listed _ _ _ _ Hlist Hpresent Hrm).
    now apply DeIndexCar_open.
Qed.

(** The empty name: it is refused as an id, so with the listing made and
    no car of that name in it [DeleteCar] returns [ErrorEmptyID] and
    changes neither the disk nor the index, open or closed. *)
Lemma DeleteCar_EmptyString (w : World) (existingCars : list Car) (i : Index) :
  ListCars (root (disk w)) = Ok existingCars ->
  ~ In EmptyString (List.map car_Name existingCars) ->
  carIndex w = Some i ->
  DeleteCar w EmptyString = (w, Err ErrorEmptyID).
Proof.
  intros Hlist Habsent Hi. rewrite (DeleteCar_unlisted _ _ _ Hlist Habsent).
  now apply (DeIndexCar_EmptyString _ i).
Qed.

(** C10. A car directory without a skins directory is not in the listing,
    so [DeleteCar] never reaches the removal: for a name that is not empty,
    with the listing made and the index open, the disk is returned as it
    was, the directory still on it, the index entry is deleted, and there
    is no error. *)
Theorem DeleteCar_without_skins_keeps_directory (w : World) (carName : string)
    (existingCars : list Car) (i : Index) (entries : gmap string node) :
  carName <> EmptyString ->
  ListCars (root (disk w)) = Ok existingCars ->
  carIndex w = Some i ->
  opened i = true ->
  walk (carDirectory carName) (root (disk w)) = Ok (Dir entries) ->
  entries !! "skins" = None ->
  exists w',
    DeleteCar w carName = (w', Ok tt) /\
    disk w' = disk w /\
    walk (carDirectory carName) (root (disk w')) = Ok (Dir entries) /\
    exists i', carIndex w' = Some i' /\ docs i' = delete carName (docs i).
Proof.
  intros Hne Hlist Hi Hopen Hdir Hskins.
  assert (Habsent : walk (skinsDirectory carName) (root (disk w)) = Err ENOENT).
  { rewrite skinsDirectory_eq, walk_app, Hdir. simpl. now rewrite Hskins. }
  pose proof (ListCars_skips_without_skins _ _ _ Hlist Habsent) as Hnot.
  rewrite (DeleteCar_unlisted _ _ _ Hlist Hnot), (DeIndexCar_open _ _ _ Hne Hi Hopen).
  eexists. split; [reflexivity|]. simpl. split; [reflexivity|].
  split; [exact Hdir|]. eexists. split; reflexivity.
Qed.

(** ** Searching *)

Lemma Search_loop_stale (fs : node) (hits : list string) (hit : string) :
  In hit hits -> is_Ok (LoadCar fs hit ∅) = false ->
  forall cars, is_Ok (Search_loop fs hits cars) = false.
Proof.
  induction hits as [|h rest IH]; simpl; [intros []|].
  intros [->|Hin] Hstale cars.
  - destruct (LoadCar fs hit ∅); [discriminate|reflexivity|reflexivity].
  - destruct (LoadCar fs h ∅); simpl; [now apply IH|reflexivity|reflexivity].
Qed.

Lemma Search_loop_no_panic (fs : node) (hits : list string) :
  (forall h, In h hits -> LoadCar fs h ∅ <> Panic) ->
  forall cars, Search_loop fs hits cars <> Panic.
Proof.
  induction hits as [|h rest IH]; simpl; intros Hall cars; [discriminate|].
  pose proof (Hall h (or_introl eq_refl)) as Hh.
  destruct (LoadCar fs h ∅); simpl; [|discriminate|congruence].
  apply IH. intros h' Hin. apply Hall. now right.
Qed.

(** C8. When the page of hits the index answers with holds an id that
    [LoadCar] cannot load, [Search] returns neither results nor cars; and
    unless a load panics, what it returns is an error. *)
Theorem Search_fails_on_stale_hit (w : World) (ctx : context_Context)
    (term : string) (from : Z) (i : Index) (results : SearchResult) (hit : string) :
  carIndex w = Some i ->
  opened i = true ->
  bleve_SearchInContext (docs i) ctx
    (if String.eqb term EmptyString then MatchAllQuery else QueryStringQuery term)
    searchPageSize from = Ok results ->
  In hit (Hits results) ->
  is_Ok (LoadCar (root (disk w)) hit ∅) = false ->
  (forall r, Search w ctx term from <> Ok r) /\
  ((forall h, In h (Hits results) -> LoadCar (root (disk w)) h ∅ <> Panic) ->
   exists err, Search w ctx term from = Err err).
Proof.
  intros Hi Hopen Hsearch Hin Hstale.
  pose proof (Search_loop_stale _ _ _ Hin Hstale ∅) as Hloop.
  unfold Search. rewrite Hi, Hopen, Hsearch. simpl. split.
  - intros r. destruct (Search_loop (root (disk w)) (Hits results) ∅);
      simpl; discriminate.
  - intros Hnp. pose proof (Search_loop_no_panic _ _ Hnp ∅) as Hne.
    destruct (Search_loop (root (disk w)) (Hits results) ∅) as [cars|err|];
      simpl; [discriminate|eauto|congruence].
Qed.

(** ** Saving, tags and the index *)

Lemma CarDetails_AddTag_frame (cd : CarDetails) (name : string) :
  same_except_Tags cd (CarDetails_AddTag cd name).
Proof.
  unfold CarDetails_AddTag, same_except_Tags.
  destruct (hasTag (Tags cd) name); simpl; repeat split.
Qed.

Lemma CarDetails_DelTag_frame (cd : CarDetails) (name : string) :
  same_except_Tags cd (CarDetails_DelTag cd name).
Proof.
  unfold CarDetails_DelTag, same_except_Tags.
  destruct (Z.eqb (deleteIndex_from 0 (-1) (Tags cd) name) (-1)); simpl; repeat split.
Qed.

Lemma CarDetails_Save_persists (cd : CarDetails) (d d' : Disk) (carName : string) :
  CarDetails_Save cd d carName = (d', Ok tt) ->
  exists bytes,
    json_Encode cd = Ok bytes /\
    ioutil_ReadFile (root d') (detailsFile carName) = Ok bytes.
Proof.
  unfold CarDetails_Save. rewrite detailsFile_eq.
  destruct (os_MkdirAll d (uiDirectory carName)) as [d1 [[]|e|]]; try discriminate.
  destruct (os_Create d1 (detailsFile carName)) as [d2 [[]|e|]]; try discriminate.
  destruct (json_Encode cd) as [bytes|e|]; try discriminate.
  intros Hw. exists bytes. split; [reflexivity|].
  now apply write_file_read in Hw.
Qed.

Lemma IndexCar_ok (w w' : World) (car : Car) :
  IndexCar w car = (w', Ok tt) ->
  disk w' = disk w /\
  exists i i',
    carIndex w = Some i /\ carIndex w' = Some i' /\
    docs i' = <[car_Name car := car_Details car]> (docs i).
Proof.
  unfold IndexCar, bleve_Index.
  destruct (carIndex w) as [i|]; [|discriminate].
  destruct (String.eqb (car_Name car) EmptyString); [discriminate|].
  destruct (opened i) eqn:Hopen; [|discriminate].
  intros [= <-]. simpl. split; [reflexivity|]. exists i. eexists.
  repeat split; reflexivity.
Qed.

(** [SaveCarDetails] does what its comment says: when it succeeds the file
    holds the encoded details and the index holds them under the car's
    name. *)
Lemma SaveCarDetails_saves_and_indexes (w w' : World) (carName : string) (car : Car) :
  SaveCarDetails w carName car = (w', Ok tt) ->
  (exists bytes,
     json_Encode (car_Details car) = Ok bytes /\
     ioutil_ReadFile (root (disk w')) (detailsFile carName) = Ok bytes) /\
  (exists i i',
     carIndex w = Some i /\ carIndex w' = Some i' /\
     docs i' = <[car_Name car := car_Details car]> (docs i)).
Proof.
  unfold SaveCarDetails.
  destruct (CarDetails_Save (car_Details car) (disk w) carName) as [d [[]|e|]] eqn:Hsave;
    try discriminate.
  intros Hidx. apply IndexCar_ok in Hidx as (Hdisk & Hdocs). simpl in *.
  rewrite Hdisk. split; [now apply (CarDetails_Save_persists _ _ _ _ Hsave)|exact Hdocs].
Qed.

Lemma AddTag_saves (w : World) (carName tag : string) (car : Car) :
  LoadCar (root (disk w)) carName ∅ = Ok car ->
  AddTag w carName tag =
    SaveCarDetails w carName
      (with_Details car (CarDetails_AddTag (car_Details car) tag)).
Proof. intros H. unfold AddTag. now rewrite H. Qed.

Lemma DelTag_saves (w : World) (carName tag : string) (car : Car) :
  LoadCar (root (disk w)) carName ∅ = Ok car ->
  DelTag w carName tag =
    SaveCarDetails w carName
      (with_Details car (CarDetails_DelTag (car_Details car) tag)).
Proof. intros H. unfold DelTag. now rewrite H. Qed.

(** The sibling operations index what they save. *)
Lemma AddTag_indexes (w w' : World) (carName tag : string) :
  AddTag w carName tag = (w', Ok tt) ->
  exists car i',
    LoadCar (root (disk w)) carName ∅ = Ok car /\
    carIndex w' = Some i' /\
    docs i' !! carName = Some (CarDetails_AddTag (car_Details car) tag).
Proof.
  destruct (LoadCar (root (disk w)) carName ∅) as [car|e|] eqn:Hload;
    try (unfold AddTag; rewrite Hload; discriminate).
  rewrite (AddTag_saves _ _ _ _ Hload). intros Hsave.
  apply SaveCarDetails_saves_and_indexes in Hsave as (_ & i & i' & _ & Hi' & Hdocs).
  exists car, i'. repeat split; [exact Hi'|].
  rewrite Hdocs. simpl. rewrite (LoadCar_Name _ _ _ _ Hload).
  apply lookup_insert_eq.
Qed.

Lemma DelTag_indexes (w w' : World) (carName tag : string) :
  DelTag w carName tag = (w', Ok tt) ->
  exists car i',
    LoadCar (root (disk w)) carName ∅ = Ok car /\
    carIndex w' = Some i' /\
    docs i' !! carName = Some (CarDetails_DelTag (car_Details car) tag).
Proof.
  destruct (LoadCar (root (disk w)) carName ∅) as [car|e|] eqn:Hload;
    try (unfold DelTag; rewrite Hload; discriminate).
  rewrite (DelTag_saves _ _ _ _ Hload). intros Hsave.
  apply SaveCarDetails_saves_and_indexes in Hsave as (_ & i & i' & _ & Hi' & Hdocs).
  exists car, i'. repeat split; [exact Hi'|].
  rewrite Hdocs. simpl. rewrite (LoadCar_Name _ _ _ _ Hload).
  apply lookup_insert_eq.
Qed.

(** C9. [AddTag] and [DelTag] of the manager write back the details they
    loaded with at most the tags changed: when the call succeeds, the
    metadata file holds the encoding of details that agree with the loaded
    ones on every field other than [Tags]. *)
Theorem tag_operations_keep_other_fields (w : World) (carName tag : string)
    (car : Car) :
  LoadCar (root (disk w)) carName ∅ = Ok car ->
  (forall w',
     AddTag w carName tag = (w', Ok tt) ->
     exists saved bytes,
       saved = CarDetails_AddTag (car_Details car) tag /\
       same_except_Tags (car_Details car) saved /\
       json_Encode saved = Ok bytes /\
       ioutil_ReadFile (root (disk w')) (detailsFile carName) = Ok bytes) /\
  (forall w',
     DelTag w carName tag = (w', Ok tt) ->
     exists saved bytes,
       saved = CarDetails_DelTag (car_Details car) tag /\
       same_except_Tags (car_Details car) saved /\
       json_Encode saved = Ok bytes /\
       ioutil_ReadFile (root (disk w')) (detailsFile carName) = Ok bytes).
Proof.
  intros Hload. split; intros w' Hop.
  - rewrite (AddTag_saves _ _ _ _ Hload) in Hop.
    apply SaveCarDetails_saves_and_indexes in Hop as ((bytes & Henc & Hread) & _).
    exists (CarDetails_AddTag (car_Details car) tag), bytes.
    split; [reflexivity|]. split; [apply CarDetails_AddTag_frame|]. now split.
  - rewrite (DelTag_saves _ _ _ _ Hload) in Hop.
    apply SaveCarDetails_saves_and_indexes in Hop as ((bytes & Henc & Hread) & _).
    exists (CarDetails_DelTag (car_Details car) tag), bytes.
    split; [reflexivity|]. split; [apply CarDetails_DelTag_frame|]. now split.
Qed.

(** C1, where the code departs from it. [UpdateCarMetadata] saves through
    [CarDetails.Save] and not through [SaveCarDetails]: when it succeeds,
    the metadata file holds the new notes and download URL and the index is
    the one from before the call, with no put for the car. *)
Theorem UpdateCarMetadata_leaves_index (w w' : World) (carName : string)
    (form_Notes form_DownloadURL : string) :
  UpdateCarMetadata w carName form_Notes form_DownloadURL = (w', Ok tt) ->
  carIndex w' = carIndex w /\
  exists car bytes,
    LoadCar (root (disk w)) carName ∅ = Ok car /\
    json_Encode
      (set_DownloadURL (set_Notes (car_Details car) form_Notes) form_DownloadURL)
      = Ok bytes /\
    ioutil_ReadFile (root (disk w')) (detailsFile carName) = Ok bytes.
Proof.
  unfold UpdateCarMetadata.
  destruct (LoadCar (root (disk w)) carName ∅) as [car|e|] eqn:Hload;
    try discriminate.
  simpl.
  destruct (CarDetails_Save _ (disk w) carName) as [d err] eqn:Hsave.
  intros [= <- ->]. simpl. split; [reflexivity|].
  apply CarDetails_Save_persists in Hsave as (bytes & Henc & Hread).
  exists car, bytes. auto.
Qed.

(** ** Numeric normalisation *)

Lemma decimal_from_app (s t : string) :
  forall acc, decimal_from acc (s ++ t) = decimal_from (decimal_from acc s) t.
Proof. induction s as [|c s IH]; intros acc; simpl; [reflexivity|apply IH]. Qed.

(** [decimal] reads positional notation: a digit more at the end is ten
    times the number so far plus the digit. *)
Lemma decimal_snoc (s : string) (c : ascii) :
  decimal (s ++ String c EmptyString) = 10 * decimal s + digit_value c.
Proof. unfold decimal. now rewrite decimal_from_app. Qed.

Lemma FindString_skips (pre s : string) :
  no_digits pre = true ->
  keepNumericRegex_FindString (pre ++ s) = keepNumericRegex_FindString s.
Proof.
  induction pre as [|c pre IH]; simpl; [reflexivity|].
  destruct (is_digit c); simpl; [discriminate|exact IH].
Qed.

Lemma FindString_no_digits (s : string) :
  no_digits s = true -> keepNumericRegex_FindString s = EmptyString.
Proof.
  induction s as [|c s IH]; simpl; [reflexivity|].
  destruct (is_digit c); simpl; [discriminate|exact IH].
Qed.

Lemma leading_digits_run (run post : string) :
  all_digits run = true -> no_leading_digit post = true ->
  leading_digits (run ++ post) = run.
Proof.
  induction run as [|c run IH]; simpl.
  - intros _. destruct post as [|c post]; simpl; [reflexivity|].
    now destruct (is_digit c).
  - destruct (is_digit c); simpl; [|discriminate].
    intros Hrun Hpost. now rewrite IH.
Qed.

Lemma FindString_run (run post : string) :
  all_digits run = true -> run <> EmptyString -> no_leading_digit post = true ->
  keepNumericRegex_FindString (run ++ post) = run.
Proof.
  destruct run as [|c run]; [congruence|]. simpl.
  destruct (is_digit c); simpl; [|discriminate].
  intros Hrun _ Hpost. now rewrite leading_digits_run.
Qed.

Lemma formValueAsInt_digits (run : string) :
  all_digits run = true -> run <> EmptyString -> decimal run <= maxInt ->
  formValueAsInt run = decimal run.
Proof.
  intros Hrun Hne Hmax. unfold formValueAsInt.
  destruct run as [|c run]; [congruence|]. rewrite Hrun.
  now apply Z.leb_le in Hmax as ->.
Qed.

(** C4, as it holds. A string that has a digit run, the first one standing
    between a stretch without digits and a rest that does not go on with a
    digit, is normalised to the number the run denotes in base 10, provided
    the number is at most [maxInt]; a string without digits is normalised
    to 0; and the three examples come out as 450, 0 and 12. *)
Theorem toNumber_first_digit_run :
  (forall pre run post : string,
     no_digits pre = true ->
     all_digits run = true ->
     run <> EmptyString ->
     no_leading_digit post = true ->
     decimal run <= maxInt ->
     toNumber (pre ++ run ++ post) = decimal run) /\
  (forall s : string, no_digits s = true -> toNumber s = 0) /\
  toNumber "450 bhp" = 450 /\
  toNumber "N/A" = 0 /\
  toNumber "12.5s" = 12.
Proof.
  repeat split; try reflexivity.
  - intros pre run post Hpre Hrun Hne Hpost Hmax. unfold toNumber.
    rewrite (FindString_skips _ _ Hpre), (FindString_run _ _ Hrun Hne Hpost).
    now apply formValueAsInt_digits.
  - intros s Hs. unfold toNumber. now rewrite (FindString_no_digits _ Hs).
Qed.

(** ** Pages: the float64 division and its ceiling *)

Lemma Zdigits2_bounds (p : positive) :
  2 ^ (Z.pos (digits2_pos p) - 1) <= Z.pos p < 2 ^ Z.pos (digits2_pos p).
Proof.
  induction p as [p IH|p IH|]; cbn [digits2_pos]; [| |simpl; lia];
    rewrite Pos2Z.inj_succ;
    replace (Z.succ (Z.pos (digits2_pos p)) - 1) with (Z.succ (Z.pos (digits2_pos p) - 1)) by lia;
    rewrite !Z.pow_succ_r by lia; lia.
Qed.

Lemma Zdigits2_unique (q k : Z) :
  0 < k -> 2 ^ (k - 1) <= q < 2 ^ k -> Zdigits2 q = k.
Proof.
  intros Hk [Hlo Hhi].
  assert (Hq : 0 < q) by (pose proof (Z.pow_pos_nonneg 2 (k - 1)); lia).
  destruct q as [|p|p]; try lia. simpl.
  pose proof (Zdigits2_bounds p) as [Hlo' Hhi'].
  set (s := Z.pos (digits2_pos p)) in *.
  assert (Hs : 0 < s) by (unfold s; lia).
  destruct (Z.lt_trichotomy s k) as [Hlt|[Heq|Hgt]]; [|exact Heq|].
  - assert (2 ^ s <= 2 ^ (k - 1)) by (apply Z.pow_le_mono_r; lia). lia.
  - assert (2 ^ k <= 2 ^ (s - 1)) by (apply Z.pow_le_mono_r; lia). lia.
Qed.

Lemma Zpos_iter_xO (m d : positive) :
  Z.pos (Pos.iter xO m d) = Z.pos m * 2 ^ Z.pos d.
Proof.
  rewrite (Pos.iter_swap_gen _ _ Z.pos xO (Z.mul 2)) by reflexivity.
  change (Pos.iter (Z.mul 2) (Z.pos m) d) with (Z.shiftl (Z.pos m) (Z.pos d)).
  apply Z.shiftl_mul_pow2. lia.
Qed.

Lemma shr_fexp_53 (m e : Z) (l : location) :
  2 ^ 52 <= m < 2 ^ 53 -> -1074 <= e ->
  shr_fexp 53 1024 m e l = (shr_record_of_loc m l, e).
Proof.
  intros Hm He. unfold shr_fexp. rewrite (Zdigits2_unique m 53) by lia.
  unfold fexp, emin.
  replace (Z.max (53 + e - 53) (3 - 1024 - 53) - e) with 0 by lia.
  reflexivity.
Qed.

Lemma shr_fexp_54 (m e : Z) (l : location) :
  2 ^ 53 <= m < 2 ^ 54 -> -1075 <= e ->
  shr_fexp 53 1024 m e l = (shr_1 (shr_record_of_loc m l), e + 1).
Proof.
  intros Hm He. unfold shr_fexp. rewrite (Zdigits2_unique m 54) by lia.
  unfold fexp, emin.
  replace (Z.max (54 + e - 53) (3 - 1024 - 53) - e) with 1 by lia.
  reflexivity.
Qed.

(** A mantissa of 53 bits with an exponent in range is left as it is. *)
Lemma binary_round_aux_exact (s : bool) (m : positive) (e : Z) :
  2 ^ 52 <= Z.pos m < 2 ^ 53 -> -1074 <= e <= 971 ->
  binary_round_aux 53 1024 s (Z.pos m) e loc_Exact = S754_finite s m e.
Proof.
  intros Hm He. unfold binary_round_aux.
  rewrite shr_fexp_53 by lia.
  cbn [shr_m loc_of_shr_record shr_record_of_loc round_nearest_even].
  rewrite shr_fexp_53 by lia.
  cbn [shr_m shr_record_of_loc].
  replace (e <=? 1024 - 53) with true by (symmetry; apply Z.leb_le; lia).
  reflexivity.
Qed.

Lemma binary_round_small (s : bool) (t : positive) :
  Z.pos t < 2 ^ 53 ->
  exists m e,
    binary_round 53 1024 s t 0 = S754_finite s m e /\
    2 ^ 52 <= Z.pos m < 2 ^ 53 /\ -52 <= e <= 0 /\
    Z.pos m = Z.pos t * 2 ^ (- e).
Proof.
  intros Ht. unfold binary_round.
  pose proof (Zdigits2_bounds t) as [Hlo Hhi].
  set (d := Z.pos (digits2_pos t)) in *.
  assert (Hd1 : 1 <= d) by (unfold d; lia).
  assert (Hd : d <= 53).
  { destruct (Z.le_gt_cases d 53) as [H|H]; [exact H|].
    assert (2 ^ 53 <= 2 ^ (d - 1)) by (apply Z.pow_le_mono_r; lia). lia. }
  unfold fexp, emin, shl_align.
  replace (Z.max (d + 0 - 53) (3 - 1024 - 53) - 0) with (d - 53) by lia.
  replace (Z.max (d + 0 - 53) (3 - 1024 - 53)) with (d - 53) by lia.
  destruct (d - 53) as [|dd|dd] eqn:Edd; try lia.
  - assert (d = 53) by lia. exists t, 0. rewrite binary_round_aux_exact.
    + repeat split; try lia. replace (d - 1) with 52 in Hlo by lia. exact Hlo.
    + replace (d - 1) with 52 in Hlo by lia. lia.
    + lia.
  - assert (Hm : Z.pos (Pos.iter xO t dd) = Z.pos t * 2 ^ (53 - d)).
    { rewrite Zpos_iter_xO. f_equal. f_equal. lia. }
    assert (Hpow : 2 ^ (d - 1) * 2 ^ (53 - d) = 2 ^ 52).
    { rewrite <- Z.pow_add_r by lia. f_equal. lia. }
    assert (Hpow' : 2 ^ d * 2 ^ (53 - d) = 2 ^ 53).
    { rewrite <- Z.pow_add_r by lia. f_equal. lia. }
    assert (Hp : 0 < 2 ^ (53 - d)) by (apply Z.pow_pos_nonneg; lia).
    exists (Pos.iter xO t dd), (Z.neg dd).
    rewrite binary_round_aux_exact; [| rewrite Hm; nia | lia].
    repeat split; try lia; try (rewrite Hm; nia).
    rewrite Hm. f_equal. f_equal. lia.
Qed.

Lemma loc_of_shr_record_of_loc (m : Z) (l : location) :
  loc_of_shr_record (shr_record_of_loc m l) = l.
Proof. now destruct l as [|[]]. Qed.

Lemma shr_m_of_loc (m : Z) (l : location) : shr_m (shr_record_of_loc m l) = m.
Proof. now destruct l as [|[]]. Qed.

Lemma shr_1_spec (mrs : shr_record) :
  0 <= shr_m mrs ->
  shr_1 mrs =
    Build_shr_record (Z.div2 (shr_m mrs)) (Z.odd (shr_m mrs)) (shr_r mrs || shr_s mrs).
Proof.
  destruct mrs as [m rb sb]. cbn [shr_m shr_r shr_s]. intros Hm.
  destruct m as [|[p|p|]|]; try lia; reflexivity.
Qed.

(** Rounding the quotient [q] with remainder [r] of a division by [D]:
    the result is a float of the same exponent or the next one whose
    mantissa, on the scale of [q], is within half a unit of the exact
    quotient, and is the exact quotient when that is on the scale. *)
Lemma binary_round_aux_div (q r D e : Z) :
  2 ^ 52 <= q < 2 ^ 54 - 2 ->
  0 <= r < D ->
  Z.even D = true ->
  -1074 <= e <= 970 ->
  exists (mz : positive) (j : Z),
    binary_round_aux 53 1024 false q e (new_location D r) =
      S754_finite false mz (e + j) /\
    (j = 0 \/ j = 1) /\
    2 * Z.abs (D * (Z.pos mz * 2 ^ j) - (D * q + r)) <= 2 ^ j * D.
Proof.
  intros Hq Hr HD He.
  unfold new_location. rewrite HD. unfold new_location_even.
  destruct (Z.lt_ge_cases q (2 ^ 53)) as [Hsmall|Hbig].
  - (* 53 bits: no shift before rounding *)
    unfold binary_round_aux. rewrite shr_fexp_53 by lia.
    rewrite loc_of_shr_record_of_loc, shr_m_of_loc.
    set (l := if r =? 0 then loc_Exact else loc_Inexact (2 * r ?= D)).
    set (Q := round_nearest_even q l).
    assert (HQ : (Q = q /\ 2 * r <= D) \/ (Q = q + 1 /\ D <= 2 * r)).
    { unfold Q, l, round_nearest_even. destruct (r =? 0) eqn:Er.
      - apply Z.eqb_eq in Er. left. split; [reflexivity|lia].
      - destruct (Z.compare_spec (2 * r) D).
        + destruct (Z.even q); [left|right]; split; (reflexivity || lia).
        + left. split; [reflexivity|lia].
        + right. split; [reflexivity|lia]. }
    assert (Hnear : 2 * Z.abs (D * Q - (D * q + r)) <= D).
    { destruct HQ as [[-> H] | [-> H]]; [|rewrite Z.mul_add_distr_l]; lia. }
    destruct (Z.lt_ge_cases Q (2 ^ 53)) as [HQs|HQb].
    + rewrite shr_fexp_53 by lia. cbn [shr_m shr_record_of_loc].
      destruct Q as [|mz|mz] eqn:EQ; try lia.
      exists mz, 0. replace (e <=? 1024 - 53) with true by (symmetry; apply Z.leb_le; lia).
      rewrite Z.add_0_r, Z.mul_1_r. change (2 ^ 0) with 1.
      split; [reflexivity|]. split; [now left|lia].
    + assert (EQ : Q = 2 ^ 53) by lia. rewrite EQ in *.
      rewrite shr_fexp_54 by lia.
      exists (2 ^ 52)%positive, 1.
      replace (e + 1 <=? 1024 - 53) with true by (symmetry; apply Z.leb_le; lia).
      split; [reflexivity|]. split; [now right|].
      change (Z.pos (2 ^ 52) * 2 ^ 1) with (2 ^ 53). change (2 ^ 1) with 2. lia.
  - (* 54 bits: one bit is shifted out *)
    unfold binary_round_aux. rewrite shr_fexp_54 by lia.
    set (l := if r =? 0 then loc_Exact else loc_Inexact (2 * r ?= D)).
    set (mrs := shr_1 (shr_record_of_loc q l)).
    set (Q := round_nearest_even (shr_m mrs) (loc_of_shr_record mrs)).
    pose proof (Z.div2_odd q) as Hhalf.
    assert (Hparity : Z.even q = negb (Z.odd q)) by (now rewrite <- Z.negb_even, negb_involutive).
    assert (HQ : (2 * Q = q /\ Z.even q = true) \/
                 (2 * Q = q + 1) \/
                 (2 * Q = q - 1 /\ r = 0 /\ Z.even q = false)).
    { unfold Q, mrs. rewrite shr_1_spec by (rewrite shr_m_of_loc; lia).
      rewrite shr_m_of_loc. unfold l. destruct (r =? 0) eqn:Er.
      - apply Z.eqb_eq in Er.
        cbv [shr_record_of_loc shr_r shr_s shr_m orb loc_of_shr_record round_nearest_even].
        destruct (Z.odd q); cbv [Z.b2z] in Hhalf; simpl negb in Hparity.
        + destruct (Z.even (Z.div2 q)); [right; right; repeat split; auto; lia|right; left; lia].
        + left. split; [lia|auto].
      - destruct (2 * r ?= D);
          cbv [shr_record_of_loc shr_r shr_s shr_m orb loc_of_shr_record round_nearest_even];
          destruct (Z.odd q); cbv [Z.b2z] in Hhalf; simpl negb in Hparity;
          try (right; left; lia); left; (split; [lia|auto]). }
    assert (HQr : 2 ^ 52 <= Q < 2 ^ 53) by lia.
    rewrite shr_fexp_53 by lia. cbn [shr_m shr_record_of_loc].
    destruct Q as [|mz|mz] eqn:EQ; try lia.
    exists mz, 1.
    replace (e + 1 <=? 1024 - 53) with true by (symmetry; apply Z.leb_le; lia).
    split; [reflexivity|]. split; [now right|].
    change (2 ^ 1) with 2.
    destruct HQ as [[H _]|[H|[H [H0 _]]]];
      replace (Z.pos mz * 2) with (2 * Z.pos mz) by lia; rewrite H;
      rewrite ?Z.mul_add_distr_l, ?Z.mul_sub_distr_l; lia.
Qed.


Lemma int_of_float64_of_nat (c : Z) :
  0 <= c < 2 ^ 53 ->
  int_of_float64 (binary_normalize 53 1024 c 0 false) = c.
Proof.
  intros Hc. destruct c as [|cp|cp]; try lia; [reflexivity|].
  unfold binary_normalize.
  destruct (binary_round_small false cp) as (m & e & -> & Hm & He & Hme); [lia|].
  unfold int_of_float64.
  assert (Hp : 0 < 2 ^ (- e)) by (apply Z.pow_pos_nonneg; lia).
  assert (Hv : (if 0 <=? e then Z.pos m * 2 ^ e else Z.pos m / 2 ^ (- e)) = Z.pos cp).
  { destruct (0 <=? e) eqn:E.
    - apply Z.leb_le in E. assert (e = 0) by lia. subst e.
      change (2 ^ (- 0)) with 1 in Hme. change (2 ^ 0) with 1. lia.
    - rewrite Hme. apply Z.div_mul. lia. }
  rewrite Hv.
  replace (minInt <=? Z.pos cp) with true by (symmetry; apply Z.leb_le; unfold minInt; lia).
  replace (Z.pos cp <=? maxInt) with true by (symmetry; apply Z.leb_le; unfold maxInt; lia).
  reflexivity.
Qed.

Lemma float64_of_searchPageSize :
  float64_of_Z searchPageSize = S754_finite false 7036874417766400 (-47).
Proof. reflexivity. Qed.

(** The quotient of a total below 2^53 by the page size, as a float: its
    ceiling is the ceiling of the exact quotient. *)
Lemma float64_div_by_searchPageSize (t : positive) :
  Z.pos t < 2 ^ 53 ->
  exists (mz : positive) (e : Z),
    float64_div (float64_of_Z (Z.pos t)) (float64_of_Z searchPageSize) =
      S754_finite false mz e /\
    50 * (ceil_finite false mz e - 1) < Z.pos t <= 50 * ceil_finite false mz e.
Proof.
  intros Ht. rewrite float64_of_searchPageSize.
  unfold float64_of_Z, binary_normalize.
  destruct (binary_round_small false t) as (m1 & e1 & -> & Hm1 & He1 & Hme1); [lia|].
  unfold float64_div, SFdiv, SFdiv_core_binary.
  rewrite (Zdigits2_unique (Z.pos m1) 53) by lia.
  rewrite (Zdigits2_unique (Z.pos 7036874417766400) 53) by lia.
  unfold fexp, emin.
  replace (Z.min (Z.max (53 + e1 - (53 + -47) - 53) (3 - 1024 - 53)) (e1 - -47))
    with (e1 - 6) by lia.
  replace (e1 - -47 - (e1 - 6)) with 53 by lia.
  rewrite Z.shiftl_mul_pow2 by lia.
  set (D := Z.pos 7036874417766400).
  set (N := Z.pos m1 * 2 ^ 53).
  pose proof (Z_div_mod N D eq_refl) as Hdiv.
  destruct (Z.div_eucl N D) as [q r]. destruct Hdiv as [HN Hr].
  assert (Hq : 2 ^ 52 <= q < 2 ^ 54 - 2).
  { unfold N, D in *. lia. }
  cbn [xorb].
  destruct (binary_round_aux_div q r D (e1 - 6) Hq Hr eq_refl) as
    (mz & j & -> & Hj & Hnear); [lia|].
  exists mz, (e1 - 6 + j). split; [reflexivity|].
  set (W := 2 ^ (- e1)) in *.
  assert (HW : 1 <= W) by (unfold W; pose proof (Z.pow_pos_nonneg 2 (- e1)); lia).
  unfold ceil_finite.
  replace (0 <=? e1 - 6 + j) with false by (symmetry; apply Z.leb_gt; lia).
  set (P := 2 ^ (- (e1 - 6 + j))).
  assert (HP0 : 0 < P) by (apply Z.pow_pos_nonneg; lia).
  assert (HPW : P * 2 ^ j = 64 * W).
  { unfold P, W. rewrite <- Z.pow_add_r by lia.
    replace (- (e1 - 6 + j) + j) with (6 + - e1) by lia.
    rewrite Z.pow_add_r by lia. reflexivity. }
  set (c := - (- Z.pos mz / P)).
  assert (Hc : P * (c - 1) < Z.pos mz <= P * c).
  { unfold c. pose proof (Z.div_mod (- Z.pos mz) P).
    pose proof (Z.mod_pos_bound (- Z.pos mz) P HP0). lia. }
  rewrite <- HN in Hnear. unfold N, D in Hnear. rewrite Hme1 in Hnear.
  fold W in Hnear.
  destruct Hj as [-> | ->].
  - change (2 ^ 0) with 1 in *. rewrite Z.mul_1_r in *.
    assert (HTP : Z.pos t * P = 64 * (Z.pos t * W)) by lia.
    split; nia.
  - change (2 ^ 1) with 2 in *.
    assert (HTP : Z.pos t * P * 2 = 64 * (Z.pos t * W)) by lia.
    split; nia.
Qed.

(** The page count is the quotient rounded up, for every total that a
    [float64] holds exactly. *)
Lemma numPages_of_ceil (total : Z) :
  0 <= total < 2 ^ 53 ->
  50 * (numPages_of total - 1) < total <= 50 * numPages_of total.
Proof.
  intros Ht. unfold numPages_of.
  destruct total as [|t|t]; try lia; [vm_compute; split; [reflexivity|discriminate]|].
  destruct (float64_div_by_searchPageSize t) as (mz & e & -> & Hc); [lia|].
  cbn [math_Ceil]. rewrite int_of_float64_of_nat; [exact Hc|lia].
Qed.

Lemma wrap_int_in_range (x : Z) : minInt <= x <= maxInt -> wrap_int x = x.
Proof.
  unfold wrap_int, minInt, maxInt. intros Hx.
  rewrite Z.mod_small by lia. lia.
Qed.

(** C7, as it holds. For a page number [p] whose product with the page
    size is an [int], the list handler queries the index with page size 50
    and offset [p * 50]; for a total below 2^53 the number of pages it
    reports is the total divided by 50 and rounded up; and 125 hits make 3
    pages. *)
Theorem list_pagination (w : World) (ctx : context_Context)
    (query_q query_page : string) (lp : listPage) :
  minInt <= formValueAsInt query_page * 50 <= maxInt ->
  CarsHandler_list w ctx query_q query_page = Ok lp ->
  (exists i,
     carIndex w = Some i /\
     bleve_SearchInContext (docs i) ctx
       (if String.eqb query_q EmptyString then MatchAllQuery
        else QueryStringQuery query_q)
       50 (formValueAsInt query_page * 50) = Ok (lp_Results lp)) /\
  lp_CurrentPage lp = formValueAsInt query_page /\
  (0 <= Total (lp_Results lp) < 2 ^ 53 ->
   50 * (lp_NumPages lp - 1) < Total (lp_Results lp) <= 50 * lp_NumPages lp) /\
  numPages_of 125 = 3.
Proof.
  intros Hpage. unfold CarsHandler_list, list_offset, searchPageSize.
  rewrite (wrap_int_in_range _ Hpage). unfold Search.
  destruct (carIndex w) as [i|]; [|discriminate].
  destruct (opened i); [|discriminate].
  destruct (bleve_SearchInContext _ _ _ _ _) as [results| |] eqn:Hsearch;
    try discriminate.
  simpl.
  destruct (Search_loop (root (disk w)) (Hits results) ∅) as [cars| |];
    try discriminate.
  simpl. intros [= <-]. simpl.
  split; [exists i; split; [reflexivity|exact Hsearch]|].
  split; [reflexivity|]. split; [apply numPages_of_ceil|reflexivity].
Qed.

(** ** Tags, on their own *)

Lemma Tags_set_Tags (cd : CarDetails) (tags : list string) :
  Tags (set_Tags cd tags) = tags.
Proof. reflexivity. Qed.

Lemma hasTag_In (tags : list string) (name : string) :
  hasTag tags name = true <-> In name tags.
Proof.
  induction tags as [|tag rest IH]; simpl; [split; [discriminate|intros []]|].
  destruct (String.eqb tag name) eqn:E.
  - apply String.eqb_eq in E. split; auto.
  - apply String.eqb_neq in E. rewrite IH. split; [auto|intros [H|H]; [congruence|exact H]].
Qed.

Lemma hasTag_not_In (tags : list string) (name : string) :
  hasTag tags name = false <-> ~ In name tags.
Proof.
  rewrite <- hasTag_In. destruct (hasTag tags name); split; congruence.
Qed.

Lemma CarDetails_AddTag_In (cd : CarDetails) (name : string) :
  In name (Tags (CarDetails_AddTag cd name)).
Proof.
  unfold CarDetails_AddTag. destruct (hasTag (Tags cd) name) eqn:E.
  - now apply hasTag_In.
  - rewrite ?Tags_set_Tags. apply List.in_or_app. right. now left.
Qed.

Lemma CarDetails_AddTag_twice (cd : CarDetails) (name : string) :
  CarDetails_AddTag (CarDetails_AddTag cd name) name = CarDetails_AddTag cd name.
Proof.
  pose proof (CarDetails_AddTag_In cd name) as Hin. apply hasTag_In in Hin.
  unfold CarDetails_AddTag at 1. now rewrite Hin.
Qed.

(** [AddTag] treats the tags as a set: afterwards the tag is there, no
    other tag has come or gone, a list without duplicates stays one, and
    adding the tag again changes nothing. *)
Theorem CarDetails_AddTag_inserts (cd : CarDetails) (name : string) :
  In name (Tags (CarDetails_AddTag cd name)) /\
  (forall t, In t (Tags (CarDetails_AddTag cd name)) <-> In t (Tags cd) \/ t = name) /\
  (List.NoDup (Tags cd) -> List.NoDup (Tags (CarDetails_AddTag cd name))) /\
  CarDetails_AddTag (CarDetails_AddTag cd name) name = CarDetails_AddTag cd name.
Proof.
  split; [apply CarDetails_AddTag_In|].
  split; [|split; [|apply CarDetails_AddTag_twice]].
  - intros t. unfold CarDetails_AddTag. destruct (hasTag (Tags cd) name) eqn:E.
    + apply hasTag_In in E. split; [auto|]. intros [H| ->]; assumption.
    + rewrite ?Tags_set_Tags. split.
      * intros H. apply List.in_app_or in H as [H|[H|[]]]; auto.
      * intros [H| ->]; apply List.in_or_app; [now left|right; now left].
  - intros Hnd. unfold CarDetails_AddTag.
    destruct (hasTag (Tags cd) name) eqn:E; [exact Hnd|].
    apply hasTag_not_In in E. rewrite ?Tags_set_Tags.
    apply List.NoDup_app; [exact Hnd|repeat constructor; intros []|].
    intros t Ht [<-|[]]. contradiction.
Qed.

Lemma deleteIndex_from_absent (tags : list string) (name : string) :
  ~ In name tags ->
  forall index deleteIndex, deleteIndex_from index deleteIndex tags name = deleteIndex.
Proof.
  induction tags as [|tag rest IH]; intros Hnot index deleteIndex; simpl; [reflexivity|].
  destruct (String.eqb tag name) eqn:E.
  - apply String.eqb_eq in E. exfalso. apply Hnot. now left.
  - apply IH. intros H. apply Hnot. now right.
Qed.

Lemma deleteIndex_from_last (pre post : list string) (name : string) :
  ~ In name post ->
  forall index deleteIndex,
    deleteIndex_from index deleteIndex (pre ++ name :: post) name =
      index + Z.of_nat (length pre).
Proof.
  intros Hpost. induction pre as [|tag pre IH]; intros index deleteIndex.
  - simpl. rewrite String.eqb_refl, (deleteIndex_from_absent _ _ Hpost). lia.
  - cbn [app deleteIndex_from length]. rewrite IH. lia.
Qed.

(** [DelTag] takes out one occurrence of the tag, the last one: a tag that
    is not there leaves the details as they are; otherwise the tags before
    and after the last occurrence are kept in order; and from tags without
    duplicates the tag is gone. *)
Theorem CarDetails_DelTag_removes_last (cd : CarDetails) (name : string) :
  (~ In name (Tags cd) -> CarDetails_DelTag cd name = cd) /\
  (forall pre post,
     Tags cd = (pre ++ name :: post)%list -> ~ In name post ->
     Tags (CarDetails_DelTag cd name) = (pre ++ post)%list) /\
  (List.NoDup (Tags cd) ->
   ~ In name (Tags (CarDetails_DelTag cd name)) /\
   List.NoDup (Tags (CarDetails_DelTag cd name))).
Proof.
  assert (Hlast : forall pre post,
             Tags cd = (pre ++ name :: post)%list -> ~ In name post ->
             Tags (CarDetails_DelTag cd name) = (pre ++ post)%list).
  { intros pre post Htags Hpost. unfold CarDetails_DelTag.
    rewrite Htags, (deleteIndex_from_last _ _ _ Hpost).
    replace (Z.eqb (0 + Z.of_nat (length pre)) (-1)) with false
      by (symmetry; apply Z.eqb_neq; lia).
    rewrite ?Tags_set_Tags.
    replace (Z.to_nat (0 + Z.of_nat (length pre))) with (length pre) by lia.
    replace (Z.to_nat (0 + Z.of_nat (length pre) + 1)) with (S (length pre)) by lia.
    rewrite List.firstn_app, Nat.sub_diag, List.firstn_all. cbn [firstn].
    rewrite List.app_nil_r. f_equal.
    replace (S (length pre)) with (length (pre ++ [name])%list)
      by (rewrite List.length_app; simpl; lia).
    replace (pre ++ name :: post)%list with ((pre ++ [name]) ++ post)%list
      by (now rewrite <- List.app_assoc).
    rewrite List.skipn_app, List.skipn_all, Nat.sub_diag. reflexivity. }
  split; [|split; [exact Hlast|]].
  - intros Hnot. unfold CarDetails_DelTag.
    now rewrite (deleteIndex_from_absent _ _ Hnot).
  - intros Hnd. destruct (List.in_dec String.string_dec name (Tags cd)) as [Hin|Hnot].
    + apply List.in_split in Hin as (pre & post & Htags).
      rewrite Htags in Hnd. pose proof (List.NoDup_remove _ _ _ Hnd) as [Hnd' Hnotin].
      assert (Hpost : ~ In name post).
      { intros H. apply Hnotin, List.in_or_app. now right. }
      rewrite (Hlast pre post Htags Hpost). split; assumption.
    + unfold CarDetails_DelTag. rewrite (deleteIndex_from_absent _ _ Hnot).
      simpl. split; assumption.
Qed.

(** Deleting a tag that was just added to details without it gives the
    details back with their tags in a slice that is not nil: the very
    details when their slice was not nil, and otherwise details that
    differ from them in having an empty slice where the nil one was. *)
Theorem CarDetails_DelTag_AddTag (cd : CarDetails) (name : string) :
  ~ In name (Tags cd) ->
  CarDetails_DelTag (CarDetails_AddTag cd name) name = set_Tags cd (Tags cd) /\
  (Tags_slice cd <> None ->
   CarDetails_DelTag (CarDetails_AddTag cd name) name = cd) /\
  (Tags_slice cd = None ->
   Tags_slice (CarDetails_DelTag (CarDetails_AddTag cd name) name) = Some [] /\
   CarDetails_DelTag (CarDetails_AddTag cd name) name <> cd).
Proof.
  intros Hnot.
  assert (Heq : CarDetails_DelTag (CarDetails_AddTag cd name) name =
                set_Tags cd (Tags cd)).
  { unfold CarDetails_AddTag.
    apply hasTag_not_In in Hnot as E. rewrite E.
    unfold CarDetails_DelTag. rewrite ?Tags_set_Tags.
    replace (Tags cd ++ [name])%list with (Tags cd ++ name :: [])%list by reflexivity.
    rewrite (deleteIndex_from_last (Tags cd) [] name (fun H => H)).
    replace (Z.eqb (0 + Z.of_nat (length (Tags cd))) (-1)) with false
      by (symmetry; apply Z.eqb_neq; lia).
    replace (Z.to_nat (0 + Z.of_nat (length (Tags cd)))) with (length (Tags cd)) by lia.
    replace (Z.to_nat (0 + Z.of_nat (length (Tags cd)) + 1))
      with (S (length (Tags cd))) by lia.
    rewrite List.firstn_app, Nat.sub_diag, List.firstn_all. cbn [firstn].
    rewrite List.skipn_all2 by (rewrite List.length_app; simpl; lia).
    rewrite !List.app_nil_r. reflexivity. }
  rewrite Heq. split; [reflexivity|]. split.
  - intros Hslice. destruct cd as [? ? ? ? ? ? ? ? ? [tags|] ? ? ? ? ? ?];
      [reflexivity|contradiction].
  - intros Hnil. split.
    + unfold Tags. now rewrite Hnil.
    + intros H. apply (f_equal Tags_slice) in H. simpl in H. congruence.
Qed.

(** ** The tree under removal, creation and writing *)

Lemma walk_remove_at_same (path : list string) :
  path <> [] -> forall n, walk path (remove_at path n) = Err ENOENT \/
                          walk path (remove_at path n) = Err ENOTDIR.
Proof.
  induction path as [|x rest IH]; [congruence|]. intros _ n.
  destruct n as [data|entries]; [right; reflexivity|].
  destruct rest as [|y rest].
  - left. cbn. now rewrite lookup_delete_eq.
  - cbn [remove_at]. destruct (entries !! x) as [child|] eqn:E.
    + cbn [walk]. rewrite lookup_insert_eq. apply IH. discriminate.
    + left. cbn [walk]. now rewrite E.
Qed.

Lemma walk_remove_at_gone (path : list string) (n m : node) :
  path <> [] -> walk path n = Ok m -> walk path (remove_at path n) = Err ENOENT.
Proof.
  revert n. induction path as [|x rest IH]; [congruence|]. intros n _.
  destruct n as [data|entries]; [discriminate|].
  destruct rest as [|y rest].
  - intros _. cbn. now rewrite lookup_delete_eq.
  - cbn [walk remove_at]. destruct (entries !! x) as [child|] eqn:E; [|discriminate].
    intros Hw. rewrite lookup_insert_eq. apply IH; [discriminate|exact Hw].
Qed.


Lemma write_at_deep (x : string) (rest : list string) (data : list byte)
    (entries : gmap string node) :
  rest <> [] ->
  write_at (x :: rest) data (Dir entries) =
    match entries !! x with
    | Some child => child' ← write_at rest data child; Ok (Dir (<[x := child']> entries))
    | None => Err ENOENT
    end.
Proof. destruct rest; [congruence|reflexivity]. Qed.


Lemma walk_write_at_apart (common : list string) (a b : string) (p q : list string)
    (data : list byte) :
  a <> b ->
  forall n n',
    write_at (common ++ a :: p) data n = Ok n' ->
    walk (common ++ b :: q) n' = walk (common ++ b :: q) n.
Proof.
  intros Hab. induction common as [|x common IH]; intros n n'.
  - cbn [app]. destruct n as [d|entries]; [discriminate|].
    cbn [write_at]. destruct p as [|y p].
    + destruct (entries !! a) as [[d|es]|]; try discriminate;
        intros [= <-]; cbn [walk]; now rewrite lookup_insert_ne.
    + destruct (entries !! a) as [child|]; [|discriminate].
      destruct (write_at (y :: p) data child) as [child'| |]; try discriminate.
      intros [= <-]. cbn [walk]. now rewrite lookup_insert_ne.
  - cbn [app]. destruct n as [d|entries]; [discriminate|].
    rewrite write_at_deep by (now destruct common).
    destruct (entries !! x) as [child|] eqn:E; [|discriminate].
    destruct (write_at (common ++ a :: p) data child) as [child'| |] eqn:Ew;
      try discriminate.
    intros [= <-]. cbn [walk]. rewrite lookup_insert_eq, E.
    now apply (IH child).
Qed.

(** Making directories changes nothing that was reachable before. *)
Lemma walk_mkdir_all_kept (path : list string) :
  forall n n' q m,
    mkdir_all path n = Ok n' ->
    walk q n = Ok m ->
    (exists k, walk q n' = Ok k /\ is_dir k = is_dir m /\
               (is_dir m = false -> k = m)).
Proof.
  induction path as [|x rest IH]; intros n n' q m.
  - simpl. destruct n; [discriminate|]. intros [= <-] Hq. eauto.
  - cbn [mkdir_all]. destruct n as [d|entries]; [discriminate|].
    destruct (mkdir_all rest (default (Dir ∅) (entries !! x))) as [child| |] eqn:Em;
      try discriminate.
    intros [= <-]. destruct q as [|y q].
    + simpl. intros [= <-]. eexists. split; [reflexivity|]. split; [reflexivity|].
      discriminate.
    + cbn [walk]. destruct (entries !! y) as [c|] eqn:Ey; [|discriminate].
      intros Hq. destruct (decide (x = y)) as [->|Hne].
      * rewrite lookup_insert_eq. rewrite Ey in Em. simpl in Em.
        apply (IH _ _ _ _ Em Hq).
      * rewrite lookup_insert_ne by exact Hne. rewrite Ey. eauto.
Qed.

(** ** What [ioutil.ReadDir] lists *)

Lemma In_sort_Slice {A : Type} (less : A -> A -> bool) (l : list A) (x : A) :
  In x (sort_Slice less l) <-> In x l.
Proof.
  split; apply Permutation_in;
    [symmetry|]; apply sort_Slice_Permutation.
Qed.

Lemma ReadDir_inv (fs : node) (dirname : list string) (files : list FileInfo) :
  ioutil_ReadDir fs dirname = Ok files ->
  exists entries,
    walk dirname fs = Ok (Dir entries) /\
    files = sort_Slice (fun a b => String.ltb (fi_Name a) (fi_Name b))
              (List.map (fun kv => mkFileInfo (fst kv) (is_dir (snd kv)))
                 (map_to_list entries)).
Proof.
  unfold ioutil_ReadDir.
  destruct (walk dirname fs) as [[data|entries]| |]; simpl; try discriminate.
  intros [= <-]. eauto.
Qed.

Lemma ReadDir_In (fs : node) (dirname : list string) (files : list FileInfo)
    (entries : gmap string node) :
  walk dirname fs = Ok (Dir entries) ->
  ioutil_ReadDir fs dirname = Ok files ->
  forall name isdir,
    In (mkFileInfo name isdir) files <->
    exists n, entries !! name = Some n /\ isdir = is_dir n.
Proof.
  intros Hw Hr. apply ReadDir_inv in Hr as (entries' & Hw' & ->).
  rewrite Hw in Hw'. injection Hw' as <-.
  intros name isdir. rewrite In_sort_Slice, List.in_map_iff. split.
  - intros ([k n] & [= <- <-] & Hin). exists n. split; [|reflexivity].
    apply list_elem_of_In in Hin. now apply elem_of_map_to_list in Hin.
  - intros (n & Hn & ->). exists (name, n). split; [reflexivity|].
    apply list_elem_of_In. now apply elem_of_map_to_list.
Qed.

Lemma ReadDir_NoDup (fs : node) (dirname : list string) (files : list FileInfo) :
  ioutil_ReadDir fs dirname = Ok files -> List.NoDup (List.map fi_Name files).
Proof.
  intros Hr. apply ReadDir_inv in Hr as (entries & _ & ->).
  eapply Permutation_NoDup.
  - apply Permutation_map. apply sort_Slice_Permutation.
  - rewrite List.map_map. simpl. apply NoDup_ListNoDup.
    apply (NoDup_fst_map_to_list entries).
Qed.

Lemma ReadDir_sorted (fs : node) (dirname : list string) (files : list FileInfo) :
  ioutil_ReadDir fs dirname = Ok files ->
  StronglySorted (fun a b => String.leb (fi_Name a) (fi_Name b) = true) files.
Proof.
  intros Hr. apply ReadDir_inv in Hr as (entries & _ & ->).
  apply (sort_Slice_sorted fi_Name).
Qed.

Lemma NoDup_map_filter {A B : Type} (f : A -> B) (p : A -> bool) (l : list A) :
  List.NoDup (List.map f l) -> List.NoDup (List.map f (List.filter p l)).
Proof.
  induction l as [|x l IH]; simpl; [auto|].
  intros Hnd. apply List.NoDup_cons_iff in Hnd as [Hx Hnd].
  destruct (p x); simpl; [|auto].
  constructor; [|auto]. intros Hin. apply Hx.
  apply List.in_map_iff in Hin as (y & Hy & Hin).
  apply List.filter_In in Hin as [Hin _].
  apply List.in_map_iff. eauto.
Qed.

Lemma StronglySorted_map_filter {A : Type} (key : A -> string) (p : A -> bool)
    (l : list A) :
  StronglySorted (fun a b => String.leb (key a) (key b) = true) l ->
  StronglySorted (fun a b => String.leb a b = true) (List.map key (List.filter p l)).
Proof.
  induction 1 as [|x l Hl IH Hx]; simpl; [constructor|].
  destruct (p x); simpl; [|exact IH].
  constructor; [exact IH|].
  apply List.Forall_forall. intros k Hk.
  apply List.in_map_iff in Hk as (y & <- & Hy).
  apply List.filter_In in Hy as [Hy _].
  rewrite List.Forall_forall in Hx. now apply Hx.
Qed.

(** ** More on loading *)

Lemma LoadCar_inv (fs : node) (name : string) (tyres : Tyres) (car : Car) :
  LoadCar fs name tyres = Ok car ->
  exists skinFiles,
    ioutil_ReadDir fs (skinsDirectory name) = Ok skinFiles /\
    car_Name car = name /\
    car_Skins car = List.map fi_Name (List.filter fi_IsDir skinFiles) /\
    car_Tyres car = default ∅ (tyres !! name).
Proof.
  unfold LoadCar.
  destruct (ioutil_ReadDir fs (skinsDirectory name)) as [skinFiles| |]; simpl;
    try discriminate.
  intros H. exists skinFiles. split; [reflexivity|].
  destruct (CarDetails_Load zeroCarDetails fs name) as [cd [[]|err|]];
    try discriminate.
  - injection H as <-. auto.
  - destruct (os_IsNotExist err); [|discriminate]. injection H as <-. auto.
Qed.

(** The skins of a loaded car are the names of the directories in its
    skins directory, every one once, in ascending order; files there are
    left out; and its tyres are those the registry has for its name. *)
Theorem LoadCar_skins (fs : node) (name : string) (tyres : Tyres) (car : Car) :
  LoadCar fs name tyres = Ok car ->
  exists entries,
    walk (skinsDirectory name) fs = Ok (Dir entries) /\
    (forall skin, In skin (car_Skins car) <-> exists es, entries !! skin = Some (Dir es)) /\
    List.NoDup (car_Skins car) /\
    StronglySorted (fun a b => String.leb a b = true) (car_Skins car) /\
    car_Tyres car = default ∅ (tyres !! name).
Proof.
  intros Hload. apply LoadCar_inv in Hload as (files & Hread & _ & -> & ->).
  destruct (ReadDir_inv _ _ _ Hread) as (entries & Hwalk & _).
  exists entries. split; [exact Hwalk|]. split; [|split; [|split; [|reflexivity]]].
  - intros skin. rewrite List.in_map_iff. split.
    + intros ([n d] & Hn & Hin). simpl in Hn. subst n.
      apply List.filter_In in Hin as [Hin Hd]. simpl in Hd. subst d.
      apply (ReadDir_In _ _ _ _ Hwalk Hread) in Hin as (n & Hn & Hd).
      destruct n as [data|es]; [discriminate|]. eauto.
    + intros (es & Hes). exists (mkFileInfo skin true). split; [reflexivity|].
      apply List.filter_In. split; [|reflexivity].
      apply (ReadDir_In _ _ _ _ Hwalk Hread). exists (Dir es). auto.
  - apply NoDup_map_filter. apply (ReadDir_NoDup _ _ _ Hread).
  - apply StronglySorted_map_filter. apply (ReadDir_sorted _ _ _ Hread).
Qed.

(** [LoadCar] answers not-exist exactly when the path to the skins
    directory does not exist; a missing metadata file never shows as an
    error. *)
Theorem LoadCar_NotExist_iff (fs : node) (name : string) (tyres : Tyres) :
  (exists err, LoadCar fs name tyres = Err err /\ os_IsNotExist err = true) <->
  walk (skinsDirectory name) fs = Err ENOENT.
Proof.
  split.
  - intros (err & Hload & Hne). destruct err; try discriminate. revert Hload.
    unfold LoadCar, ioutil_ReadDir.
    destruct (walk (skinsDirectory name) fs) as [[data|entries]|e|]; simpl;
      try discriminate.
    + destruct (CarDetails_Load zeroCarDetails fs name) as [cd [[]|e|]];
        try discriminate.
      destruct (os_IsNotExist e) eqn:E; [discriminate|].
      intros [= ->]. discriminate.
    + now intros [= ->].
  - intros H. exists ENOENT. split; [now apply LoadCar_skins_absent|reflexivity].
Qed.



(** ** More on listing *)

Lemma ListCars_loop_complete (fs : node) (tyres : Tyres) (carFiles : list FileInfo) :
  forall acc cars,
    ListCars_loop fs tyres carFiles acc = Ok cars ->
    (forall car, In car acc -> In car cars) /\
    (forall f, In f carFiles -> fi_IsDir f = true ->
       (exists car, LoadCar fs (fi_Name f) tyres = Ok car /\ In car cars) \/
       LoadCar fs (fi_Name f) tyres = Err ENOENT).
Proof.
  induction carFiles as [|carFile rest IH]; intros acc cars; simpl.
  - intros [= <-]. split; [auto|intros f []].
  - destruct (fi_IsDir carFile) eqn:Hdir; simpl.
    + destruct (LoadCar fs (fi_Name carFile) tyres) as [car|err|] eqn:Hload;
        try discriminate.
      * intros H. apply IH in H as [Hacc Hrest]. split.
        -- intros c Hc. apply Hacc, List.in_or_app. now left.
        -- intros f [<-|Hf] Hd; [|now apply Hrest].
           left. exists car. split; [exact Hload|].
           apply Hacc, List.in_or_app. right. now left.
      * destruct err; try discriminate. simpl.
        intros H. apply IH in H as [Hacc Hrest]. split; [exact Hacc|].
        intros f [<-|Hf] Hd; [now right|now apply Hrest].
    + intros H. apply IH in H as [Hacc Hrest]. split; [exact Hacc|].
      intros f [<-|Hf] Hd; [congruence|now apply Hrest].
Qed.

Lemma ListCars_loop_names (fs : node) (tyres : Tyres) (carFiles : list FileInfo) :
  forall acc cars,
    ListCars_loop fs tyres carFiles acc = Ok cars ->
    exists loaded,
      cars = (acc ++ loaded)%list /\
      (forall car, In car loaded ->
         exists f, In f carFiles /\ fi_IsDir f = true /\
                   LoadCar fs (fi_Name f) tyres = Ok car) /\
      (List.NoDup (List.map fi_Name carFiles) ->
       List.NoDup (List.map car_Name loaded)).
Proof.
  induction carFiles as [|carFile rest IH]; intros acc cars; simpl.
  - intros [= <-]. exists []. rewrite List.app_nil_r.
    split; [reflexivity|]. split; [intros car []|constructor].
  - destruct (fi_IsDir carFile) eqn:Hdir; simpl.
    + destruct (LoadCar fs (fi_Name carFile) tyres) as [car|err|] eqn:Hload;
        try discriminate.
      * intros H. apply IH in H as (loaded & -> & Hfrom & Hnd).
        exists (car :: loaded). split; [now rewrite <- List.app_assoc|]. split.
        -- intros c [<-|Hc]; [exists carFile; auto|].
           destruct (Hfrom c Hc) as (f & Hf & Hd & Hl). exists f. auto.
        -- intros Hnames. apply List.NoDup_cons_iff in Hnames as [Hx Hnames].
           simpl. constructor; [|auto].
           rewrite (LoadCar_Name _ _ _ _ Hload). intros Hin. apply Hx.
           apply List.in_map_iff in Hin as (c & Hc & Hin).
           destruct (Hfrom c Hin) as (f & Hf & _ & Hl).
           apply LoadCar_Name in Hl. apply List.in_map_iff. exists f.
           split; [congruence|exact Hf].
      * destruct (os_IsNotExist err); [|discriminate].
        intros H. apply IH in H as (loaded & -> & Hfrom & Hnd).
        exists loaded. split; [reflexivity|]. split.
        -- intros c Hc. destruct (Hfrom c Hc) as (f & Hf & Hd & Hl). exists f. auto.
        -- intros Hnames. apply List.NoDup_cons_iff in Hnames as [_ Hnames]. auto.
    + intros H. apply IH in H as (loaded & -> & Hfrom & Hnd).
      exists loaded. split; [reflexivity|]. split.
      * intros c Hc. destruct (Hfrom c Hc) as (f & Hf & Hd & Hl). exists f. auto.
      * intros Hnames. apply List.NoDup_cons_iff in Hnames as [_ Hnames]. auto.
Qed.

Lemma ListCars_inv (fs : node) (cars : list Car) :
  ListCars fs = Ok cars ->
  exists carFiles tyres loaded,
    ioutil_ReadDir fs (filepath_Join ["content"; "cars"]) = Ok carFiles /\
    ListTyres fs = Ok tyres /\
    ListCars_loop fs tyres carFiles [] = Ok loaded /\
    cars = sort_Slice (fun a b => String.ltb (PrettyName a) (PrettyName b)) loaded.
Proof.
  unfold ListCars.
  destruct (ioutil_ReadDir fs (filepath_Join ["content"; "cars"])) as [carFiles| |];
    simpl; try discriminate.
  destruct (ListTyres fs) as [tyres| |]; simpl; try discriminate.
  destruct (ListCars_loop fs tyres carFiles []) as [loaded| |] eqn:Hloop;
    simpl; try discriminate.
  intros [= <-]. exists carFiles, tyres, loaded. auto.
Qed.

Lemma ListCars_NoDup_names (fs : node) (cars : list Car) :
  ListCars fs = Ok cars -> List.NoDup (List.map car_Name cars).
Proof.
  intros Hlist.
  apply ListCars_inv in Hlist as (carFiles & tyres & loaded & Hread & _ & Hloop & ->).
  destruct (ListCars_loop_names _ _ _ _ _ Hloop) as (l & Hl & _ & Hnd).
  simpl in Hl. subst l. eapply Permutation_NoDup.
  - apply Permutation_map, sort_Slice_Permutation.
  - apply Hnd, (ReadDir_NoDup _ _ _ Hread).
Qed.

Lemma ListCars_lists_what_loads (fs : node) (cars : list Car)
    (carsDir es : gmap string node) (tyres : Tyres) (car : Car) :
  ListCars fs = Ok cars ->
  walk (filepath_Join ["content"; "cars"]) fs = Ok (Dir carsDir) ->
  ListTyres fs = Ok tyres ->
  carsDir !! car_Name car = Some (Dir es) ->
  LoadCar fs (car_Name car) tyres = Ok car ->
  In car cars.
Proof.
  intros Hlist Hwalk Htyres Hes Hload.
  apply ListCars_inv in Hlist
    as (carFiles & tyres' & loaded & Hread & Htyres' & Hloop & ->).
  rewrite Htyres in Htyres'. injection Htyres' as <-.
  apply In_sort_Slice.
  destruct (ListCars_loop_complete _ _ _ _ _ Hloop) as [_ Hall].
  assert (Hf : In (mkFileInfo (car_Name car) true) carFiles).
  { apply (ReadDir_In _ _ _ _ Hwalk Hread). exists (Dir es). auto. }
  destruct (Hall _ Hf eq_refl) as [(c & Hc & Hin)|Hc]; simpl in Hc;
    rewrite Hload in Hc; [now injection Hc as <-|discriminate].
Qed.

(** The listing holds exactly the directories of the cars directory that
    load, each of them once: a car is listed if and only if its name is a
    directory there and it loads, with the tyres of the registry, as that
    car. *)
Theorem ListCars_exact (fs : node) (cars : list Car) :
  ListCars fs = Ok cars ->
  exists carsDir tyres,
    walk (filepath_Join ["content"; "cars"]) fs = Ok (Dir carsDir) /\
    ListTyres fs = Ok tyres /\
    List.NoDup (List.map car_Name cars) /\
    forall car,
      In car cars <->
      (exists es, carsDir !! car_Name car = Some (Dir es)) /\
      LoadCar fs (car_Name car) tyres = Ok car.
Proof.
  intros Hlist.
  destruct (ListCars_inv _ _ Hlist)
    as (carFiles & tyres & loaded & Hread & Htyres & Hloop & Hcars).
  destruct (ReadDir_inv _ _ _ Hread) as (carsDir & Hwalk & _).
  exists carsDir, tyres. split; [exact Hwalk|]. split; [exact Htyres|].
  split; [exact (ListCars_NoDup_names _ _ Hlist)|].
  intros car. split.
  - rewrite Hcars, In_sort_Slice. intros Hin.
    destruct (ListCars_loop_names _ _ _ _ _ Hloop) as (l & Hl & Hfrom & _).
    simpl in Hl. subst l.
    destruct (Hfrom car Hin) as ([name d] & Hf & Hd & Hload).
    simpl in Hd, Hload. subst d.
    rewrite (LoadCar_Name _ _ _ _ Hload). split; [|exact Hload].
    apply (ReadDir_In _ _ _ _ Hwalk Hread) in Hf as (n & Hn & Hd).
    destruct n as [data|es]; [discriminate|]. eauto.
  - intros [(es & Hes) Hload].
    exact (ListCars_lists_what_loads _ _ _ _ _ _ Hlist Hwalk Htyres Hes Hload).
Qed.

(** One car that neither loads nor lacks its skins directory (metadata
    that does not decode, say) stops the whole listing, and with it every
    deletion and the build of the index, which then change nothing. *)
Theorem unloadable_car_blocks (w : World) (carsDir es : gmap string node)
    (tyres : Tyres) (name : string) :
  walk (filepath_Join ["content"; "cars"]) (root (disk w)) = Ok (Dir carsDir) ->
  carsDir !! name = Some (Dir es) ->
  ListTyres (root (disk w)) = Ok tyres ->
  is_Ok (LoadCar (root (disk w)) name tyres) = false ->
  LoadCar (root (disk w)) name tyres <> Err ENOENT ->
  is_Ok (ListCars (root (disk w))) = false /\
  (forall carName,
     fst (DeleteCar w carName) = w /\ is_Ok (snd (DeleteCar w carName)) = false) /\
  (fst (IndexAllCars w) = w /\ is_Ok (snd (IndexAllCars w)) = false).
Proof.
  intros Hwalk Hname Htyres Hload Hne.
  assert (Hlist : is_Ok (ListCars (root (disk w))) = false).
  { destruct (ListCars (root (disk w))) as [cars| |] eqn:Hlist; try reflexivity.
    exfalso.
    apply ListCars_inv in Hlist as (carFiles & tyres' & loaded & Hread & Htyres' & Hloop & _).
    rewrite Htyres in Htyres'. injection Htyres' as <-.
    destruct (ListCars_loop_complete _ _ _ _ _ Hloop) as [_ Hall].
    assert (Hf : In (mkFileInfo name true) carFiles).
    { apply (ReadDir_In _ _ _ _ Hwalk Hread). exists (Dir es). auto. }
    destruct (Hall _ Hf eq_refl) as [(c & Hc & _)|Hc]; simpl in Hc.
    - rewrite Hc in Hload. discriminate.
    - contradiction. }
  split; [exact Hlist|]. unfold DeleteCar, IndexAllCars.
  destruct (ListCars (root (disk w))); try discriminate; split; auto.
Qed.

(** ** More on deleting *)



Lemma carDirectory_not_nil (name : string) : carDirectory name <> [].
Proof. unfold carDirectory, filepath_Join. simpl. discriminate. Qed.



Lemma os_RemoveAll_gone (d d' : Disk) (path : list string) :
  path <> [] -> os_RemoveAll d path = (d', Ok tt) ->
  walk path (root d') = Err ENOENT.
Proof.
  intros Hne. unfold os_RemoveAll.
  destruct (walk path (root d)) as [m|e|] eqn:Hw.
  - destruct (readonly d); [discriminate|]. intros [= <-]. simpl.
    now apply (walk_remove_at_gone path _ m).
  - destruct e; try discriminate. now intros [= <-].
  - discriminate.
Qed.





(** On a disk that refuses writes, deleting a listed car fails with the
    error of the removal and the index keeps its entry: nothing is
    changed. *)
Theorem DeleteCar_readonly (w : World) (carName : string) (existingCars : list Car) :
  readonly (disk w) = true ->
  ListCars (root (disk w)) = Ok existingCars ->
  In carName (List.map car_Name existingCars) ->
  DeleteCar w carName = (w, Err EROFS).
Proof.
  intros Hro Hlist Hin. unfold DeleteCar.
  rewrite Hlist, (DeleteCar_loop_present _ _ _ Hin).
  apply List.in_map_iff in Hin as (car & <- & Hcar).
  destruct (ListCars_listed_loads _ _ _ Hlist Hcar) as (tyres & Hload).
  destruct (LoadCar_reads_skins _ _ _ _ Hload) as (files & Hread).
  apply ReadDir_inv in Hread as (entries & Hs & _).
  rewrite skinsDirectory_eq, walk_app in Hs.
  unfold os_RemoveAll.
  destruct (walk (carDirectory (car_Name car)) (root (disk w))) as [m|e|];
    try discriminate.
  rewrite Hro. now destruct w.
Qed.

(** ** Building the index *)

Lemma IndexAllCars_loop_open (cars : list Car) :
  ~ In EmptyString (List.map car_Name cars) ->
  forall w i,
    carIndex w = Some i -> opened i = true ->
    exists i',
      IndexAllCars_loop w cars = (mkWorld (disk w) (Some i'), Ok tt) /\
      opened i' = true /\
      (forall name, ~ In name (List.map car_Name cars) ->
         docs i' !! name = docs i !! name) /\
      (forall name, In name (List.map car_Name cars) -> is_Some (docs i' !! name)) /\
      (List.NoDup (List.map car_Name cars) ->
       forall car, In car cars -> docs i' !! car_Name car = Some (car_Details car)).
Proof.
  induction cars as [|car rest IH]; intros Hnames w i Hi Hopen.
  - exists i. simpl. split; [destruct w; simpl in *; now subst|].
    split; [exact Hopen|]. split; [reflexivity|]. split; [intros name []|intros _ c []].
  - assert (Hcar : car_Name car <> EmptyString)
      by (intros H; apply Hnames; now left).
    assert (Hrest : ~ In EmptyString (List.map car_Name rest))
      by (intros H; apply Hnames; now right).
    cbn [IndexAllCars_loop]. unfold IndexCar, bleve_Index.
    rewrite Hi, (eqb_EmptyString_false _ Hcar), Hopen.
    set (i1 := mkIndex (<[car_Name car := car_Details car]> (docs i)) true).
    destruct (IH Hrest (mkWorld (disk w) (Some i1)) i1 eq_refl eq_refl)
      as (i' & Hloop & Hopen' & Hout & Hsome & Hin).
    exists i'. split; [exact Hloop|]. split; [exact Hopen'|]. simpl.
    split; [|split].
    + intros name Hnot. rewrite Hout by (intros H; apply Hnot; now right).
      simpl. apply lookup_insert_ne. intros H. apply Hnot. now left.
    + intros name [<-|Hn]; [|now apply Hsome].
      destruct (List.in_dec String.string_dec (car_Name car) (List.map car_Name rest))
        as [Hr|Hr]; [now apply Hsome|].
      rewrite (Hout _ Hr). simpl. rewrite lookup_insert_eq. eauto.
    + intros Hnd c Hc. apply List.NoDup_cons_iff in Hnd as [Hx Hnd].
      destruct Hc as [<-|Hc]; [|now apply Hin].
      rewrite (Hout _ Hx). simpl. apply lookup_insert_eq.
Qed.

(** The index refuses the empty id: a car of the empty name stops the
    loop with [ErrorEmptyID], the cars before it indexed. *)
Lemma IndexAllCars_loop_EmptyString (cars : list Car) :
  In EmptyString (List.map car_Name cars) ->
  forall w i,
    carIndex w = Some i -> opened i = true ->
    exists i', IndexAllCars_loop w cars = (mkWorld (disk w) (Some i'), Err ErrorEmptyID).
Proof.
  induction cars as [|car rest IH]; intros Hin w i Hi Hopen; [destruct Hin|].
  cbn [IndexAllCars_loop]. unfold IndexCar, bleve_Index. rewrite Hi.
  destruct (String.eqb (car_Name car) EmptyString) eqn:E.
  - exists i. reflexivity.
  - rewrite Hopen. apply String.eqb_neq in E.
    destruct Hin as [Hcar|Hin]; [congruence|].
    set (i1 := mkIndex (<[car_Name car := car_Details car]> (docs i)) true).
    destruct (IH Hin (mkWorld (disk w) (Some i1)) i1 eq_refl eq_refl) as (i' & Hloop).
    exists i'. exact Hloop.
Qed.

(** With the index open and the listing made, [IndexAllCars] does not
    touch the disk. When no listed car has the empty name, as on every
    disk, where no directory entry has it, it succeeds; afterwards every
    listed car has its details in the index under its name, and every
    entry of another name is the one from before: nothing is ever taken
    out. A car of the empty name, which the index refuses as an id, makes
    it fail with [ErrorEmptyID]. *)
Theorem IndexAllCars_puts_all (w : World) (i : Index) (cars : list Car) :
  carIndex w = Some i -> opened i = true ->
  ListCars (root (disk w)) = Ok cars ->
  (~ In EmptyString (List.map car_Name cars) ->
   exists i',
     IndexAllCars w = (mkWorld (disk w) (Some i'), Ok tt) /\
     (forall car, In car cars -> docs i' !! car_Name car = Some (car_Details car)) /\
     (forall name, ~ In name (List.map car_Name cars) ->
        docs i' !! name = docs i !! name)) /\
  (In EmptyString (List.map car_Name cars) ->
   exists i', IndexAllCars w = (mkWorld (disk w) (Some i'), Err ErrorEmptyID)).
Proof.
  intros Hi Hopen Hlist. unfold IndexAllCars. rewrite Hlist. split.
  - intros Hnames.
    destruct (IndexAllCars_loop_open cars Hnames w i Hi Hopen)
      as (i' & Hloop & _ & Hout & _ & Hin).
    exists i'. split; [exact Hloop|]. split; [|exact Hout].
    apply Hin, (ListCars_NoDup_names _ _ Hlist).
  - intros Hnames. exact (IndexAllCars_loop_EmptyString cars Hnames w i Hi Hopen).
Qed.

(** [CreateOrOpenSearchIndex]: where there is no index yet and a new,
    empty one can be made, the index ends up holding exactly the details
    of the listed cars when none of them has the empty name, and the build
    fails with [ErrorEmptyID] otherwise; an index that opens is taken as
    it is, whatever is on the disk. *)
Theorem CreateOrOpenSearchIndex_builds (w : World) (cars : list Car) :
  ListCars (root (disk w)) = Ok cars ->
  (~ In EmptyString (List.map car_Name cars) ->
   exists i',
     CreateOrOpenSearchIndex ErrorIndexPathDoesNotExist (Ok (mkIndex ∅ true)) w =
       (mkWorld (disk w) (Some i'), Ok tt) /\
     forall name cd,
       docs i' !! name = Some cd <->
       exists car, In car cars /\ car_Name car = name /\ car_Details car = cd) /\
  (In EmptyString (List.map car_Name cars) ->
   exists i',
     CreateOrOpenSearchIndex ErrorIndexPathDoesNotExist (Ok (mkIndex ∅ true)) w =
       (mkWorld (disk w) (Some i'), Err ErrorEmptyID)) /\
  (forall i new,
     CreateOrOpenSearchIndex (Opens i) new w = (mkWorld (disk w) (Some i), Ok tt)).
Proof.
  intros Hlist. split; [|split; [|reflexivity]].
  - intros Hnames.
    unfold CreateOrOpenSearchIndex, IndexAllCars. cbn [disk]. rewrite Hlist.
    destruct (IndexAllCars_loop_open cars Hnames
                (mkWorld (disk w) (Some (mkIndex ∅ true))) (mkIndex ∅ true)
                eq_refl eq_refl)
      as (i' & Hall & _ & Hout & _ & Hin).
    specialize (Hin (ListCars_NoDup_names _ _ Hlist)).
    exists i'. split; [exact Hall|]. intros name cd. split.
    + intros Hdoc.
      destruct (List.in_dec String.string_dec name (List.map car_Name cars))
        as [Hn|Hn].
      * apply List.in_map_iff in Hn as (car & <- & Hcar). exists car.
        rewrite (Hin _ Hcar) in Hdoc. injection Hdoc as <-. auto.
      * rewrite (Hout _ Hn) in Hdoc. simpl in Hdoc. rewrite lookup_empty in Hdoc.
        discriminate.
    + intros (car & Hcar & <- & <-). now apply Hin.
  - intros Hnames.
    unfold CreateOrOpenSearchIndex, IndexAllCars. cbn [disk]. rewrite Hlist.
    exact (IndexAllCars_loop_EmptyString cars Hnames
             (mkWorld (disk w) (Some (mkIndex ∅ true))) (mkIndex ∅ true) eq_refl eq_refl).
Qed.

(** When the first build fails at the listing, the error is returned, but
    the new, empty index has been made and stays with the manager; the
    next start finds an index that opens, builds nothing, and searches an
    empty index. *)
Theorem CreateOrOpenSearchIndex_failed_build (w : World) (new : outcome Index) :
  is_Ok (ListCars (root (disk w))) = false ->
  let '(w1, r1) :=
    CreateOrOpenSearchIndex ErrorIndexPathDoesNotExist (Ok (mkIndex ∅ true)) w in
  is_Ok r1 = false /\
  carIndex w1 = Some (mkIndex ∅ true) /\
  CreateOrOpenSearchIndex (Opens (mkIndex ∅ true)) new w1 =
    (mkWorld (disk w) (Some (mkIndex ∅ true)), Ok tt).
Proof.
  intros Hlist. unfold CreateOrOpenSearchIndex, IndexAllCars. simpl.
  destruct (ListCars (root (disk w))); try discriminate; auto.
Qed.

(** ** More on searching *)

Lemma Search_loop_cars (fs : node) (hits : list string) :
  forall acc cars,
    Search_loop fs hits acc = Ok cars ->
    forall id car,
      cars !! id = Some car <->
      (In id hits /\ LoadCar fs id ∅ = Ok car) \/
      (~ In id hits /\ acc !! id = Some car).
Proof.
  induction hits as [|hit rest IH]; intros acc cars; simpl.
  - intros [= <-] id car. split; [intros H; right; split; [intros []|exact H]|].
    intros [[[] _]|[_ H]]; exact H.
  - destruct (LoadCar fs hit ∅) as [c| |] eqn:Hload; simpl; try discriminate.
    intros Hloop id car. rewrite (IH _ _ Hloop id car). split.
    + intros [[Hin Hl]|[Hnot Hacc]]; [left; auto|].
      destruct (decide (hit = id)) as [->|Hne].
      * rewrite lookup_insert_eq in Hacc. injection Hacc as <-. left. auto.
      * rewrite lookup_insert_ne in Hacc by exact Hne. right. split; [|exact Hacc].
        intros [H|H]; [congruence|contradiction].
    + intros [[[->|Hin] Hl]|[Hnot Hacc]].
      * destruct (List.in_dec String.string_dec id rest) as [Hr|Hr]; [left; auto|].
        right. split; [exact Hr|]. rewrite lookup_insert_eq. congruence.
      * left. auto.
      * right. split; [intros H; apply Hnot; now right|].
        rewrite lookup_insert_ne; [exact Hacc|]. intros ->. apply Hnot. now left.
Qed.

(** A search that succeeds asked the index for one page of 50 from the
    given offset, with the match-all query for the empty term and the
    query-string query otherwise; the cars it returns are exactly the hits
    of that page, each as [LoadCar] loads it without tyres. *)
Theorem Search_returns_the_hits (w : World) (ctx : context_Context) (term : string)
    (from : Z) (results : SearchResult) (cars : gmap string Car) :
  Search w ctx term from = Ok (results, cars) ->
  (exists i,
     carIndex w = Some i /\ opened i = true /\
     bleve_SearchInContext (docs i) ctx
       (if String.eqb term EmptyString then MatchAllQuery else QueryStringQuery term)
       50 from = Ok results) /\
  (forall id car,
     cars !! id = Some car <->
     In id (Hits results) /\ LoadCar (root (disk w)) id ∅ = Ok car) /\
  (forall id car, cars !! id = Some car -> car_Name car = id /\ car_Tyres car = ∅).
Proof.
  unfold Search. destruct (carIndex w) as [i|]; [|discriminate].
  destruct (opened i) eqn:Hopen; [|discriminate].
  destruct (bleve_SearchInContext _ _ _ _ _) as [res| |] eqn:Hsearch;
    try discriminate.
  simpl.
  destruct (Search_loop (root (disk w)) (Hits res) ∅) as [cs| |] eqn:Hloop;
    try discriminate.
  simpl. intros [= <- <-].
  assert (Hiff : forall id car,
             cs !! id = Some car <->
             In id (Hits res) /\ LoadCar (root (disk w)) id ∅ = Ok car).
  { intros id car. rewrite (Search_loop_cars _ _ _ _ Hloop id car).
    rewrite lookup_empty. split; [intros [H|[_ H]]; [exact H|discriminate]|auto]. }
  split; [exists i; auto|]. split; [exact Hiff|].
  intros id car Hc. apply Hiff in Hc as [_ Hload].
  apply LoadCar_inv in Hload as (files & _ & Hn & _ & Ht).
  split; [exact Hn|]. rewrite Ht, lookup_empty. reflexivity.
Qed.

(** ** More on saving *)

Lemma uiDirectory_eq (carName : string) :
  uiDirectory carName = (carDirectory carName ++ ["ui"])%list.
Proof.
  unfold uiDirectory, carDirectory, filepath_Join.
  change ["content"; "cars"; carName; "ui"] with (["content"; "cars"; carName] ++ ["ui"])%list.
  now rewrite List.filter_app.
Qed.

Lemma detailsFile_ui (carName : string) :
  detailsFile carName = (uiDirectory carName ++ ["ui_car.json"])%list.
Proof.
  unfold uiDirectory, detailsFile, filepath_Join.
  change ["content"; "cars"; carName; "ui"; "ui_car.json"]
    with (["content"; "cars"; carName; "ui"] ++ ["ui_car.json"])%list.
  now rewrite List.filter_app.
Qed.

Lemma write_at_in_dir (dir : list string) (f : string) (data : list byte) :
  forall n u,
    walk dir n = Ok (Dir u) ->
    (forall es, u !! f <> Some (Dir es)) ->
    exists n',
      write_at (dir ++ [f]) data n = Ok n' /\
      walk dir n' = Ok (Dir (<[f := File data]> u)).
Proof.
  induction dir as [|x dir IH]; intros n u.
  - simpl. intros [= ->] Hf. cbn [write_at].
    destruct (u !! f) as [[d|es]|] eqn:E; try (eexists; split; reflexivity).
    exfalso. now apply (Hf es).
  - cbn [walk app]. destruct n as [d|entries]; [discriminate|].
    destruct (entries !! x) as [child|] eqn:E; [|discriminate].
    intros Hw Hf. destruct (IH child u Hw Hf) as (child' & Hwr & Hwalk).
    rewrite write_at_deep by (now destruct dir). rewrite E, Hwr. simpl.
    eexists. split; [reflexivity|]. cbn [walk]. now rewrite lookup_insert_eq.
Qed.

Lemma mkdir_all_extend (parent : list string) (x : string) :
  forall n es,
    walk parent n = Ok (Dir es) ->
    es !! x = None ->
    exists n',
      mkdir_all (parent ++ [x]) n = Ok n' /\
      walk (parent ++ [x]) n' = Ok (Dir ∅).
Proof.
  induction parent as [|y parent IH]; intros n es.
  - cbn [walk app mkdir_all]. intros [= ->] Hx. rewrite Hx.
    eexists. split; [reflexivity|]. cbn [walk]. now rewrite lookup_insert_eq.
  - cbn [walk app mkdir_all]. destruct n as [d|entries]; [discriminate|].
    destruct (entries !! y) as [child|] eqn:E; [|discriminate].
    intros Hw Hx. destruct (IH child es Hw Hx) as (child' & Hmk & Hwalk).
    change (default (Dir ∅) (Some child)) with child. rewrite Hmk.
    eexists. split; [reflexivity|]. cbn [walk]. now rewrite lookup_insert_eq.
Qed.

(** What [os.MkdirAll] leaves at the path when it succeeds on a disk that
    takes writes: the directory that was there, or a new empty one. *)
Lemma os_MkdirAll_under (d : Disk) (parent : list string) (x : string)
    (es : gmap string node) :
  readonly d = false ->
  walk parent (root d) = Ok (Dir es) ->
  (forall data, es !! x <> Some (File data)) ->
  exists d' u,
    os_MkdirAll d (parent ++ [x]) = (d', Ok tt) /\
    readonly d' = false /\
    walk (parent ++ [x]) (root d') = Ok (Dir u) /\
    (forall f, u !! f = match es !! x with
                        | Some (Dir old) => old !! f
                        | _ => None
                        end).
Proof.
  intros Hro Hparent Hx. unfold os_MkdirAll.
  rewrite walk_app, Hparent. simpl.
  destruct (es !! x) as [[data|old]|] eqn:E.
  - exfalso. now apply (Hx data).
  - exists d, old. rewrite walk_app, Hparent. simpl. rewrite E. auto.
  - rewrite Hro. destruct (mkdir_all_extend parent x _ _ Hparent E) as (n' & -> & Hw).
    exists (mkDisk n' (readonly d)), ∅. simpl. rewrite Hro.
    repeat split; auto.
Qed.

(** [CarDetails.Save] succeeds whenever the disk takes writes, the details
    encode, the car directory is a directory, [ui] in it is not a file and
    [ui_car.json] in that is not a directory; the [ui] directory is made
    when it is missing, and afterwards the file holds the encoding. *)
Theorem CarDetails_Save_succeeds (cd : CarDetails) (d : Disk) (carName : string)
    (es : gmap string node) (bytes : list byte) :
  readonly d = false ->
  json_Encode cd = Ok bytes ->
  walk (carDirectory carName) (root d) = Ok (Dir es) ->
  (forall data, es !! "ui" <> Some (File data)) ->
  (forall ui sub, es !! "ui" = Some (Dir ui) -> ui !! "ui_car.json" <> Some (Dir sub)) ->
  exists d',
    CarDetails_Save cd d carName = (d', Ok tt) /\
    ioutil_ReadFile (root d') (detailsFile carName) = Ok bytes.
Proof.
  intros Hro Henc Hdir Hui Hfile.
  destruct (os_MkdirAll_under d (carDirectory carName) "ui" es Hro Hdir Hui)
    as (d1 & u & Hmk & Hro1 & Hwalk1 & Hu).
  assert (Hnodir : forall sub, u !! "ui_car.json" <> Some (Dir sub)).
  { intros sub. rewrite Hu. destruct (es !! "ui") as [[data|old]|] eqn:E;
      try discriminate. now apply (Hfile old sub). }
  rewrite <- uiDirectory_eq in Hmk, Hwalk1.
  destruct (write_at_in_dir (uiDirectory carName) "ui_car.json" [] _ _ Hwalk1 Hnodir)
    as (n2 & Hw2 & Hwalk2).
  assert (Hnodir2 : forall sub,
             <["ui_car.json" := File []]> u !! "ui_car.json" <> Some (Dir sub)).
  { intros sub. rewrite lookup_insert_eq. discriminate. }
  destruct (write_at_in_dir (uiDirectory carName) "ui_car.json" bytes _ _ Hwalk2 Hnodir2)
    as (n3 & Hw3 & Hwalk3).
  assert (Hsave : CarDetails_Save cd d carName = (mkDisk n3 false, Ok tt)).
  { unfold CarDetails_Save. rewrite Hmk, detailsFile_eq, detailsFile_ui.
    unfold os_Create, write_file. rewrite Hro1, Hw2, Henc.
    cbn [readonly root]. rewrite Hw3. reflexivity. }
  exists (mkDisk n3 false). split; [exact Hsave|].
  apply CarDetails_Save_persists in Hsave as (bytes' & Henc' & Hread).
  rewrite Henc in Henc'. now injection Henc' as <-.
Qed.

(** On a disk that refuses writes [CarDetails.Save] never succeeds and
    never changes anything. *)
Theorem CarDetails_Save_readonly (cd : CarDetails) (d : Disk) (carName : string) :
  readonly d = true ->
  exists err, CarDetails_Save cd d carName = (d, Err err).
Proof.
  intros Hro. unfold CarDetails_Save, os_MkdirAll, os_Create, write_file.
  destruct (walk (uiDirectory carName) (root d)) as [[data|entries]|e|];
    rewrite ?Hro; eauto.
Qed.

(** The file is emptied before the details are encoded: when the encoding
    fails, [CarDetails.Save] returns that error and the metadata file that
    was there is left empty. *)
Theorem CarDetails_Save_encode_error (cd : CarDetails) (d : Disk) (carName : string)
    (old : list byte) (err : error) :
  readonly d = false ->
  ioutil_ReadFile (root d) (detailsFile carName) = Ok old ->
  json_Encode cd = Err err ->
  exists d',
    CarDetails_Save cd d carName = (d', Err err) /\
    ioutil_ReadFile (root d') (detailsFile carName) = Ok [].
Proof.
  intros Hro Hread Henc.
  assert (Hfile : walk (detailsFile carName) (root d) = Ok (File old)).
  { revert Hread. unfold ioutil_ReadFile.
    destruct (walk (detailsFile carName) (root d)) as [[data|es]| |]; simpl;
      try discriminate. now intros [= ->]. }
  rewrite detailsFile_ui, walk_app in Hfile.
  destruct (walk (uiDirectory carName) (root d)) as [[data|u]| |] eqn:Hui;
    try discriminate.
  simpl in Hfile. destruct (u !! "ui_car.json") as [n|] eqn:Hu; [|discriminate].
  simpl in Hfile. injection Hfile as ->.
  assert (Hnodir : forall sub, u !! "ui_car.json" <> Some (Dir sub))
    by (intros sub; rewrite Hu; discriminate).
  destruct (write_at_in_dir (uiDirectory carName) "ui_car.json" [] _ _ Hui Hnodir)
    as (n2 & Hw2 & Hwalk2).
  exists (mkDisk n2 false). unfold CarDetails_Save, os_MkdirAll.
  rewrite Hui, detailsFile_eq. unfold os_Create, write_file.
  rewrite Hro, detailsFile_ui, Hw2, Henc. split; [reflexivity|].
  unfold ioutil_ReadFile. cbn [root]. rewrite walk_app, Hwalk2.
  cbn. now rewrite lookup_insert_eq.
Qed.

(** Saving and loading undo each other up to the numeric specs, which are
    recomputed: when the decoder reads back what the encoder wrote, loading
    after a successful save gives the saved details with their numeric
    specs derived from the string specs. *)
Theorem CarDetails_Save_then_Load (cd cd0 : CarDetails) (d d' : Disk)
    (carName : string) :
  (forall bytes,
     json_Encode cd = Ok bytes ->
     json_Unmarshal (bom_Clean (strip_tab_cr_lf bytes)) cd0 = Decoded cd) ->
  CarDetails_Save cd d carName = (d', Ok tt) ->
  CarDetails_Load cd0 (root d') carName =
    (set_Specs cd (Numeric (SpecsFull cd)), Ok tt).
Proof.
  intros Hcodec Hsave.
  apply CarDetails_Save_persists in Hsave as (bytes & Henc & Hread).
  unfold CarDetails_Load. now rewrite Hread, (Hcodec _ Henc).
Qed.

(** There is no rollback: when the details are saved and the index cannot
    take them (the manager has none, the car has the empty name, which the
    index refuses as an id before anything else, or the index is closed),
    [SaveCarDetails] fails and the file stays written. *)
Theorem SaveCarDetails_no_rollback (w : World) (carName : string) (car : Car)
    (d' : Disk) :
  CarDetails_Save (car_Details car) (disk w) carName = (d', Ok tt) ->
  (exists bytes,
     json_Encode (car_Details car) = Ok bytes /\
     ioutil_ReadFile (root d') (detailsFile carName) = Ok bytes) /\
  (carIndex w = None -> SaveCarDetails w carName car = (mkWorld d' None, Panic)) /\
  (forall i, carIndex w = Some i -> car_Name car = EmptyString ->
     SaveCarDetails w carName car = (mkWorld d' (Some i), Err ErrorEmptyID)) /\
  (forall i, carIndex w = Some i -> car_Name car <> EmptyString -> opened i = false ->
     SaveCarDetails w carName car = (mkWorld d' (Some i), Err ErrorIndexClosed)).
Proof.
  intros Hsave. split; [now apply (CarDetails_Save_persists _ _ _ _ Hsave)|].
  unfold SaveCarDetails, IndexCar, bleve_Index. rewrite Hsave. simpl.
  split; [|split].
  - now intros ->.
  - intros i -> ->. reflexivity.
  - intros i -> Hne Hclosed. now rewrite (eqb_EmptyString_false _ Hne), Hclosed.
Qed.

(** A car whose skins directory does not exist cannot be tagged or
    annotated: the three operations answer not-exist and change nothing. *)
Theorem operations_on_missing_car (w : World) (carName tag notes url : string) :
  walk (skinsDirectory carName) (root (disk w)) = Err ENOENT ->
  AddTag w carName tag = (w, Err ENOENT) /\
  DelTag w carName tag = (w, Err ENOENT) /\
  UpdateCarMetadata w carName notes url = (w, Err ENOENT).
Proof.
  intros H. unfold AddTag, DelTag, UpdateCarMetadata.
  now rewrite (LoadCar_skins_absent _ _ ∅ H).
Qed.

(** ** Results of a car, and the cars as a map *)

Lemma hasCar_loop_existsb (drivers : list SessionResult) (car : string) :
  hasCar_loop drivers car =
    List.existsb (fun driver => String.eqb (sr_CarModel driver) car) drivers.
Proof.
  induction drivers as [|driver rest IH]; simpl; [reflexivity|].
  destruct (String.eqb (sr_CarModel driver) car); [reflexivity|exact IH].
Qed.

Lemma ResultsForCar_loop_filter (results : list SessionResults) (car : string) :
  forall out,
    ResultsForCar_loop results car out =
      (out ++ List.filter (fun result => hasCar_loop (sr_Result result) car) results)%list.
Proof.
  induction results as [|result rest IH]; intros out; simpl.
  - now rewrite List.app_nil_r.
  - rewrite IH. destruct (hasCar_loop (sr_Result result) car); [|reflexivity].
    now rewrite <- List.app_assoc.
Qed.

(** [ResultsForCar] returns, in their order, the results in which some
    driver drove the car, and nothing else; an error of [ListAllResults] is
    returned as it is. *)
Theorem ResultsForCar_filters (fs : node) (car : string) :
  (forall results,
     ListAllResults fs = Ok results ->
     exists out,
       ResultsForCar fs car = Ok out /\
       out = List.filter
               (fun result =>
                  List.existsb (fun driver => String.eqb (sr_CarModel driver) car)
                    (sr_Result result)) results /\
       forall result,
         In result out <->
         In result results /\
         exists driver, In driver (sr_Result result) /\ sr_CarModel driver = car) /\
  (forall err, ListAllResults fs = Err err -> ResultsForCar fs car = Err err).
Proof.
  split.
  - intros results Hall. unfold ResultsForCar. rewrite Hall. simpl.
    eexists. split; [reflexivity|].
    rewrite ResultsForCar_loop_filter. simpl.
    assert (Heq : List.filter (fun result => hasCar_loop (sr_Result result) car) results =
                  List.filter
                    (fun result =>
                       List.existsb (fun driver => String.eqb (sr_CarModel driver) car)
                         (sr_Result result)) results).
    { apply List.filter_ext. intros r. apply hasCar_loop_existsb. }
    rewrite Heq. split; [reflexivity|].
    intros result. rewrite List.filter_In, List.existsb_exists. split.
    + intros [Hin (driver & Hd & He)]. apply String.eqb_eq in He. eauto.
    + intros [Hin (driver & Hd & He)]. split; [exact Hin|].
      exists driver. split; [exact Hd|]. now apply String.eqb_eq.
  - intros err Hall. unfold ResultsForCar. now rewrite Hall.
Qed.

Lemma AsMap_loop_other (cs : list Car) (name : string) :
  ~ In name (List.map car_Name cs) ->
  forall out, AsMap_loop cs out !! name = out !! name.
Proof.
  induction cs as [|car rest IH]; intros Hnot out; simpl; [reflexivity|].
  rewrite IH by (intros H; apply Hnot; now right).
  apply lookup_insert_ne. intros H. apply Hnot. now left.
Qed.

Lemma AsMap_loop_None (cs : list Car) (name : string) :
  forall out,
    AsMap_loop cs out !! name = None <->
    ~ In name (List.map car_Name cs) /\ out !! name = None.
Proof.
  induction cs as [|car rest IH]; intros out; simpl.
  - split; [intros H; split; [intros []|exact H]|intros [_ H]; exact H].
  - rewrite IH, lookup_insert_None. split.
    + intros (Hrest & Hout & Hne). split; [|exact Hout].
      intros [H|H]; [congruence|contradiction].
    + intros (Hnot & Hout). split; [intros H; apply Hnot; now right|].
      split; [exact Hout|]. intros H. apply Hnot. now left.
Qed.

(** [AsMap] has an entry for exactly the names of the cars, holding the
    skins of the last car of that name; for the cars of a listing, whose
    names are all different, every car finds its own skins. *)
Theorem AsMap_lookup (cs : list Car) :
  (forall name, AsMap cs !! name = None <-> ~ In name (List.map car_Name cs)) /\
  (forall pre car post,
     cs = (pre ++ car :: post)%list ->
     ~ In (car_Name car) (List.map car_Name post) ->
     AsMap cs !! car_Name car = Some (car_Skins car)) /\
  (forall fs, ListCars fs = Ok cs ->
     forall car, In car cs -> AsMap cs !! car_Name car = Some (car_Skins car)).
Proof.
  assert (Hlast : forall pre car post,
             cs = (pre ++ car :: post)%list ->
             ~ In (car_Name car) (List.map car_Name post) ->
             AsMap cs !! car_Name car = Some (car_Skins car)).
  { intros pre car post -> Hpost. unfold AsMap. generalize (∅ : gmap string (list string)).
    induction pre as [|c pre IH]; intros out; simpl; [|apply IH].
    rewrite (AsMap_loop_other _ _ Hpost). apply lookup_insert_eq. }
  split; [|split; [exact Hlast|]].
  - intros name. unfold AsMap. rewrite AsMap_loop_None, lookup_empty.
    split; [now intros [H _]|auto].
  - intros fs Hlist car Hin.
    pose proof (ListCars_NoDup_names _ _ Hlist) as Hnd.
    apply List.in_split in Hin as (pre & post & Hcs).
    apply (Hlast pre car post Hcs).
    rewrite Hcs, List.map_app in Hnd. simpl in Hnd.
    apply List.NoDup_remove_2 in Hnd. intros H. apply Hnd.
    apply List.in_or_app. now right.
Qed.

(** ** The match of the regexp, and the cleaning of the file *)

Lemma leading_digits_split (s : string) :
  exists post,
    s = (leading_digits s ++ post)%string /\
    all_digits (leading_digits s) = true /\
    no_leading_digit post = true.
Proof.
  induction s as [|c s (post & Hs & Hd & Hp)].
  - exists EmptyString. auto.
  - cbn [leading_digits]. destruct (is_digit c) eqn:E.
    + exists post. cbn [all_digits]. rewrite E, Hd.
      split; [change (String c s = String c (leading_digits s ++ post)%string);
              now f_equal|auto].
    + exists (String c s). cbn [no_leading_digit]. rewrite E. auto.
Qed.

(** What [keepNumericRegex.FindString] returns is the leftmost run of
    digits of the string, taken as far as it goes: it is all digits, no
    digit stands before it, none follows it directly, and it is empty only
    if the string has no digit at all. *)
Theorem FindString_leftmost_run (s : string) :
  exists pre post,
    s = (pre ++ keepNumericRegex_FindString s ++ post)%string /\
    no_digits pre = true /\
    all_digits (keepNumericRegex_FindString s) = true /\
    no_leading_digit post = true /\
    (keepNumericRegex_FindString s = EmptyString <-> no_digits s = true).
Proof.
  induction s as [|c s (pre & post & Hs & Hpre & Hrun & Hpost & Hiff)].
  - exists EmptyString, EmptyString. repeat split; auto.
  - cbn [keepNumericRegex_FindString no_digits]. destruct (is_digit c) eqn:E.
    + destruct (leading_digits_split s) as (post' & Hs' & Hd & Hp).
      exists EmptyString, post'. cbn [all_digits]. rewrite E, Hd.
      split; [change (String c s = String c (leading_digits s ++ post')%string);
              now f_equal|].
      repeat split; auto; discriminate.
    + exists (String c pre), post. cbn [no_digits]. rewrite E.
      split; [change (String c s =
                      String c (pre ++ keepNumericRegex_FindString s ++ post)%string);
              now f_equal|].
      auto.
Qed.

Lemma strip_tab_cr_lf_app (a b : list byte) :
  strip_tab_cr_lf (a ++ b) = (strip_tab_cr_lf a ++ strip_tab_cr_lf b)%list.
Proof. apply List.filter_app. Qed.

Lemma strip_tab_cr_lf_all (ws : list byte) :
  List.forallb is_tab_cr_lf ws = true -> strip_tab_cr_lf ws = [].
Proof.
  induction ws as [|b ws IH]; simpl; [reflexivity|].
  destruct (is_tab_cr_lf b); simpl; [exact IH|discriminate].
Qed.

Lemma strip_tab_cr_lf_clean (bs : list byte) :
  List.Forall (fun b => is_tab_cr_lf b = false) (strip_tab_cr_lf bs).
Proof.
  apply List.Forall_forall. intros b Hb. apply List.filter_In in Hb as [_ Hb].
  now destruct (is_tab_cr_lf b).
Qed.

Lemma bom_Clean_suffix (bs : list byte) :
  exists front, bs = (front ++ bom_Clean bs)%list.
Proof.
  destruct bs as [|b1 [|b2 [|b3 bs]]]; try (now exists []).
  - simpl. destruct b1; now exists [].
  - simpl. destruct b1; try (now exists []). destruct b2; now exists [].
  - unfold bom_Clean.
    destruct b1; try (now exists []); destruct b2; try (now exists []);
      destruct b3; try (now exists []).
    now exists [xef; xbb; xbf].
Qed.

(** [Load] decodes the file without its tabs, carriage returns and line
    feeds, wherever they stand, and without a byte-order mark at its
    front: none of these bytes reaches the decoder, and two files that
    differ only in them load alike. *)
Theorem Load_cleans_the_file (cd : CarDetails) (fs fs' : node) (carName : string)
    (bytes bytes' : list byte) :
  ioutil_ReadFile fs (detailsFile carName) = Ok bytes ->
  ioutil_ReadFile fs' (detailsFile carName) = Ok bytes' ->
  (exists a ws b,
     List.forallb is_tab_cr_lf ws = true /\
     bytes = (a ++ b)%list /\ bytes' = (a ++ ws ++ b)%list) \/
  (bytes' = (xef :: xbb :: xbf :: bytes)%list /\
   bom_Clean (strip_tab_cr_lf bytes) = strip_tab_cr_lf bytes) ->
  CarDetails_Load cd fs' carName = CarDetails_Load cd fs carName /\
  List.Forall (fun b => is_tab_cr_lf b = false) (bom_Clean (strip_tab_cr_lf bytes)).
Proof.
  intros Hread Hread' Hdiff. split.
  - assert (Hclean : bom_Clean (strip_tab_cr_lf bytes') =
                     bom_Clean (strip_tab_cr_lf bytes)).
    { destruct Hdiff as [(a & ws & b & Hws & -> & ->)|[-> Hnobom]].
      - now rewrite !strip_tab_cr_lf_app, (strip_tab_cr_lf_all _ Hws).
      - rewrite Hnobom. reflexivity. }
    unfold CarDetails_Load. now rewrite Hread, Hread', Hclean.
  - destruct (bom_Clean_suffix (strip_tab_cr_lf bytes)) as (front & Hfront).
    pose proof (strip_tab_cr_lf_clean bytes) as Hall.
    rewrite Hfront in Hall. now apply List.Forall_app in Hall as [_ Hall].
Qed.

(** ** Saving and loading again *)

Lemma walk_mkdir_all_apart (common : list string) (a b : string) (p q : list string) :
  a <> b ->
  forall n n' m,
    mkdir_all (common ++ a :: p) n = Ok n' ->
    walk (common ++ b :: q) n = Ok m ->
    walk (common ++ b :: q) n' = Ok m.
Proof.
  intros Hab. induction common as [|x common IH]; intros n n' m.
  - cbn [app mkdir_all]. destruct n as [d|entries]; [discriminate|].
    destruct (mkdir_all p (default (Dir ∅) (entries !! a))) as [child| |];
      try discriminate.
    intros [= <-]. cbn [walk]. now rewrite lookup_insert_ne.
  - cbn [app mkdir_all walk]. destruct n as [d|entries]; [discriminate|].
    destruct (entries !! x) as [c|] eqn:E; [|discriminate].
    change (default (Dir ∅) (Some c)) with c.
    destruct (mkdir_all (common ++ a :: p) c) as [child| |] eqn:Em; try discriminate.
    intros [= <-] Hw. rewrite lookup_insert_eq. now apply (IH c).
Qed.

Lemma write_at_last_wins (path : list string) (d1 d2 : list byte) :
  forall n n1 n2,
    write_at path d1 n = Ok n1 ->
    write_at path d2 n1 = Ok n2 ->
    write_at path d2 n = Ok n2.
Proof.
  induction path as [|x rest IH]; intros n n1 n2; [discriminate|].
  destruct n as [d|entries]; [discriminate|].
  destruct rest as [|y rest].
  - cbn [write_at].
    destruct (entries !! x) as [[d|es]|] eqn:E; try discriminate;
      intros [= <-]; rewrite lookup_insert_eq; intros [= <-];
      now rewrite insert_insert_eq.
  - rewrite write_at_deep by discriminate.
    destruct (entries !! x) as [child|] eqn:E; [|discriminate].
    destruct (write_at (y :: rest) d1 child) as [c1| |] eqn:E1; try discriminate.
    intros [= <-]. rewrite write_at_deep by discriminate. rewrite lookup_insert_eq.
    destruct (write_at (y :: rest) d2 c1) as [c2| |] eqn:E2; try discriminate.
    intros [= <-]. rewrite write_at_deep by discriminate.
    rewrite E, (IH _ _ _ E1 E2). simpl. now rewrite insert_insert_eq.
Qed.

Lemma write_at_same (path : list string) (data : list byte) :
  path <> [] ->
  forall n, walk path n = Ok (File data) -> write_at path data n = Ok n.
Proof.
  induction path as [|x rest IH]; [congruence|]. intros _ n.
  destruct n as [d|entries]; [discriminate|].
  destruct rest as [|y rest].
  - cbn [walk write_at]. destruct (entries !! x) as [c|] eqn:E; [|discriminate].
    intros [= ->]. now rewrite insert_id.
  - cbn [walk]. rewrite write_at_deep by discriminate.
    destruct (entries !! x) as [c|] eqn:E; [|discriminate].
    intros Hw. rewrite (IH ltac:(discriminate) c Hw). simpl. now rewrite insert_id.
Qed.

Lemma write_at_over_file (path : list string) (old data : list byte) :
  forall n, walk path n = Ok (File old) -> path <> [] ->
            exists n', write_at path data n = Ok n'.
Proof.
  induction path as [|x rest IH]; intros n Hw Hne; [congruence|].
  destruct n as [d|entries]; [discriminate|].
  destruct rest as [|y rest].
  - cbn [walk write_at] in *. destruct (entries !! x) as [c|] eqn:E; [|discriminate].
    injection Hw as ->. eauto.
  - cbn [walk] in Hw. rewrite write_at_deep by discriminate.
    destruct (entries !! x) as [c|] eqn:E; [|discriminate].
    destruct (IH c Hw ltac:(discriminate)) as (c' & ->). simpl. eauto.
Qed.

Lemma detailsFile_car (carName : string) :
  detailsFile carName = (carDirectory carName ++ "ui" :: ["ui_car.json"])%list.
Proof.
  rewrite detailsFile_ui, uiDirectory_eq. now rewrite <- List.app_assoc.
Qed.

Lemma skinsDirectory_car (carName : string) :
  skinsDirectory carName = (carDirectory carName ++ "skins" :: [])%list.
Proof. apply skinsDirectory_eq. Qed.

Lemma write_file_keeps_skins (d d' : Disk) (carName : string) (data : list byte)
    (r : outcome unit) :
  write_file d (detailsFile carName) data = (d', r) ->
  walk (skinsDirectory carName) (root d') = walk (skinsDirectory carName) (root d).
Proof.
  unfold write_file. destruct (readonly d); [now intros [= <- _]|].
  destruct (write_at (detailsFile carName) data (root d)) as [n'| |] eqn:Hw;
    intros [= <- _]; try reflexivity.
  cbn [root]. rewrite detailsFile_car in Hw. rewrite skinsDirectory_car.
  eapply walk_write_at_apart; [|exact Hw]. discriminate.
Qed.

(** Saving the details of a car leaves its skins directory as it was. *)
Lemma CarDetails_Save_keeps_skins (cd : CarDetails) (d d' : Disk) (carName : string)
    (r : outcome unit) (m : node) :
  CarDetails_Save cd d carName = (d', r) ->
  walk (skinsDirectory carName) (root d) = Ok m ->
  walk (skinsDirectory carName) (root d') = Ok m.
Proof.
  unfold CarDetails_Save. rewrite detailsFile_eq. intros Hsave Hskins.
  destruct (os_MkdirAll d (uiDirectory carName)) as [d1 r1] eqn:Hmk.
  assert (H1 : walk (skinsDirectory carName) (root d1) = Ok m).
  { revert Hmk. unfold os_MkdirAll.
    destruct (walk (uiDirectory carName) (root d)) as [[data|es]|e|];
      try (now intros [= <- _]);
      (destruct (readonly d); [now intros [= <- _]|]);
      (destruct (mkdir_all (uiDirectory carName) (root d)) as [n'| |] eqn:Em;
       [|now intros [= <- _]..]);
      intros [= <- _]; cbn [root];
      rewrite uiDirectory_eq in Em; rewrite skinsDirectory_car in Hskins |- *;
      (eapply walk_mkdir_all_apart; [|exact Em|exact Hskins]); discriminate. }
  destruct r1 as [[]|e1|]; try (injection Hsave as <- _; exact H1).
  unfold os_Create in Hsave.
  destruct (write_file d1 (detailsFile carName) []) as [d2 r2] eqn:Hc.
  pose proof (write_file_keeps_skins _ _ _ _ _ Hc) as H2. rewrite H1 in H2.
  destruct r2 as [[]|e2|]; try (injection Hsave as <- _; exact H2).
  destruct (json_Encode cd) as [bytes|e3|]; try (injection Hsave as <- _; exact H2).
  apply write_file_keeps_skins in Hsave. now rewrite Hsave.
Qed.

Lemma CarDetails_Save_writable (cd : CarDetails) (d d' : Disk) (carName : string) :
  CarDetails_Save cd d carName = (d', Ok tt) -> readonly d' = false.
Proof.
  unfold CarDetails_Save.
  destruct (os_MkdirAll d (uiDirectory carName)) as [d1 [[]|e|]]; try discriminate.
  destruct (os_Create d1 _) as [d2 [[]|e|]]; try discriminate.
  destruct (json_Encode cd) as [bytes|e|]; try discriminate.
  intros Hw. now apply write_file_read in Hw.
Qed.

Lemma set_Specs_same (cd : CarDetails) : set_Specs cd (Specs cd) = cd.
Proof. now destruct cd. Qed.

(** When no decoding error is a not-exist error, the numeric specs of
    every loaded car are derived from its string specs. *)
Lemma LoadCar_Specs_derived (fs : node) (name : string) (tyres : Tyres) (car : Car) :
  (forall data cd err partial,
     json_Unmarshal data cd = DecodeError err partial -> os_IsNotExist err = false) ->
  LoadCar fs name tyres = Ok car ->
  Specs (car_Details car) = Numeric (SpecsFull (car_Details car)).
Proof.
  intros Hjson. unfold LoadCar, CarDetails_Load.
  destruct (ioutil_ReadDir fs (skinsDirectory name)) as [files| |]; simpl;
    try discriminate.
  destruct (ioutil_ReadFile fs (detailsFile name)) as [bytes|e|].
  - destruct (json_Unmarshal _ zeroCarDetails) as [raw| |e partial] eqn:Hdec;
      try discriminate.
    + now intros [= <-].
    + rewrite (Hjson _ _ _ _ Hdec). discriminate.
  - destruct (os_IsNotExist e); [|discriminate]. now intros [= <-].
  - discriminate.
Qed.

Lemma SaveCarDetails_inv (w w1 : World) (carName : string) (car : Car) :
  SaveCarDetails w carName car = (w1, Ok tt) ->
  exists d1 i,
    CarDetails_Save (car_Details car) (disk w) carName = (d1, Ok tt) /\
    carIndex w = Some i /\ opened i = true /\ car_Name car <> EmptyString /\
    w1 = mkWorld d1 (Some (mkIndex (<[car_Name car := car_Details car]> (docs i)) true)).
Proof.
  unfold SaveCarDetails.
  destruct (CarDetails_Save (car_Details car) (disk w) carName) as [d1 [[]|e|]] eqn:Hsave;
    try discriminate.
  unfold IndexCar, bleve_Index. simpl.
  destruct (carIndex w) as [i|] eqn:Hi; [|discriminate].
  destruct (String.eqb (car_Name car) EmptyString) eqn:Hname; [discriminate|].
  apply String.eqb_neq in Hname.
  destruct (opened i) eqn:Hopen; [|discriminate].
  intros [= <-]. exists d1, i. repeat split; (assumption || reflexivity).
Qed.

Lemma Save_then_LoadCar (cd : CarDetails) (d d1 : Disk) (carName : string) (car0 : Car)
    (tyres0 tyres : Tyres) :
  (forall bytes,
     json_Encode cd = Ok bytes ->
     json_Unmarshal (bom_Clean (strip_tab_cr_lf bytes)) zeroCarDetails = Decoded cd) ->
  LoadCar (root d) carName tyres0 = Ok car0 ->
  Specs cd = Numeric (SpecsFull cd) ->
  CarDetails_Save cd d carName = (d1, Ok tt) ->
  LoadCar (root d1) carName tyres =
    Ok (mkCar carName (car_Skins car0) (default ∅ (tyres !! carName)) cd).
Proof.
  intros Hcodec Hload0 Hspecs Hsave.
  apply LoadCar_inv in Hload0 as (files & Hread & _ & Hskins & _).
  destruct (ReadDir_inv _ _ _ Hread) as (entries & Hwalk & _).
  pose proof (CarDetails_Save_keeps_skins _ _ _ _ _ _ Hsave Hwalk) as Hwalk1.
  assert (Hread1 : ioutil_ReadDir (root d1) (skinsDirectory carName) = Ok files).
  { revert Hread. unfold ioutil_ReadDir. now rewrite Hwalk, Hwalk1. }
  apply CarDetails_Save_persists in Hsave as (bytes & Henc & Hfile).
  unfold LoadCar. rewrite Hread1. simpl.
  unfold CarDetails_Load. rewrite Hfile, (Hcodec _ Henc).
  now rewrite <- Hspecs, set_Specs_same, Hskins.
Qed.

(** After a successful [SaveCarDetails] of a car under its own name, with
    numeric specs that are the derived ones and details that the decoder
    reads back from their encoding, the disk and the index agree: the car
    loads with the saved details and the skins it had, and the index holds
    the same details under its name. *)
Theorem SaveCarDetails_in_sync (w w1 : World) (car car0 : Car) (tyres0 tyres : Tyres) :
  (forall bytes,
     json_Encode (car_Details car) = Ok bytes ->
     json_Unmarshal (bom_Clean (strip_tab_cr_lf bytes)) zeroCarDetails =
       Decoded (car_Details car)) ->
  LoadCar (root (disk w)) (car_Name car) tyres0 = Ok car0 ->
  Specs (car_Details car) = Numeric (SpecsFull (car_Details car)) ->
  SaveCarDetails w (car_Name car) car = (w1, Ok tt) ->
  LoadCar (root (disk w1)) (car_Name car) tyres =
    Ok (mkCar (car_Name car) (car_Skins car0) (default ∅ (tyres !! car_Name car))
          (car_Details car)) /\
  exists i1, carIndex w1 = Some i1 /\
             docs i1 !! car_Name car = Some (car_Details car).
Proof.
  intros Hcodec Hload0 Hspecs Hsave.
  apply SaveCarDetails_inv in Hsave as (d1 & i & Hsave & Hi & Hopen & _ & ->).
  cbn [disk carIndex]. split.
  - exact (Save_then_LoadCar _ _ _ _ _ _ _ Hcodec Hload0 Hspecs Hsave).
  - eexists. split; [reflexivity|]. simpl. apply lookup_insert_eq.
Qed.

Lemma CarDetails_Save_of_loaded (d d1 : Disk) (carName : string) (car0 : Car)
    (cd : CarDetails) :
  (forall bytes,
     json_Encode cd = Ok bytes ->
     json_Unmarshal (bom_Clean (strip_tab_cr_lf bytes)) zeroCarDetails = Decoded cd) ->
  (forall data cd err partial,
     json_Unmarshal data cd = DecodeError err partial -> os_IsNotExist err = false) ->
  LoadCar (root d) carName ∅ = Ok car0 ->
  SpecsFull cd = SpecsFull (car_Details car0) ->
  Specs cd = Specs (car_Details car0) ->
  CarDetails_Save cd d carName = (d1, Ok tt) ->
  LoadCar (root d1) carName ∅ = Ok (with_Details car0 cd).
Proof.
  intros Hcodec Hjson Hload0 Hfull Hsp Hsave.
  pose proof (LoadCar_Specs_derived _ _ _ _ Hjson Hload0) as H0.
  assert (Hspecs : Specs cd = Numeric (SpecsFull cd)) by (now rewrite Hfull, Hsp).
  rewrite (Save_then_LoadCar _ _ _ _ _ _ ∅ Hcodec Hload0 Hspecs Hsave).
  apply LoadCar_inv in Hload0 as (files & _ & Hname & _ & Htyres).
  unfold with_Details. now rewrite Hname, Htyres.
Qed.

Lemma SaveCarDetails_again (w : World) (car : Car) (i : Index) (bytes : list byte) :
  readonly (disk w) = false ->
  ioutil_ReadFile (root (disk w)) (detailsFile (car_Name car)) = Ok bytes ->
  json_Encode (car_Details car) = Ok bytes ->
  carIndex w = Some i -> opened i = true ->
  car_Name car <> EmptyString ->
  docs i !! car_Name car = Some (car_Details car) ->
  SaveCarDetails w (car_Name car) car = (w, Ok tt).
Proof.
  intros Hro Hread Henc Hi Hopen Hname Hdoc.
  assert (Hfile : walk (detailsFile (car_Name car)) (root (disk w)) = Ok (File bytes)).
  { revert Hread. unfold ioutil_ReadFile.
    destruct (walk (detailsFile (car_Name car)) (root (disk w))) as [[data|es]| |];
      simpl; try discriminate. now intros [= ->]. }
  assert (Hne : detailsFile (car_Name car) <> []).
  { rewrite detailsFile_ui. now destruct (uiDirectory (car_Name car)). }
  assert (Hui : exists u, walk (uiDirectory (car_Name car)) (root (disk w)) = Ok (Dir u)).
  { rewrite detailsFile_ui, walk_app in Hfile.
    destruct (walk (uiDirectory (car_Name car)) (root (disk w))) as [[data|u]| |];
      try discriminate. eauto. }
  destruct Hui as (u & Hui).
  destruct (write_at_over_file _ bytes [] _ Hfile Hne) as (n2 & Hw2).
  assert (Hfile2 : walk (detailsFile (car_Name car)) n2 = Ok (File [])).
  { now apply (write_at_walk _ _ _ _ Hw2). }
  destruct (write_at_over_file _ [] bytes _ Hfile2 Hne) as (n3 & Hw3).
  pose proof (write_at_last_wins _ _ _ _ _ _ Hw2 Hw3) as Hw.
  rewrite (write_at_same _ _ Hne _ Hfile) in Hw. injection Hw as <-.
  unfold SaveCarDetails, CarDetails_Save, os_MkdirAll.
  rewrite Hui, detailsFile_eq. unfold os_Create, write_file.
  rewrite Hro, Hw2, Henc. cbn [readonly root]. rewrite Hw3.
  unfold IndexCar, bleve_Index. cbn [carIndex disk].
  rewrite Hi, (eqb_EmptyString_false _ Hname), Hopen.
  rewrite (insert_id _ _ _ Hdoc).
  destruct w as [[r ro] ci]. cbn [disk root readonly carIndex] in Hro, Hi |- *.
  subst ro ci. destruct i as [ds op]. cbn [opened docs] in Hopen |- *.
  now subst op.
Qed.

(** [AddTag] of the manager, for a car whose details with the tag added
    the decoder reads back from their encoding, and with a decoder whose
    errors are no not-exist errors: after it succeeds the car loads with
    the tag among its tags and everything else as before, the index holds
    the very details the disk does, and adding the tag once more succeeds
    and changes nothing. *)
Theorem AddTag_in_sync_and_idempotent (w w1 : World) (carName tag : string)
    (car0 : Car) :
  LoadCar (root (disk w)) carName ∅ = Ok car0 ->
  (forall bytes,
     json_Encode (CarDetails_AddTag (car_Details car0) tag) = Ok bytes ->
     json_Unmarshal (bom_Clean (strip_tab_cr_lf bytes)) zeroCarDetails =
       Decoded (CarDetails_AddTag (car_Details car0) tag)) ->
  (forall data cd err partial,
     json_Unmarshal data cd = DecodeError err partial -> os_IsNotExist err = false) ->
  AddTag w carName tag = (w1, Ok tt) ->
  exists car1,
    LoadCar (root (disk w1)) carName ∅ = Ok car1 /\
    car_Details car1 = CarDetails_AddTag (car_Details car0) tag /\
    In tag (Tags (car_Details car1)) /\
    car_Skins car1 = car_Skins car0 /\
    (exists i1, carIndex w1 = Some i1 /\ docs i1 !! carName = Some (car_Details car1)) /\
    AddTag w1 carName tag = (w1, Ok tt).
Proof.
  intros Hload0 Hcodec Hjson Hadd.
  rewrite (AddTag_saves _ _ _ _ Hload0) in Hadd.
  set (cd1 := CarDetails_AddTag (car_Details car0) tag) in *.
  pose proof (LoadCar_Name _ _ _ _ Hload0) as Hname. subst carName.
  destruct (CarDetails_AddTag_frame (car_Details car0) tag)
    as (_ & _ & _ & _ & _ & _ & _ & Hfull & Hsp & _).
  apply SaveCarDetails_inv in Hadd as (d1 & i & Hsave & Hi & Hopen & Hne & ->).
  cbn [car_Details with_Details car_Name] in Hsave, Hne |- *.
  pose proof (CarDetails_Save_of_loaded (disk w) d1 (car_Name car0) car0 cd1 Hcodec
                Hjson Hload0 (eq_sym Hfull) (eq_sym Hsp) Hsave) as Hload1.
  pose proof (CarDetails_Save_writable _ _ _ _ Hsave) as Hro.
  apply CarDetails_Save_persists in Hsave as (bytes & Henc & Hread).
  set (i1 := mkIndex (<[car_Name car0 := cd1]> (docs i)) true).
  set (w1 := mkWorld d1 (Some i1)).
  set (car1 := with_Details car0 cd1) in *.
  assert (Hdoc1 : docs i1 !! car_Name car0 = Some cd1) by apply lookup_insert_eq.
  exists car1. split_and!.
  - exact Hload1.
  - reflexivity.
  - apply CarDetails_AddTag_In.
  - reflexivity.
  - exists i1. split; [reflexivity|exact Hdoc1].
  - change (LoadCar (root (disk w1)) (car_Name car0) ∅ = Ok car1) in Hload1.
    rewrite (AddTag_saves w1 _ _ _ Hload1).
    replace (with_Details car1 (CarDetails_AddTag (car_Details car1) tag)) with car1
      by (unfold car1, with_Details; cbn [car_Details car_Name car_Skins car_Tyres];
          unfold cd1; now rewrite CarDetails_AddTag_twice).
    apply (SaveCarDetails_again w1 car1 i1 bytes); try assumption; reflexivity.
Qed.

(** ** A manager without an index *)

(** A manager whose index was never opened, as [NewCarManager] makes it,
    panics wherever it uses the index, and it uses it last: a search panics
    at once; the build of the index panics unless no car is listed;
    deleting a listed car removes its directory from the disk and panics
    then; deleting another name panics with the disk as it was. *)
Theorem nil_index_panics (d : Disk) (ctx : context_Context) (term : string) (from : Z)
    (cars : list Car) :
  ListCars (root d) = Ok cars ->
  Search (NewCarManager d) ctx term from = Panic /\
  IndexAllCars (NewCarManager d) =
    (NewCarManager d, match cars with [] => Ok tt | _ :: _ => Panic end) /\
  (forall carName,
     In carName (List.map car_Name cars) -> readonly d = false ->
     exists d',
       DeleteCar (NewCarManager d) carName = (NewCarManager d', Panic) /\
       walk (carDirectory carName) (root d') = Err ENOENT) /\
  (forall carName,
     ~ In carName (List.map car_Name cars) ->
     DeleteCar (NewCarManager d) carName = (NewCarManager d, Panic)).
Proof.
  intros Hlist. split; [reflexivity|]. split; [|split].
  - unfold IndexAllCars. cbn [NewCarManager disk]. rewrite Hlist.
    now destruct cars.
  - intros carName Hin Hro. unfold DeleteCar. cbn [NewCarManager disk carIndex].
    rewrite Hlist, (DeleteCar_loop_present _ _ _ Hin).
    assert (Hdir : exists m, walk (carDirectory carName) (root d) = Ok m).
    { apply List.in_map_iff in Hin as (car & <- & Hcar).
      destruct (ListCars_listed_loads _ _ _ Hlist Hcar) as (tyres & Hload).
      destruct (LoadCar_reads_skins _ _ _ _ Hload) as (files & Hread).
      apply ReadDir_inv in Hread as (entries & Hs & _).
      rewrite skinsDirectory_eq, walk_app in Hs.
      destruct (walk (carDirectory (car_Name car)) (root d)) as [m|e|];
        try discriminate. eauto. }
    destruct Hdir as (m & Hdir).
    assert (Hrm : os_RemoveAll d (carDirectory carName) =
                  (mkDisk (remove_at (carDirectory carName) (root d)) (readonly d), Ok tt)).
    { unfold os_RemoveAll. now rewrite Hdir, Hro. }
    rewrite Hrm. eexists. split; [reflexivity|].
    apply (os_RemoveAll_gone _ _ _ (carDirectory_not_nil carName) Hrm).
  - intros carName Hnot. unfold DeleteCar. cbn [NewCarManager disk carIndex].
    now rewrite Hlist, (DeleteCar_loop_absent _ _ _ Hnot).
Qed.

(** ** Saved details and the loaded car *)

(** [DelTag] of the manager, for a car whose details with the tag taken
    out the decoder reads back from their encoding, and with a decoder
    whose errors are no not-exist errors: after it succeeds the car loads
    with [CarDetails.DelTag] applied to its details and everything else as
    before, and the index holds the very details the disk does. *)
Theorem DelTag_in_sync (w w1 : World) (carName tag : string) (car0 : Car) :
  LoadCar (root (disk w)) carName ∅ = Ok car0 ->
  (forall bytes,
     json_Encode (CarDetails_DelTag (car_Details car0) tag) = Ok bytes ->
     json_Unmarshal (bom_Clean (strip_tab_cr_lf bytes)) zeroCarDetails =
       Decoded (CarDetails_DelTag (car_Details car0) tag)) ->
  (forall data cd err partial,
     json_Unmarshal data cd = DecodeError err partial -> os_IsNotExist err = false) ->
  DelTag w carName tag = (w1, Ok tt) ->
  LoadCar (root (disk w1)) carName ∅ =
    Ok (with_Details car0 (CarDetails_DelTag (car_Details car0) tag)) /\
  (exists i1,
     carIndex w1 = Some i1 /\
     docs i1 !! carName = Some (CarDetails_DelTag (car_Details car0) tag)).
Proof.
  intros Hload0 Hcodec Hjson Hdel.
  rewrite (DelTag_saves _ _ _ _ Hload0) in Hdel.
  apply SaveCarDetails_inv in Hdel as (d1 & i & Hsave & Hi & Hopen & _ & ->).
  cbn [car_Details with_Details car_Name] in Hsave |- *.
  destruct (CarDetails_DelTag_frame (car_Details car0) tag)
    as (_ & _ & _ & _ & _ & _ & _ & Hfull & Hsp & _).
  split.
  - cbn [disk]. apply (CarDetails_Save_of_loaded (disk w) d1); auto.
  - eexists. split; [reflexivity|]. cbn [docs].
    rewrite (LoadCar_Name _ _ _ _ Hload0). apply lookup_insert_eq.
Qed.

(** [UpdateCarMetadata], for a car whose details with the notes and the
    download URL of the form the decoder reads back from their encoding:
    after it succeeds the car loads with these two fields set and
    everything else as before, skins included; the index is the one from
    before. *)
Theorem UpdateCarMetadata_on_disk (w w1 : World) (carName notes url : string)
    (car0 : Car) :
  LoadCar (root (disk w)) carName ∅ = Ok car0 ->
  (forall bytes,
     json_Encode (set_DownloadURL (set_Notes (car_Details car0) notes) url) = Ok bytes ->
     json_Unmarshal (bom_Clean (strip_tab_cr_lf bytes)) zeroCarDetails =
       Decoded (set_DownloadURL (set_Notes (car_Details car0) notes) url)) ->
  (forall data cd err partial,
     json_Unmarshal data cd = DecodeError err partial -> os_IsNotExist err = false) ->
  UpdateCarMetadata w carName notes url = (w1, Ok tt) ->
  LoadCar (root (disk w1)) carName ∅ =
    Ok (with_Details car0 (set_DownloadURL (set_Notes (car_Details car0) notes) url)) /\
  carIndex w1 = carIndex w.
Proof.
  intros Hload0 Hcodec Hjson. unfold UpdateCarMetadata. rewrite Hload0.
  cbn [car_Details with_Details].
  destruct (CarDetails_Save _ (disk w) carName) as [d1 r] eqn:Hsave.
  intros [= <- ->]. split; [|reflexivity].
  cbn [disk]. apply (CarDetails_Save_of_loaded (disk w) d1); auto.
Qed.

(** ** The range of the numeric specs *)

Lemma digit_value_digit (c : ascii) : is_digit c = true -> 0 <= digit_value c <= 9.
Proof.
  unfold is_digit, digit_value. intros H.
  apply andb_true_iff in H as [H1 H2].
  apply N.leb_le in H1, H2. lia.
Qed.

Lemma decimal_from_nonneg (s : string) :
  forall acc, all_digits s = true -> 0 <= acc -> 0 <= decimal_from acc s.
Proof.
  induction s as [|c s IH]; intros acc Hd Hacc; simpl; [exact Hacc|].
  simpl in Hd. apply andb_true_iff in Hd as [Hc Hs].
  apply IH; [exact Hs|]. pose proof (digit_value_digit c Hc). lia.
Qed.

Lemma toNumber_in_range (str : string) : 0 <= toNumber str <= maxInt.
Proof.
  assert (Hmax : 0 <= maxInt) by (unfold maxInt; lia).
  unfold toNumber, formValueAsInt.
  destruct (keepNumericRegex_FindString str) as [|c s]; [lia|].
  destruct (all_digits (String c s)) eqn:Hd; [|lia].
  destruct (decimal (String c s) <=? maxInt) eqn:Hle; [|lia].
  apply Z.leb_le in Hle. split; [|exact Hle].
  now apply decimal_from_nonneg.
Qed.

(** The numeric specs that [Numeric] derives are never negative and never
    above the largest [int], whatever the string specs say; so are those of
    every car that loads, when no decoding error is a not-exist error. *)
Theorem Numeric_in_range (cs : CarSpecs) :
  List.Forall (fun n => 0 <= n <= maxInt) (csn_fields (Numeric cs)) /\
  (forall fs name tyres car,
     (forall data cd err partial,
        json_Unmarshal data cd = DecodeError err partial -> os_IsNotExist err = false) ->
     LoadCar fs name tyres = Ok car ->
     List.Forall (fun n => 0 <= n <= maxInt) (csn_fields (Specs (car_Details car)))).
Proof.
  assert (H : forall cs', List.Forall (fun n => 0 <= n <= maxInt) (csn_fields (Numeric cs')))
    by (intros cs'; repeat constructor; apply toNumber_in_range).
  split; [apply H|].
  intros fs name tyres car Hjson Hload.
  rewrite (LoadCar_Specs_derived _ _ _ _ Hjson Hload). apply H.
Qed.

End Catalog.

(** * The properties on the small catalog *)

Lemma UpdateCarMetadata_leaves_index_witness :
  exists w',
    UpdateCarMetadata ex_prettifyName ex_Unmarshal ex_Encode
      ex_world "bmw_m3" "fast" "http://cars.example/bmw_m3.zip" = (w', Ok tt) /\
    (carIndex w' = carIndex ex_world /\
     exists car bytes,
       LoadCar ex_prettifyName ex_Unmarshal (root (disk ex_world)) "bmw_m3" ∅ = Ok car /\
       ex_Encode
         (set_DownloadURL (set_Notes (car_Details car) "fast")
            "http://cars.example/bmw_m3.zip") = Ok bytes /\
       ioutil_ReadFile (root (disk w')) (detailsFile "bmw_m3") = Ok bytes).
Proof.
  eexists. split; [vm_compute; reflexivity|].
  apply (UpdateCarMetadata_leaves_index ex_prettifyName ex_Unmarshal ex_Encode
           ex_world _ "bmw_m3" "fast" "http://cars.example/bmw_m3.zip").
  vm_compute. reflexivity.
Defined.

(** At that input the index knows nothing of the car after a successful
    update, where [AddTag] on the same car puts its details. *)
Lemma UpdateCarMetadata_index_has_no_entry :
  let w' := fst (UpdateCarMetadata ex_prettifyName ex_Unmarshal ex_Encode
                   ex_world "bmw_m3" "fast" "http://cars.example/bmw_m3.zip") in
  let w'' := fst (AddTag ex_prettifyName ex_Unmarshal ex_Encode ex_world "bmw_m3" "fast") in
  (exists i, carIndex w' = Some i /\ docs i !! "bmw_m3" = None) /\
  (exists i, carIndex w'' = Some i /\ is_Some (docs i !! "bmw_m3")).
Proof.
  split; eexists; (split; [vm_compute; reflexivity|]); vm_compute; eauto.
Qed.

Lemma DeleteCar_always_deindexes_witness :
  exists existingCars,
    "ghost" <> EmptyString /\
    ListCars ex_prettifyName ex_Unmarshal ex_ListTyres (root (disk ex_world))
      = Ok existingCars /\
    carIndex ex_world = Some ex_index /\
    opened ex_index = true /\
    (~ In "ghost" (List.map car_Name existingCars) ->
     DeleteCar ex_prettifyName ex_Unmarshal ex_ListTyres ex_world "ghost" =
       (mkWorld (disk ex_world)
          (Some (mkIndex (delete "ghost" (docs ex_index)) true)), Ok tt)) /\
    (forall d',
       In "ghost" (List.map car_Name existingCars) ->
       os_RemoveAll (disk ex_world) (carDirectory "ghost") = (d', Ok tt) ->
       DeleteCar ex_prettifyName ex_Unmarshal ex_ListTyres ex_world "ghost" =
         (mkWorld d' (Some (mkIndex (delete "ghost" (docs ex_index)) true)), Ok tt)).
Proof.
  eexists. split; [discriminate|]. split; [vm_compute; reflexivity|].
  split; [reflexivity|]. split; [reflexivity|].
  apply (DeleteCar_always_deindexes ex_prettifyName ex_Unmarshal ex_ListTyres
           ex_world "ghost" _ ex_index); [discriminate|reflexivity..].
Defined.

(** The empty name on that catalog: the index refuses it as an id, and
    neither the disk nor the index is changed. *)
Lemma DeleteCar_EmptyString_example :
  DeleteCar ex_prettifyName ex_Unmarshal ex_ListTyres ex_world EmptyString
    = (ex_world, Err ErrorEmptyID).
Proof. vm_compute. reflexivity. Qed.

(** A listed car: its tree is gone from the disk and its entry from the
    index. *)
Lemma DeleteCar_listed_example :
  exists w',
    DeleteCar ex_prettifyName ex_Unmarshal ex_ListTyres ex_world "abarth500"
      = (w', Ok tt) /\
    walk (carDirectory "abarth500") (root (disk w')) = Err ENOENT /\
    walk (carDirectory "bmw_m3") (root (disk w')) = Ok ex_bmw_m3 /\
    exists i, carIndex w' = Some i /\ docs i !! "abarth500" = None.
Proof.
  eexists. split; [vm_compute; reflexivity|].
  split; [vm_compute; reflexivity|]. split; [vm_compute; reflexivity|].
  eexists. split; [reflexivity|]. vm_compute. reflexivity.
Qed.

Lemma Load_recomputes_Specs_witness :
  exists cd',
    CarDetails_Load ex_Unmarshal zeroCarDetails ex_root "abarth500" = (cd', Ok tt) /\
    Specs cd' = Numeric (SpecsFull cd') /\
    csn_BHP (Specs cd') = 450 /\
    exists bytes decoded,
      ioutil_ReadFile ex_root (detailsFile "abarth500") = Ok bytes /\
      ex_Unmarshal (bom_Clean (strip_tab_cr_lf bytes)) zeroCarDetails = Decoded decoded /\
      csn_BHP (Specs decoded) = 1 /\
      cd' = set_Specs decoded (Numeric (SpecsFull decoded)).
Proof.
  eexists. split; [vm_compute; reflexivity|].
  destruct (Load_recomputes_Specs ex_Unmarshal zeroCarDetails _ ex_root "abarth500"
              eq_refl) as (Hspecs & bytes & decoded & Hread & Hdec & Hcd).
  split; [exact Hspecs|]. split; [reflexivity|].
  exists bytes, decoded. split; [exact Hread|]. split; [exact Hdec|].
  split; [|exact Hcd].
  vm_compute in Hread. injection Hread as <-. vm_compute in Hdec.
  injection Hdec as <-. reflexivity.
Defined.

Lemma toNumber_first_digit_run_witness :
  no_digits "about " = true /\
  all_digits "450" = true /\
  "450" <> EmptyString /\
  no_leading_digit " bhp" = true /\
  decimal "450" <= maxInt /\
  toNumber ("about " ++ "450" ++ " bhp") = decimal "450".
Proof.
  assert (Hne : "450" <> EmptyString) by discriminate.
  assert (Hmax : decimal "450" <= maxInt) by (vm_compute; discriminate).
  split; [reflexivity|]. split; [reflexivity|]. split; [exact Hne|].
  split; [reflexivity|]. split; [exact Hmax|].
  exact (proj1 toNumber_first_digit_run "about " "450" " bhp"
           eq_refl eq_refl Hne eq_refl Hmax).
Defined.

(** C4 as stated fails where the digit run denotes a number that is no
    [int]: twenty nines are normalised to 0. *)
Lemma toNumber_overlong_run :
  all_digits "99999999999999999999" = true /\
  decimal "99999999999999999999" = 99999999999999999999 /\
  toNumber "99999999999999999999 kg" = 0 /\
  toNumber "99999999999999999999 kg" <> decimal "99999999999999999999".
Proof. repeat split; try reflexivity. vm_compute. discriminate. Qed.


Lemma LoadCar_without_details_witness :
  walk (skinsDirectory "bmw_m3") ex_root = Ok (Dir (<["white" := Dir ∅]> ∅)) /\
  walk (detailsFile "bmw_m3") ex_root = Err ENOENT /\
  exists car,
    LoadCar ex_prettifyName ex_Unmarshal ex_root "bmw_m3" ∅ = Ok car /\
    car_Name car = "bmw_m3" /\
    car_Details car =
      mkCarDetails EmptyString EmptyString EmptyString EmptyString EmptyString
        (ex_prettifyName "bmw_m3" true) [] zeroCarSpecs zeroCarSpecsNumeric None []
        EmptyString EmptyString 0 EmptyString EmptyString.
Proof.
  split; [reflexivity|]. split; [reflexivity|].
  apply (LoadCar_without_details ex_prettifyName ex_Unmarshal ex_root "bmw_m3" ∅
           (<["white" := Dir ∅]> ∅)); reflexivity.
Defined.

(** C7 as stated fails where the product leaves [int]: for the largest page
    number the offset handed to the index is -50. *)
Lemma list_offset_wraps :
  formValueAsInt "9223372036854775807" = 9223372036854775807 /\
  list_offset 9223372036854775807 = -50 /\
  list_offset 9223372036854775807 <> 9223372036854775807 * 50.
Proof. repeat split; try reflexivity. vm_compute. discriminate. Qed.

(** Beyond 2^53 the conversion of the total to [float64] rounds, and the
    page count can fall one short of the quotient rounded up. *)
Lemma numPages_of_beyond_float64 :
  numPages_of 9007199254741001 = 180143985094820 /\
  50 * 180143985094820 < 9007199254741001.
Proof. split; [vm_compute; reflexivity|lia]. Qed.

Lemma list_pagination_witness :
  exists lp,
    minInt <= formValueAsInt "1" * 50 <= maxInt /\
    CarsHandler_list ex_prettifyName ex_Unmarshal unit ex_SearchInContext
      ex_world_clean tt EmptyString "1" = Ok lp /\
    (exists i,
       carIndex ex_world_clean = Some i /\
       ex_SearchInContext (docs i) tt MatchAllQuery 50 (formValueAsInt "1" * 50)
         = Ok (lp_Results lp)) /\
    lp_CurrentPage lp = formValueAsInt "1" /\
    (0 <= Total (lp_Results lp) < 2 ^ 53 ->
     50 * (lp_NumPages lp - 1) < Total (lp_Results lp) <= 50 * lp_NumPages lp) /\
    numPages_of 125 = 3.
Proof.
  eexists. split; [vm_compute; split; discriminate|].
  split; [vm_compute; reflexivity|].
  apply (list_pagination ex_prettifyName ex_Unmarshal unit ex_SearchInContext
           ex_world_clean tt EmptyString "1").
  - vm_compute. split; discriminate.
  - vm_compute. reflexivity.
Defined.

Lemma Search_fails_on_stale_hit_witness :
  exists results,
    carIndex ex_world = Some ex_index /\
    opened ex_index = true /\
    ex_SearchInContext (docs ex_index) tt MatchAllQuery searchPageSize 0 = Ok results /\
    In "ghost" (Hits results) /\
    is_Ok (LoadCar ex_prettifyName ex_Unmarshal (root (disk ex_world)) "ghost" ∅) = false /\
    (forall r,
       Search ex_prettifyName ex_Unmarshal unit ex_SearchInContext
         ex_world tt EmptyString 0 <> Ok r) /\
    Search ex_prettifyName ex_Unmarshal unit ex_SearchInContext
      ex_world tt EmptyString 0 = Err ENOENT.
Proof.
  eexists. split; [reflexivity|]. split; [reflexivity|].
  split; [vm_compute; reflexivity|].
  assert (Hin : In "ghost" ["abarth500"; "ghost"]) by (simpl; auto).
  split; [exact Hin|]. split; [reflexivity|].
  split; [|vm_compute; reflexivity].
  exact (proj1 (Search_fails_on_stale_hit ex_prettifyName ex_Unmarshal unit
                  ex_SearchInContext ex_world tt EmptyString 0 ex_index
                  (mkSearchResult ["abarth500"; "ghost"] 2) "ghost"
                  eq_refl eq_refl eq_refl Hin eq_refl)).
Defined.

Lemma tag_operations_keep_other_fields_witness :
  exists car w',
    LoadCar ex_prettifyName ex_Unmarshal (root (disk ex_world)) "abarth500" ∅ = Ok car /\
    AddTag ex_prettifyName ex_Unmarshal ex_Encode ex_world "abarth500" "fast"
      = (w', Ok tt) /\
    exists saved bytes,
      saved = CarDetails_AddTag (car_Details car) "fast" /\
      Tags saved = ["fast"] /\
      same_except_Tags (car_Details car) saved /\
      ex_Encode saved = Ok bytes /\
      ioutil_ReadFile (root (disk w')) (detailsFile "abarth500") = Ok bytes.
Proof.
  eexists. eexists. split; [vm_compute; reflexivity|].
  split; [vm_compute; reflexivity|].
  destruct (proj1 (tag_operations_keep_other_fields ex_prettifyName ex_Unmarshal
                     ex_Encode ex_world "abarth500" "fast" _ eq_refl) _ eq_refl)
    as (saved & bytes & Hsaved & Hframe & Henc & Hread).
  exists saved, bytes. split; [exact Hsaved|].
  split; [rewrite Hsaved; reflexivity|]. auto.
Defined.

Lemma DeleteCar_without_skins_keeps_directory_witness :
  exists existingCars,
    "ghost" <> EmptyString /\
    ListCars ex_prettifyName ex_Unmarshal ex_ListTyres (root (disk ex_world))
      = Ok existingCars /\
    carIndex ex_world = Some ex_index /\
    opened ex_index = true /\
    walk (carDirectory "ghost") (root (disk ex_world)) = Ok (Dir (<["ui" := Dir ∅]> ∅)) /\
    (<["ui" := Dir ∅]> ∅ : gmap string node) !! "skins" = None /\
    exists w',
      DeleteCar ex_prettifyName ex_Unmarshal ex_ListTyres ex_world "ghost" = (w', Ok tt) /\
      disk w' = disk ex_world /\
      walk (carDirectory "ghost") (root (disk w')) = Ok (Dir (<["ui" := Dir ∅]> ∅)) /\
      exists i', carIndex w' = Some i' /\ docs i' = delete "ghost" (docs ex_index).
Proof.
  eexists. split; [discriminate|]. split; [vm_compute; reflexivity|].
  split; [reflexivity|]. split; [reflexivity|]. split; [reflexivity|].
  split; [reflexivity|].
  eapply (DeleteCar_without_skins_keeps_directory ex_prettifyName ex_Unmarshal
            ex_ListTyres ex_world "ghost" _ ex_index (<["ui" := Dir ∅]> ∅));
    [discriminate|vm_compute; reflexivity|reflexivity..].
Defined.

(** ** The codec that reads back what it wrote *)

Lemma ex_of_digits_digits (p : positive) : ex_of_digits (ex_digits p) = Some p.
Proof. induction p as [p IH|p IH|]; simpl; [now rewrite IH..|reflexivity]. Qed.

Lemma strip_tab_cr_lf_digits (p : positive) :
  strip_tab_cr_lf (ex_digits p) = ex_digits p.
Proof.
  unfold strip_tab_cr_lf.
  induction p as [p IH|p IH|]; cbn; [now rewrite IH..|reflexivity].
Qed.

Lemma ex_codec_round_trip (cd : CarDetails) (bytes : list byte) :
  ex_Encode_digits cd = Ok bytes ->
  ex_Unmarshal_digits (bom_Clean (strip_tab_cr_lf bytes)) zeroCarDetails = Decoded cd.
Proof.
  unfold ex_Encode_digits.
  destruct (List.forallb _ _); [|discriminate]. intros [= <-].
  assert (Hs : strip_tab_cr_lf (x7b :: ex_digits (encode (ex_fields cd))) =
               x7b :: ex_digits (encode (ex_fields cd))).
  { change (x7b :: ex_digits (encode (ex_fields cd)))
      with ([x7b] ++ ex_digits (encode (ex_fields cd)))%list.
    now rewrite strip_tab_cr_lf_app, strip_tab_cr_lf_digits. }
  rewrite Hs.
  assert (Hb : forall bs, bom_Clean (x7b :: bs) = x7b :: bs).
  { intros [|b2 [|b3 bs]]; reflexivity. }
  rewrite Hb. unfold ex_Unmarshal_digits, ex_parse.
  change (Byte.eqb x7b x7b) with true. cbv iota.
  rewrite ex_of_digits_digits, decode_encode.
  now destruct cd as [? ? ? ? ? ? ? [] [] ? ? ? ? ? ? ?].
Qed.

Lemma ex_codec_errors (data : list byte) (cd : CarDetails) (err : error)
    (partial : CarDetails) :
  ex_Unmarshal_digits data cd = DecodeError err partial -> os_IsNotExist err = false.
Proof.
  unfold ex_Unmarshal_digits. destruct data as [|b bs]; [now intros [= <- _]|].
  destruct (Byte.eqb b x7b); [|now intros [= <- _]].
  destruct (ex_parse bs); [discriminate|now intros [= <- _]].
Qed.

(** ** The further properties on the catalog *)

Lemma CarDetails_DelTag_AddTag_witness :
  ~ In "fast" (Tags zeroCarDetails) /\
  CarDetails_DelTag (CarDetails_AddTag zeroCarDetails "fast") "fast" =
    set_Tags zeroCarDetails (Tags zeroCarDetails) /\
  (Tags_slice zeroCarDetails <> None ->
   CarDetails_DelTag (CarDetails_AddTag zeroCarDetails "fast") "fast" = zeroCarDetails) /\
  (Tags_slice zeroCarDetails = None ->
   Tags_slice (CarDetails_DelTag (CarDetails_AddTag zeroCarDetails "fast") "fast")
     = Some [] /\
   CarDetails_DelTag (CarDetails_AddTag zeroCarDetails "fast") "fast" <> zeroCarDetails).
Proof.
  assert (H : ~ In "fast" (Tags zeroCarDetails)) by (intros []).
  split; [exact H|exact (CarDetails_DelTag_AddTag _ _ H)].
Defined.

Lemma LoadCar_skins_witness :
  exists car,
    LoadCar ex_prettifyName ex_Unmarshal ex_root "abarth500" ∅ = Ok car /\
    exists entries,
      walk (skinsDirectory "abarth500") ex_root = Ok (Dir entries) /\
      (forall skin,
         In skin (car_Skins car) <-> exists es, entries !! skin = Some (Dir es)) /\
      List.NoDup (car_Skins car) /\
      StronglySorted (fun a b => String.leb a b = true) (car_Skins car) /\
      car_Tyres car = default ∅ ((∅ : Tyres) !! "abarth500").
Proof.
  eexists. split; [vm_compute; reflexivity|].
  apply (LoadCar_skins ex_prettifyName ex_Unmarshal ex_root "abarth500" ∅).
  vm_compute; reflexivity.
Defined.

Lemma ListCars_exact_witness :
  exists cars,
    ListCars ex_prettifyName ex_Unmarshal ex_ListTyres ex_root = Ok cars /\
    exists carsDir tyres,
      walk (filepath_Join ["content"; "cars"]) ex_root = Ok (Dir carsDir) /\
      ex_ListTyres ex_root = Ok tyres /\
      List.NoDup (List.map car_Name cars) /\
      forall car,
        In car cars <->
        (exists es, carsDir !! car_Name car = Some (Dir es)) /\
        LoadCar ex_prettifyName ex_Unmarshal ex_root (car_Name car) tyres = Ok car.
Proof.
  eexists. split; [vm_compute; reflexivity|].
  apply (ListCars_exact ex_prettifyName ex_Unmarshal ex_ListTyres ex_root).
  vm_compute; reflexivity.
Defined.

Lemma unloadable_car_blocks_witness :
  walk (filepath_Join ["content"; "cars"]) (root (disk ex_world_broken)) =
    Ok (Dir (<["abarth500" := ex_abarth500]> (<["broken" := ex_broken]> ∅))) /\
  (<["abarth500" := ex_abarth500]> (<["broken" := ex_broken]> ∅) : gmap string node)
    !! "broken" =
    Some (Dir (<["skins" := Dir ∅]>
              (<["ui" := Dir (<["ui_car.json" := File []]> ∅)]> ∅))) /\
  ex_ListTyres (root (disk ex_world_broken)) = Ok ∅ /\
  is_Ok (LoadCar ex_prettifyName ex_Unmarshal (root (disk ex_world_broken)) "broken" ∅)
    = false /\
  LoadCar ex_prettifyName ex_Unmarshal (root (disk ex_world_broken)) "broken" ∅
    <> Err ENOENT /\
  is_Ok (ListCars ex_prettifyName ex_Unmarshal ex_ListTyres (root (disk ex_world_broken)))
    = false /\
  (forall carName,
     fst (DeleteCar ex_prettifyName ex_Unmarshal ex_ListTyres ex_world_broken carName)
       = ex_world_broken /\
     is_Ok (snd (DeleteCar ex_prettifyName ex_Unmarshal ex_ListTyres ex_world_broken
                   carName)) = false) /\
  (fst (IndexAllCars ex_prettifyName ex_Unmarshal ex_ListTyres ex_world_broken)
     = ex_world_broken /\
   is_Ok (snd (IndexAllCars ex_prettifyName ex_Unmarshal ex_ListTyres ex_world_broken))
     = false).
Proof.
  assert (Hne : LoadCar ex_prettifyName ex_Unmarshal (root (disk ex_world_broken))
                  "broken" ∅ <> Err ENOENT) by (vm_compute; discriminate).
  split; [vm_compute; reflexivity|]. split; [vm_compute; reflexivity|].
  split; [reflexivity|]. split; [vm_compute; reflexivity|]. split; [exact Hne|].
  apply (unloadable_car_blocks ex_prettifyName ex_Unmarshal ex_ListTyres ex_world_broken
           (<["abarth500" := ex_abarth500]> (<["broken" := ex_broken]> ∅))
           (<["skins" := Dir ∅]> (<["ui" := Dir (<["ui_car.json" := File []]> ∅)]> ∅))
           ∅ "broken");
    [vm_compute; reflexivity|vm_compute; reflexivity|reflexivity
    |vm_compute; reflexivity|exact Hne].
Defined.



Lemma DeleteCar_readonly_witness :
  exists existingCars,
    readonly (disk ex_world_readonly) = true /\
    ListCars ex_prettifyName ex_Unmarshal ex_ListTyres (root (disk ex_world_readonly))
      = Ok existingCars /\
    In "abarth500" (List.map car_Name existingCars) /\
    DeleteCar ex_prettifyName ex_Unmarshal ex_ListTyres ex_world_readonly "abarth500"
      = (ex_world_readonly, Err EROFS).
Proof.
  eexists. split; [reflexivity|]. split; [vm_compute; reflexivity|].
  split; [vm_compute; auto|].
  eapply (DeleteCar_readonly ex_prettifyName ex_Unmarshal ex_ListTyres ex_world_readonly
            "abarth500"); [reflexivity|vm_compute; reflexivity|vm_compute; auto].
Defined.

Lemma IndexAllCars_puts_all_witness :
  exists cars,
    carIndex ex_world = Some ex_index /\
    opened ex_index = true /\
    ListCars ex_prettifyName ex_Unmarshal ex_ListTyres (root (disk ex_world)) = Ok cars /\
    ~ In EmptyString (List.map car_Name cars) /\
    (~ In EmptyString (List.map car_Name cars) ->
     exists i',
       IndexAllCars ex_prettifyName ex_Unmarshal ex_ListTyres ex_world =
         (mkWorld (disk ex_world) (Some i'), Ok tt) /\
       (forall car, In car cars -> docs i' !! car_Name car = Some (car_Details car)) /\
       (forall name, ~ In name (List.map car_Name cars) ->
          docs i' !! name = docs ex_index !! name)) /\
    (In EmptyString (List.map car_Name cars) ->
     exists i',
       IndexAllCars ex_prettifyName ex_Unmarshal ex_ListTyres ex_world =
         (mkWorld (disk ex_world) (Some i'), Err ErrorEmptyID)).
Proof.
  eexists. split; [reflexivity|]. split; [reflexivity|].
  split; [vm_compute; reflexivity|].
  split; [simpl; intros [H|[H|[]]]; discriminate H|].
  apply (IndexAllCars_puts_all ex_prettifyName ex_Unmarshal ex_ListTyres ex_world ex_index);
    [reflexivity|reflexivity|vm_compute; reflexivity].
Defined.

(** An entry of the empty name next to one called [skins], which no disk
    has: the listing has a car of the empty name, and the index refuses
    it. *)
Lemma IndexAllCars_EmptyString_example :
  exists i',
    IndexAllCars ex_prettifyName ex_Unmarshal ex_ListTyres
      (mkWorld
         (mkDisk
            (Dir {[ "content" :=
                      Dir {[ "cars" :=
                               Dir (<[ EmptyString := Dir ∅ ]> {[ "skins" := Dir ∅ ]}) ]} ]})
            false)
         (Some (mkIndex ∅ true))) =
      (mkWorld
         (mkDisk
            (Dir {[ "content" :=
                      Dir {[ "cars" :=
                               Dir (<[ EmptyString := Dir ∅ ]> {[ "skins" := Dir ∅ ]}) ]} ]})
            false)
         (Some i'), Err ErrorEmptyID).
Proof. eexists. vm_compute. reflexivity. Qed.

Lemma CreateOrOpenSearchIndex_builds_witness :
  exists cars,
    ListCars ex_prettifyName ex_Unmarshal ex_ListTyres
      (root (disk (NewCarManager (disk ex_world)))) = Ok cars /\
    ~ In EmptyString (List.map car_Name cars) /\
    (~ In EmptyString (List.map car_Name cars) ->
     exists i',
       CreateOrOpenSearchIndex ex_prettifyName ex_Unmarshal ex_ListTyres
         ErrorIndexPathDoesNotExist (Ok (mkIndex ∅ true)) (NewCarManager (disk ex_world)) =
         (mkWorld (disk (NewCarManager (disk ex_world))) (Some i'), Ok tt) /\
       forall name cd,
         docs i' !! name = Some cd <->
         exists car, In car cars /\ car_Name car = name /\ car_Details car = cd) /\
    (In EmptyString (List.map car_Name cars) ->
     exists i',
       CreateOrOpenSearchIndex ex_prettifyName ex_Unmarshal ex_ListTyres
         ErrorIndexPathDoesNotExist (Ok (mkIndex ∅ true)) (NewCarManager (disk ex_world)) =
         (mkWorld (disk (NewCarManager (disk ex_world))) (Some i'), Err ErrorEmptyID)) /\
    (forall i new,
       CreateOrOpenSearchIndex ex_prettifyName ex_Unmarshal ex_ListTyres (Opens i) new
         (NewCarManager (disk ex_world)) =
         (mkWorld (disk (NewCarManager (disk ex_world))) (Some i), Ok tt)).
Proof.
  eexists. split; [vm_compute; reflexivity|].
  split; [simpl; intros [H|[H|[]]]; discriminate H|].
  apply (CreateOrOpenSearchIndex_builds ex_prettifyName ex_Unmarshal ex_ListTyres
           (NewCarManager (disk ex_world))).
  vm_compute; reflexivity.
Defined.

Lemma CreateOrOpenSearchIndex_failed_build_witness :
  is_Ok (ListCars ex_prettifyName ex_Unmarshal ex_ListTyres
           (root (disk (NewCarManager (disk ex_world_broken))))) = false /\
  let '(w1, r1) :=
    CreateOrOpenSearchIndex ex_prettifyName ex_Unmarshal ex_ListTyres
      ErrorIndexPathDoesNotExist (Ok (mkIndex ∅ true))
      (NewCarManager (disk ex_world_broken)) in
  is_Ok r1 = false /\
  carIndex w1 = Some (mkIndex ∅ true) /\
  CreateOrOpenSearchIndex ex_prettifyName ex_Unmarshal ex_ListTyres
    (Opens (mkIndex ∅ true)) (Err EJSON) w1 =
    (mkWorld (disk (NewCarManager (disk ex_world_broken))) (Some (mkIndex ∅ true)), Ok tt).
Proof.
  split; [vm_compute; reflexivity|].
  apply (CreateOrOpenSearchIndex_failed_build ex_prettifyName ex_Unmarshal ex_ListTyres
           (NewCarManager (disk ex_world_broken)) (Err EJSON)).
  vm_compute; reflexivity.
Defined.

Lemma Search_returns_the_hits_witness :
  exists results cars,
    Search ex_prettifyName ex_Unmarshal unit ex_SearchInContext ex_world_clean tt
      EmptyString 0 = Ok (results, cars) /\
    (exists i,
       carIndex ex_world_clean = Some i /\ opened i = true /\
       ex_SearchInContext (docs i) tt
         (if String.eqb EmptyString EmptyString
          then MatchAllQuery else QueryStringQuery EmptyString) 50 0 = Ok results) /\
    (forall id car,
       cars !! id = Some car <->
       In id (Hits results) /\
       LoadCar ex_prettifyName ex_Unmarshal (root (disk ex_world_clean)) id ∅ = Ok car) /\
    (forall id car, cars !! id = Some car -> car_Name car = id /\ car_Tyres car = ∅).
Proof.
  eexists. eexists. split; [vm_compute; reflexivity|].
  apply (Search_returns_the_hits ex_prettifyName ex_Unmarshal unit ex_SearchInContext
           ex_world_clean tt EmptyString 0).
  vm_compute; reflexivity.
Defined.

Lemma CarDetails_Save_succeeds_witness :
  readonly (disk ex_world_clean) = false /\
  ex_Encode (set_Name zeroCarDetails "M3") = Ok (list_byte_of_string "M3") /\
  walk (carDirectory "bmw_m3") (root (disk ex_world_clean)) =
    Ok (Dir (<["skins" := Dir (<["white" := Dir ∅]> ∅)]> ∅)) /\
  (forall data,
     (<["skins" := Dir (<["white" := Dir ∅]> ∅)]> ∅ : gmap string node) !! "ui"
       <> Some (File data)) /\
  (forall ui sub,
     (<["skins" := Dir (<["white" := Dir ∅]> ∅)]> ∅ : gmap string node) !! "ui"
       = Some (Dir ui) ->
     ui !! "ui_car.json" <> Some (Dir sub)) /\
  exists d',
    CarDetails_Save ex_Encode (set_Name zeroCarDetails "M3") (disk ex_world_clean) "bmw_m3"
      = (d', Ok tt) /\
    ioutil_ReadFile (root d') (detailsFile "bmw_m3") = Ok (list_byte_of_string "M3").
Proof.
  assert (H1 : forall data,
             (<["skins" := Dir (<["white" := Dir ∅]> ∅)]> ∅ : gmap string node) !! "ui"
               <> Some (File data)) by (intros data; vm_compute; discriminate).
  assert (H2 : forall ui sub,
             (<["skins" := Dir (<["white" := Dir ∅]> ∅)]> ∅ : gmap string node) !! "ui"
               = Some (Dir ui) ->
             ui !! "ui_car.json" <> Some (Dir sub))
    by (intros ui sub H; vm_compute in H; discriminate H).
  split; [reflexivity|]. split; [vm_compute; reflexivity|].
  split; [vm_compute; reflexivity|]. split; [exact H1|]. split; [exact H2|].
  apply (CarDetails_Save_succeeds ex_Encode (set_Name zeroCarDetails "M3")
           (disk ex_world_clean) "bmw_m3"
           (<["skins" := Dir (<["white" := Dir ∅]> ∅)]> ∅) (list_byte_of_string "M3"));
    [reflexivity|vm_compute; reflexivity|vm_compute; reflexivity|exact H1|exact H2].
Defined.

Lemma CarDetails_Save_readonly_witness :
  readonly (disk ex_world_readonly) = true /\
  exists err,
    CarDetails_Save ex_Encode zeroCarDetails (disk ex_world_readonly) "abarth500"
      = (disk ex_world_readonly, Err err).
Proof.
  split; [reflexivity|].
  apply (CarDetails_Save_readonly ex_Encode zeroCarDetails (disk ex_world_readonly)
           "abarth500").
  reflexivity.
Defined.

Lemma CarDetails_Save_encode_error_witness :
  readonly (disk ex_world_clean) = false /\
  ioutil_ReadFile (root (disk ex_world_clean)) (detailsFile "abarth500")
    = Ok (list_byte_of_string "450 bhp") /\
  ex_Encode_digits ex_details_bad_curve = Err EJSON /\
  exists d',
    CarDetails_Save ex_Encode_digits ex_details_bad_curve (disk ex_world_clean) "abarth500"
      = (d', Err EJSON) /\
    ioutil_ReadFile (root d') (detailsFile "abarth500") = Ok [].
Proof.
  split; [reflexivity|]. split; [vm_compute; reflexivity|].
  split; [vm_compute; reflexivity|].
  apply (CarDetails_Save_encode_error ex_Encode_digits ex_details_bad_curve
           (disk ex_world_clean) "abarth500" (list_byte_of_string "450 bhp") EJSON);
    [reflexivity|vm_compute; reflexivity|vm_compute; reflexivity].
Defined.

Lemma CarDetails_Save_then_Load_witness :
  exists d',
    (forall bytes,
       ex_Encode_digits (set_Name zeroCarDetails "M3") = Ok bytes ->
       ex_Unmarshal_digits (bom_Clean (strip_tab_cr_lf bytes)) zeroCarDetails =
         Decoded (set_Name zeroCarDetails "M3")) /\
    CarDetails_Save ex_Encode_digits (set_Name zeroCarDetails "M3") (disk ex_world_clean)
      "bmw_m3" = (d', Ok tt) /\
    CarDetails_Load ex_Unmarshal_digits zeroCarDetails (root d') "bmw_m3" =
      (set_Specs (set_Name zeroCarDetails "M3")
         (Numeric (SpecsFull (set_Name zeroCarDetails "M3"))), Ok tt).
Proof.
  eexists. split; [exact (ex_codec_round_trip (set_Name zeroCarDetails "M3"))|].
  split; [vm_compute; reflexivity|].
  apply (CarDetails_Save_then_Load ex_Unmarshal_digits ex_Encode_digits
           (set_Name zeroCarDetails "M3") zeroCarDetails (disk ex_world_clean) _ "bmw_m3");
    [exact (ex_codec_round_trip (set_Name zeroCarDetails "M3"))|vm_compute; reflexivity].
Defined.

Lemma SaveCarDetails_no_rollback_witness :
  exists d',
    CarDetails_Save ex_Encode (set_Name zeroCarDetails "M3")
      (disk (NewCarManager (disk ex_world_clean))) "bmw_m3" = (d', Ok tt) /\
    (exists bytes,
       ex_Encode (set_Name zeroCarDetails "M3") = Ok bytes /\
       ioutil_ReadFile (root d') (detailsFile "bmw_m3") = Ok bytes) /\
    (carIndex (NewCarManager (disk ex_world_clean)) = None ->
     SaveCarDetails ex_Encode (NewCarManager (disk ex_world_clean)) "bmw_m3"
       (mkCar "bmw_m3" ["white"] ∅ (set_Name zeroCarDetails "M3")) =
       (mkWorld d' None, Panic)) /\
    (forall i,
       carIndex (NewCarManager (disk ex_world_clean)) = Some i ->
       car_Name (mkCar "bmw_m3" ["white"] ∅ (set_Name zeroCarDetails "M3")) = EmptyString ->
       SaveCarDetails ex_Encode (NewCarManager (disk ex_world_clean)) "bmw_m3"
         (mkCar "bmw_m3" ["white"] ∅ (set_Name zeroCarDetails "M3")) =
         (mkWorld d' (Some i), Err ErrorEmptyID)) /\
    (forall i,
       carIndex (NewCarManager (disk ex_world_clean)) = Some i ->
       car_Name (mkCar "bmw_m3" ["white"] ∅ (set_Name zeroCarDetails "M3")) <> EmptyString ->
       opened i = false ->
       SaveCarDetails ex_Encode (NewCarManager (disk ex_world_clean)) "bmw_m3"
         (mkCar "bmw_m3" ["white"] ∅ (set_Name zeroCarDetails "M3")) =
         (mkWorld d' (Some i), Err ErrorIndexClosed)).
Proof.
  eexists. split; [vm_compute; reflexivity|].
  apply (SaveCarDetails_no_rollback ex_Encode (NewCarManager (disk ex_world_clean))
           "bmw_m3" (mkCar "bmw_m3" ["white"] ∅ (set_Name zeroCarDetails "M3"))).
  vm_compute; reflexivity.
Defined.

(** A car of the empty name saved under the name of a directory, with the
    index closed: the file is written, and the error is the one for the
    empty id, not the one for the closed index. *)
Lemma SaveCarDetails_EmptyString_example :
  exists d',
    SaveCarDetails ex_Encode (mkWorld (disk ex_world_clean) (Some (mkIndex ∅ false)))
      "bmw_m3" (mkCar EmptyString [] ∅ (set_Name zeroCarDetails "M3")) =
      (mkWorld d' (Some (mkIndex ∅ false)), Err ErrorEmptyID) /\
    ioutil_ReadFile (root d') (detailsFile "bmw_m3") =
      ex_Encode (set_Name zeroCarDetails "M3").
Proof. eexists. split; vm_compute; reflexivity. Qed.

Lemma operations_on_missing_car_witness :
  walk (skinsDirectory "ghost") (root (disk ex_world)) = Err ENOENT /\
  AddTag ex_prettifyName ex_Unmarshal ex_Encode ex_world "ghost" "fast"
    = (ex_world, Err ENOENT) /\
  DelTag ex_prettifyName ex_Unmarshal ex_Encode ex_world "ghost" "fast"
    = (ex_world, Err ENOENT) /\
  UpdateCarMetadata ex_prettifyName ex_Unmarshal ex_Encode ex_world "ghost" "a note"
    "http://example.com/ghost.zip" = (ex_world, Err ENOENT).
Proof.
  split; [vm_compute; reflexivity|].
  apply (operations_on_missing_car ex_prettifyName ex_Unmarshal ex_Encode ex_world "ghost").
  vm_compute; reflexivity.
Defined.

Lemma Load_cleans_the_file_witness :
  ioutil_ReadFile ex_root_clean (detailsFile "abarth500")
    = Ok (list_byte_of_string "450 bhp") /\
  ioutil_ReadFile ex_root_spaced (detailsFile "abarth500")
    = Ok (list_byte_of_string "450 " ++ [x09; x0d; x0a] ++ list_byte_of_string "bhp")%list /\
  ((exists a ws b,
      List.forallb is_tab_cr_lf ws = true /\
      list_byte_of_string "450 bhp" = (a ++ b)%list /\
      (list_byte_of_string "450 " ++ [x09; x0d; x0a] ++ list_byte_of_string "bhp")%list
        = (a ++ ws ++ b)%list) \/
   ((list_byte_of_string "450 " ++ [x09; x0d; x0a] ++ list_byte_of_string "bhp")%list
      = (xef :: xbb :: xbf :: list_byte_of_string "450 bhp")%list /\
    bom_Clean (strip_tab_cr_lf (list_byte_of_string "450 bhp"))
      = strip_tab_cr_lf (list_byte_of_string "450 bhp"))) /\
  CarDetails_Load ex_Unmarshal zeroCarDetails ex_root_spaced "abarth500" =
    CarDetails_Load ex_Unmarshal zeroCarDetails ex_root_clean "abarth500" /\
  List.Forall (fun b => is_tab_cr_lf b = false)
    (bom_Clean (strip_tab_cr_lf (list_byte_of_string "450 bhp"))).
Proof.
  assert (Hdiff :
    (exists a ws b,
       List.forallb is_tab_cr_lf ws = true /\
       list_byte_of_string "450 bhp" = (a ++ b)%list /\
       (list_byte_of_string "450 " ++ [x09; x0d; x0a] ++ list_byte_of_string "bhp")%list
         = (a ++ ws ++ b)%list) \/
    ((list_byte_of_string "450 " ++ [x09; x0d; x0a] ++ list_byte_of_string "bhp")%list
       = (xef :: xbb :: xbf :: list_byte_of_string "450 bhp")%list /\
     bom_Clean (strip_tab_cr_lf (list_byte_of_string "450 bhp"))
       = strip_tab_cr_lf (list_byte_of_string "450 bhp"))).
  { left. exists (list_byte_of_string "450 "), [x09; x0d; x0a], (list_byte_of_string "bhp").
    split; [reflexivity|]. split; reflexivity. }
  split; [vm_compute; reflexivity|]. split; [vm_compute; reflexivity|].
  split; [exact Hdiff|].
  apply (Load_cleans_the_file ex_Unmarshal zeroCarDetails ex_root_clean ex_root_spaced
           "abarth500" (list_byte_of_string "450 bhp")
           (list_byte_of_string "450 " ++ [x09; x0d; x0a] ++ list_byte_of_string "bhp")%list);
    [vm_compute; reflexivity|vm_compute; reflexivity|exact Hdiff].
Defined.

Lemma SaveCarDetails_in_sync_witness :
  exists car0 w1,
    (forall bytes,
       ex_Encode_digits (car_Details (mkCar "bmw_m3" [] ∅ (set_Name zeroCarDetails "M3")))
         = Ok bytes ->
       ex_Unmarshal_digits (bom_Clean (strip_tab_cr_lf bytes)) zeroCarDetails =
         Decoded (car_Details (mkCar "bmw_m3" [] ∅ (set_Name zeroCarDetails "M3")))) /\
    LoadCar ex_prettifyName ex_Unmarshal_digits (root (disk ex_world_clean))
      (car_Name (mkCar "bmw_m3" [] ∅ (set_Name zeroCarDetails "M3"))) ∅ = Ok car0 /\
    Specs (car_Details (mkCar "bmw_m3" [] ∅ (set_Name zeroCarDetails "M3"))) =
      Numeric (SpecsFull (car_Details (mkCar "bmw_m3" [] ∅ (set_Name zeroCarDetails "M3")))) /\
    SaveCarDetails ex_Encode_digits ex_world_clean
      (car_Name (mkCar "bmw_m3" [] ∅ (set_Name zeroCarDetails "M3")))
      (mkCar "bmw_m3" [] ∅ (set_Name zeroCarDetails "M3")) = (w1, Ok tt) /\
    LoadCar ex_prettifyName ex_Unmarshal_digits (root (disk w1))
      (car_Name (mkCar "bmw_m3" [] ∅ (set_Name zeroCarDetails "M3"))) ∅ =
      Ok (mkCar (car_Name (mkCar "bmw_m3" [] ∅ (set_Name zeroCarDetails "M3")))
            (car_Skins car0)
            (default ∅ ((∅ : Tyres) !!
               car_Name (mkCar "bmw_m3" [] ∅ (set_Name zeroCarDetails "M3"))))
            (car_Details (mkCar "bmw_m3" [] ∅ (set_Name zeroCarDetails "M3")))) /\
    exists i1,
      carIndex w1 = Some i1 /\
      docs i1 !! car_Name (mkCar "bmw_m3" [] ∅ (set_Name zeroCarDetails "M3")) =
        Some (car_Details (mkCar "bmw_m3" [] ∅ (set_Name zeroCarDetails "M3"))).
Proof.
  eexists. eexists. split; [exact (ex_codec_round_trip _)|].
  split; [vm_compute; reflexivity|]. split; [vm_compute; reflexivity|].
  split; [vm_compute; reflexivity|].
  apply (SaveCarDetails_in_sync ex_prettifyName ex_Unmarshal_digits ex_Encode_digits
           ex_world_clean _ (mkCar "bmw_m3" [] ∅ (set_Name zeroCarDetails "M3")) _ ∅ ∅);
    [exact (ex_codec_round_trip _)|vm_compute; reflexivity|vm_compute; reflexivity
    |vm_compute; reflexivity].
Defined.

Lemma AddTag_in_sync_and_idempotent_witness :
  exists car0 w1,
    LoadCar ex_prettifyName ex_Unmarshal_digits (root (disk ex_world_clean)) "bmw_m3" ∅
      = Ok car0 /\
    (forall bytes,
       ex_Encode_digits (CarDetails_AddTag (car_Details car0) "fast") = Ok bytes ->
       ex_Unmarshal_digits (bom_Clean (strip_tab_cr_lf bytes)) zeroCarDetails =
         Decoded (CarDetails_AddTag (car_Details car0) "fast")) /\
    (forall data cd err partial,
       ex_Unmarshal_digits data cd = DecodeError err partial ->
       os_IsNotExist err = false) /\
    AddTag ex_prettifyName ex_Unmarshal_digits ex_Encode_digits ex_world_clean "bmw_m3"
      "fast" = (w1, Ok tt) /\
    exists car1,
      LoadCar ex_prettifyName ex_Unmarshal_digits (root (disk w1)) "bmw_m3" ∅ = Ok car1 /\
      car_Details car1 = CarDetails_AddTag (car_Details car0) "fast" /\
      In "fast" (Tags (car_Details car1)) /\
      car_Skins car1 = car_Skins car0 /\
      (exists i1,
         carIndex w1 = Some i1 /\ docs i1 !! "bmw_m3" = Some (car_Details car1)) /\
      AddTag ex_prettifyName ex_Unmarshal_digits ex_Encode_digits w1 "bmw_m3" "fast"
        = (w1, Ok tt).
Proof.
  eexists. eexists. split; [vm_compute; reflexivity|].
  split; [exact (ex_codec_round_trip _)|]. split; [exact ex_codec_errors|].
  split; [vm_compute; reflexivity|].
  apply (AddTag_in_sync_and_idempotent ex_prettifyName ex_Unmarshal_digits ex_Encode_digits
           ex_world_clean _ "bmw_m3" "fast" _);
    [vm_compute; reflexivity|exact (ex_codec_round_trip _)|exact ex_codec_errors
    |vm_compute; reflexivity].
Defined.

Lemma nil_index_panics_witness :
  exists cars,
    ListCars ex_prettifyName ex_Unmarshal ex_ListTyres (root (disk ex_world_clean))
      = Ok cars /\
    Search ex_prettifyName ex_Unmarshal unit ex_SearchInContext
      (NewCarManager (disk ex_world_clean)) tt "abarth" 0 = Panic /\
    IndexAllCars ex_prettifyName ex_Unmarshal ex_ListTyres
      (NewCarManager (disk ex_world_clean)) =
      (NewCarManager (disk ex_world_clean),
       match cars with [] => Ok tt | _ :: _ => Panic end) /\
    (forall carName,
       In carName (List.map car_Name cars) -> readonly (disk ex_world_clean) = false ->
       exists d',
         DeleteCar ex_prettifyName ex_Unmarshal ex_ListTyres
           (NewCarManager (disk ex_world_clean)) carName = (NewCarManager d', Panic) /\
         walk (carDirectory carName) (root d') = Err ENOENT) /\
    (forall carName,
       ~ In carName (List.map car_Name cars) ->
       DeleteCar ex_prettifyName ex_Unmarshal ex_ListTyres
         (NewCarManager (disk ex_world_clean)) carName =
         (NewCarManager (disk ex_world_clean), Panic)).
Proof.
  eexists. split; [vm_compute; reflexivity|].
  apply (nil_index_panics ex_prettifyName ex_Unmarshal ex_ListTyres unit
           ex_SearchInContext (disk ex_world_clean) tt "abarth" 0).
  vm_compute; reflexivity.
Defined.

Lemma DelTag_in_sync_witness :
  exists car0 w1,
    LoadCar ex_prettifyName ex_Unmarshal_digits
      (root (disk (fst (AddTag ex_prettifyName ex_Unmarshal_digits ex_Encode_digits
                          ex_world_clean "bmw_m3" "fast")))) "bmw_m3" ∅ = Ok car0 /\
    (forall bytes,
       ex_Encode_digits (CarDetails_DelTag (car_Details car0) "fast") = Ok bytes ->
       ex_Unmarshal_digits (bom_Clean (strip_tab_cr_lf bytes)) zeroCarDetails =
         Decoded (CarDetails_DelTag (car_Details car0) "fast")) /\
    (forall data cd err partial,
       ex_Unmarshal_digits data cd = DecodeError err partial ->
       os_IsNotExist err = false) /\
    DelTag ex_prettifyName ex_Unmarshal_digits ex_Encode_digits
      (fst (AddTag ex_prettifyName ex_Unmarshal_digits ex_Encode_digits ex_world_clean
              "bmw_m3" "fast")) "bmw_m3" "fast" = (w1, Ok tt) /\
    LoadCar ex_prettifyName ex_Unmarshal_digits (root (disk w1)) "bmw_m3" ∅ =
      Ok (with_Details car0 (CarDetails_DelTag (car_Details car0) "fast")) /\
    (exists i1,
       carIndex w1 = Some i1 /\
       docs i1 !! "bmw_m3" = Some (CarDetails_DelTag (car_Details car0) "fast")).
Proof.
  eexists. eexists. split; [vm_compute; reflexivity|].
  split; [exact (ex_codec_round_trip _)|]. split; [exact ex_codec_errors|].
  split; [vm_compute; reflexivity|].
  apply (DelTag_in_sync ex_prettifyName ex_Unmarshal_digits ex_Encode_digits
           (fst (AddTag ex_prettifyName ex_Unmarshal_digits ex_Encode_digits ex_world_clean
                   "bmw_m3" "fast")) _ "bmw_m3" "fast" _);
    [vm_compute; reflexivity|exact (ex_codec_round_trip _)|exact ex_codec_errors
    |vm_compute; reflexivity].
Defined.

Lemma UpdateCarMetadata_on_disk_witness :
  exists car0 w1,
    LoadCar ex_prettifyName ex_Unmarshal_digits (root (disk ex_world_clean)) "bmw_m3" ∅
      = Ok car0 /\
    (forall bytes,
       ex_Encode_digits
         (set_DownloadURL (set_Notes (car_Details car0) "a note")
            "http://example.com/m3.zip") = Ok bytes ->
       ex_Unmarshal_digits (bom_Clean (strip_tab_cr_lf bytes)) zeroCarDetails =
         Decoded (set_DownloadURL (set_Notes (car_Details car0) "a note")
                    "http://example.com/m3.zip")) /\
    (forall data cd err partial,
       ex_Unmarshal_digits data cd = DecodeError err partial ->
       os_IsNotExist err = false) /\
    UpdateCarMetadata ex_prettifyName ex_Unmarshal_digits ex_Encode_digits ex_world_clean
      "bmw_m3" "a note" "http://example.com/m3.zip" = (w1, Ok tt) /\
    LoadCar ex_prettifyName ex_Unmarshal_digits (root (disk w1)) "bmw_m3" ∅ =
      Ok (with_Details car0
            (set_DownloadURL (set_Notes (car_Details car0) "a note")
               "http://example.com/m3.zip")) /\
    carIndex w1 = carIndex ex_world_clean.
Proof.
  eexists. eexists. split; [vm_compute; reflexivity|].
  split; [exact (ex_codec_round_trip _)|]. split; [exact ex_codec_errors|].
  split; [vm_compute; reflexivity|].
  apply (UpdateCarMetadata_on_disk ex_prettifyName ex_Unmarshal_digits ex_Encode_digits
           ex_world_clean _ "bmw_m3" "a note" "http://example.com/m3.zip" _);
    [vm_compute; reflexivity|exact (ex_codec_round_trip _)|exact ex_codec_errors
    |vm_compute; reflexivity].
Defined.
